(** * FAHEEMZMOVIES backend: stream extraction and streaming proxy

    A shallow embedding of the request handlers of the backend
    ([src/server.js] and the variants of the same file kept under
    [src/unnamed/part_000]) and the properties of the specification
    checked against them.

    - [JsString]: JavaScript strings as sequences of UTF-16 code units and
      the string methods the handlers call.
    - [Uri]: [encodeURIComponent] / [decodeURIComponent].
    - [Runtime]: what the handlers take from the platform without the
      repository defining it (the WHATWG [URL] class, [JSON.parse],
      [String.prototype.toLowerCase]), responses, upstream origins, header
      objects with their prototype.
    - [VideoProxy]: the [/api/video-proxy] route of part_000 (playlist
      rewrite, binary relay).
    - [Effects]: handlers as programs over their local variables and a
      trace of events, with [try]/[catch]/[finally].
    - [Extract]: the [/api/extract-stream] route (capture, selection,
      multi-source loop of part_000, single-page handler and fallback
      scanner of server.js).
    - [Stream]: the [/api/stream] route (header smuggling, range handling,
      per-request browser) in part_000 and in server.js.
    - [Readme]: the [/api/extract] route of the deployment in README.md.
    - [Listener], [Answers], [Range], [Player]: notions the statements on
      the routes above are written with.
    - [SimpleProxy]: the simple [/api/video-proxy] route of part_000.
    - [ReadmeProxy]: the [/api/video-proxy] route of README.md.
    - [Tmdb]: the TMDB endpoints of part_000.
    - [Samples], [MoreSamples]: a stand-in platform and sample worlds.

    The second part states and proves the properties, module by module. *)

From Stdlib Require Import NArith ZArith List String Ascii Bool Lia DecimalString.
From Stdlib Require DecimalPos DecimalN.
From stdpp Require Import base option list gmap.
Import ListNotations.

Local Open Scope N_scope.
Local Open Scope list_scope.

(** ** JavaScript strings *)

Module JsString.

(** A JavaScript string is a sequence of 16-bit code units. *)
Abbreviation jsstring := (list N).

(** String literals of the source, which are all ASCII. *)
Definition js (s : string) : jsstring :=
  List.map N_of_ascii (list_ascii_of_string s).

Fixpoint startsWith (s p : jsstring) {struct p} : bool :=
  match p, s with
  | [], _ => true
  | _ :: _, [] => false
  | c :: p', d :: s' => (c =? d) && startsWith s' p'
  end.

Definition endsWith (s p : jsstring) : bool :=
  startsWith (rev s) (rev p).

Fixpoint includes (s p : jsstring) : bool :=
  startsWith s p ||
  match s with
  | [] => false
  | _ :: s' => includes s' p
  end.

(** [WhiteSpace] and [LineTerminator] of ECMAScript, the code units that
    [String.prototype.trim] strips. *)
Definition is_js_space (c : N) : bool :=
  ((9 <=? c) && (c <=? 13)) || (c =? 32) || (c =? 160) || (c =? 5760) ||
  ((8192 <=? c) && (c <=? 8202)) || (c =? 8232) || (c =? 8233) ||
  (c =? 8239) || (c =? 8287) || (c =? 12288) || (c =? 65279).

Fixpoint trimStart (s : jsstring) : jsstring :=
  match s with
  | [] => []
  | c :: s' => if is_js_space c then trimStart s' else s
  end.

Definition trimEnd (s : jsstring) : jsstring := rev (trimStart (rev s)).

Definition trim (s : jsstring) : jsstring := trimEnd (trimStart s).

(** [s.split(sep)] for a separator of one code unit. *)
Fixpoint split_unit (sep : N) (s : jsstring) : list jsstring :=
  match s with
  | [] => [[]]
  | c :: s' =>
      if c =? sep then [] :: split_unit sep s'
      else match split_unit sep s' with
           | [] => [[c]]
           | h :: t => (c :: h) :: t
           end
  end.

(** [s.split(sep)] for a non-empty separator: [skip] counts the code units
    of a matched separator still to be dropped, [cur] is the piece being
    read, reversed. *)
Fixpoint split_go (sep s : jsstring) (skip : nat) (cur : jsstring)
  : list jsstring :=
  match s with
  | [] => [rev cur]
  | c :: s' =>
      match skip with
      | S k => split_go sep s' k cur
      | O =>
          if startsWith s sep
          then rev cur :: split_go sep s' (length sep - 1) []
          else split_go sep s' 0 (c :: cur)
      end
  end.

Definition split (s sep : jsstring) : list jsstring := split_go sep s 0 [].

(** [parts.join(sep)]. *)
Fixpoint join (sep : jsstring) (parts : list jsstring) : jsstring :=
  match parts with
  | [] => []
  | [p] => p
  | p :: rest => p ++ sep ++ join sep rest
  end.

(** Lower case of an ASCII letter; other code units are kept. *)
Definition ascii_lower (c : N) : N :=
  if (65 <=? c) && (c <=? 90) then c + 32 else c.

Definition is_ascii (s : jsstring) : Prop := Forall (fun c => c < 128) s.

(** Every element is a code unit. *)
Definition well_formed (s : jsstring) : Prop := Forall (fun c => c < 65536) s.

(** [!s] for a string: only the empty string is falsy. *)
Definition falsy (s : jsstring) : bool :=
  match s with [] => true | _ => false end.

(** [a || b] on an optional string ([None] is [undefined]). *)
Definition or_else (a : option jsstring) (b : jsstring) : jsstring :=
  match a with
  | Some s => if falsy s then b else s
  | None => b
  end.

Definition LF : N := 10.
Definition CR : N := 13.

(** [s] without its prefix [p], when it has it. *)
Fixpoint strip_prefix (p s : jsstring) {struct p} : option jsstring :=
  match p, s with
  | [], _ => Some s
  | _ :: _, [] => None
  | c :: p', d :: s' => if c =? d then strip_prefix p' s' else None
  end.

(** [s] up to the first occurrence of the code unit [c]. *)
Fixpoint before_unit (c : N) (s : jsstring) : jsstring :=
  match s with
  | [] => []
  | d :: s' => if d =? c then [] else d :: before_unit c s'
  end.

(** A source literal that holds double quotes is written with [quoted]. *)
Definition quoted (s : string) : jsstring := 34 :: js s ++ [34].

(** A non-negative integer in a template literal or a concatenation. *)
Definition decimal (n : N) : jsstring :=
  js (NilZero.string_of_uint (N.to_uint n)).

End JsString.

(** ** Percent-encoding of URI components *)

Module Uri.
Import JsString.

Definition is_alnum (c : N) : bool :=
  ((48 <=? c) && (c <=? 57)) || ((65 <=? c) && (c <=? 90)) ||
  ((97 <=? c) && (c <=? 122)).

(** The characters [encodeURIComponent] leaves alone:
    [A-Z a-z 0-9 - _ . ! ~ * ' ( )]. *)
Definition uri_unreserved (c : N) : bool :=
  is_alnum c || (c =? 45) || (c =? 95) || (c =? 46) || (c =? 33) ||
  (c =? 126) || (c =? 42) || (c =? 39) || (c =? 40) || (c =? 41).

Definition is_high_surrogate (c : N) : bool := (0xD800 <=? c) && (c <=? 0xDBFF).
Definition is_low_surrogate (c : N) : bool := (0xDC00 <=? c) && (c <=? 0xDFFF).

(** UTF-8 octets of a code point. *)
Definition utf8 (cp : N) : list N :=
  if cp <? 0x80 then [cp]
  else if cp <? 0x800 then [0xC0 + cp / 64; 0x80 + cp mod 64]
  else if cp <? 0x10000 then
    [0xE0 + cp / 4096; 0x80 + (cp / 64) mod 64; 0x80 + cp mod 64]
  else
    [0xF0 + cp / 262144; 0x80 + (cp / 4096) mod 64;
     0x80 + (cp / 64) mod 64; 0x80 + cp mod 64].

(** UTF-16 code units of a code point. *)
Definition utf16 (cp : N) : jsstring :=
  if cp <? 0x10000 then [cp]
  else [0xD800 + (cp - 0x10000) / 1024; 0xDC00 + (cp - 0x10000) mod 1024].

Definition hex_digit (d : N) : N := if d <? 10 then 48 + d else 55 + d.

(** ["%XX"], upper-case hexadecimal. *)
Definition pct (b : N) : jsstring :=
  [37; hex_digit ((b / 16) mod 16); hex_digit (b mod 16)].

Definition pct_all (octets : list N) : jsstring := flat_map pct octets.

(** [encodeURIComponent(s)]; [None] is the [URIError] thrown on a lone
    surrogate. *)
Fixpoint encodeURIComponent (s : jsstring) : option jsstring :=
  match s with
  | [] => Some []
  | c :: s' =>
      if uri_unreserved c then cons c <$> encodeURIComponent s'
      else if is_low_surrogate c then None
      else if is_high_surrogate c then
        match s' with
        | d :: s'' =>
            if is_low_surrogate d
            then app (pct_all (utf8 (0x10000 + (c - 0xD800) * 1024 + (d - 0xDC00))))
                   <$> encodeURIComponent s''
            else None
        | [] => None
        end
      else app (pct_all (utf8 c)) <$> encodeURIComponent s'
  end.

(** The characters an encoded component is made of. *)
Definition uri_safe (c : N) : bool := uri_unreserved c || (c =? 37).

Definition hex_value (c : N) : option N :=
  if (48 <=? c) && (c <=? 57) then Some (c - 48)
  else if (65 <=? c) && (c <=? 70) then Some (c - 55)
  else if (97 <=? c) && (c <=? 102) then Some (c - 87)
  else None.

(** A decoded position: a code unit copied as it is, or the octet of an
    escape. *)
Inductive token := Lit (c : N) | Octet (b : N).

(** First pass of [decodeURIComponent]: every ['%'] must start an escape
    of two hexadecimal digits. *)
Fixpoint unescape (s : jsstring) : option (list token) :=
  match s with
  | [] => Some []
  | c :: s' =>
      if c =? 37 then
        match s' with
        | h :: l :: s'' =>
            match hex_value h, hex_value l with
            | Some a, Some b => cons (Octet (16 * a + b)) <$> unescape s''
            | _, _ => None
            end
        | _ => None
        end
      else cons (Lit c) <$> unescape s'
  end.

Definition is_cont (b : N) : bool := (0x80 <=? b) && (b <=? 0xBF).

(** Second pass: octets at or above 0x80 must form valid UTF-8 (shortest
    form, no surrogate, at most U+10FFFF). *)
Fixpoint utf8_decode (ts : list token) : option jsstring :=
  match ts with
  | [] => Some []
  | Lit c :: r => cons c <$> utf8_decode r
  | Octet b :: r =>
      if b <? 0x80 then cons b <$> utf8_decode r
      else if (0xC0 <=? b) && (b <=? 0xDF) then
        match r with
        | Octet b2 :: r2 =>
            let cp := (b - 0xC0) * 64 + (b2 - 0x80) in
            if is_cont b2 && (0x80 <=? cp)
            then app (utf16 cp) <$> utf8_decode r2 else None
        | _ => None
        end
      else if (0xE0 <=? b) && (b <=? 0xEF) then
        match r with
        | Octet b2 :: Octet b3 :: r3 =>
            let cp := (b - 0xE0) * 4096 + (b2 - 0x80) * 64 + (b3 - 0x80) in
            if is_cont b2 && is_cont b3 && (0x800 <=? cp) &&
               negb ((0xD800 <=? cp) && (cp <=? 0xDFFF))
            then app (utf16 cp) <$> utf8_decode r3 else None
        | _ => None
        end
      else if (0xF0 <=? b) && (b <=? 0xF7) then
        match r with
        | Octet b2 :: Octet b3 :: Octet b4 :: r4 =>
            let cp := (b - 0xF0) * 262144 + (b2 - 0x80) * 4096 +
                      (b3 - 0x80) * 64 + (b4 - 0x80) in
            if is_cont b2 && is_cont b3 && is_cont b4 &&
               (0x10000 <=? cp) && (cp <=? 0x10FFFF)
            then app (utf16 cp) <$> utf8_decode r4 else None
        | _ => None
        end
      else None
  end.

(** [decodeURIComponent(s)]; [None] is the [URIError]. *)
Definition decodeURIComponent (s : jsstring) : option jsstring :=
  unescape s ≫= utf8_decode.

(** The raw value of query parameter [name] in a URL or path-and-query
    string: the text after the first ['?'] is cut at ['&'], and the first
    piece [name=value] gives [value]. *)
Fixpoint after_unit (c : N) (s : jsstring) : option jsstring :=
  match s with
  | [] => None
  | d :: s' => if d =? c then Some s' else after_unit c s'
  end.

Fixpoint first_some {A B} (f : A -> option B) (l : list A) : option B :=
  match l with
  | [] => None
  | x :: l' => match f x with Some y => Some y | None => first_some f l' end
  end.

Definition raw_query_param (name : jsstring) (s : jsstring) : option jsstring :=
  q ← after_unit 63 s;
  first_some (strip_prefix (name ++ [61])) (split_unit 38 q).

(** The decoder of the query-string parser behind [req.query]: ['+'] is
    a space, and a value that does not decode is kept as it is. *)
Definition qs_decode (s : jsstring) : jsstring :=
  let t := List.map (fun c => if c =? 43 then 32 else c) s in
  default t (decodeURIComponent t).

(** The parameter as the receiving handler reads it from [req.query],
    for a query in which [name] occurs once, as in the lines the rewrite
    produces (a repeated name gives the handler an array). *)
Definition query_param (name : jsstring) (s : jsstring) : option jsstring :=
  qs_decode <$> raw_query_param name s.

End Uri.

(** ** What the handlers take from the platform *)

Module Runtime.
Import JsString.

(** JSON values: what [JSON.parse] returns and what [res.json] sends. *)
#[warnings="-register-all"]
Inductive json :=
| JNull
| JBool (b : bool)
| JNum (q : QArith_base.Q)
| JStr (s : jsstring)
| JArr (items : list json)
| JObj (fields : list (jsstring * json)).

(** Functions of Node.js that the repository calls and does not define.
    [None] stands for the exception the call throws. *)
Record runtime := {
  (** [new URL(input, base).toString()], [new URL(input).toString()] when
      there is no base; throws [TypeError] on an invalid URL. *)
  URL_href : jsstring -> option jsstring -> option jsstring;
  (** [new URL(input).origin]. *)
  URL_origin : jsstring -> option jsstring;
  (** [String.prototype.toLowerCase]. *)
  toLowerCase : jsstring -> jsstring;
  (** [JSON.parse]; throws [SyntaxError]. *)
  JSON_parse : jsstring -> option json;
  (** [p = new URLSearchParams(init); p.delete(name); p.toString()]. *)
  URLSearchParams_without : jsstring -> jsstring -> jsstring
}.

(** On ASCII text [toLowerCase] maps [A-Z] to [a-z] and nothing else. *)
Definition lowercases_ascii (rt : runtime) : Prop :=
  forall s, is_ascii s -> toLowerCase rt s = List.map ascii_lower s.

(** HTTP header sets and JavaScript objects used as string-keyed maps. *)
Abbreviation headers := (gmap jsstring jsstring).

(** A header or property is used when it is present and truthy. *)
Definition truthy (v : option jsstring) : option jsstring :=
  match v with
  | Some s => if falsy s then None else Some s
  | None => None
  end.

(** The body of a response sent by a handler. *)
Inductive body :=
| Text (s : jsstring)            (* [res.send(string)] *)
| Json (j : json)                (* [res.json(value)] *)
| Piped (stream : nat).          (* [upstream.data.pipe(res)] *)

Record response := {
  status : N;
  res_headers : headers;         (* the headers the handler sets itself *)
  res_body : body
}.

(** What an upstream origin answers to a GET of the proxy. *)
Inductive upstream_reply :=
| NetworkError (message : jsstring)
| Reply (code : N) (hs : headers) (text : jsstring) (stream : nat).

(** The upstream world: target URL and outbound headers to the reply. *)
Definition upstream := jsstring -> headers -> upstream_reply.

(** A header object that holds parsed JSON values. Where [Object.assign]
    copies client data into it, an assignment to [__proto__] can replace
    its prototype, and a later read of a property goes through the
    prototype: the object is its own properties and its prototype. *)
Inductive prototype :=
| Object_prototype                (* the prototype of an object literal *)
| Null_prototype                  (* [__proto__ = null] *)
| Parsed (j : json).              (* an object or an array of [JSON.parse] *)

Record object := {
  own : gmap jsstring json;
  proto : prototype
}.

(** An object literal. *)
Definition literal (fields : list (jsstring * json)) : object :=
  {| own := list_to_map fields; proto := Object_prototype |}.

(** [o !! k] is the own property [k] of [o]. *)
#[global] Instance object_lookup : Lookup jsstring json object :=
  fun k o => own o !! k.

(** The upstream world of a handler that passes such an object as the
    [headers] of its request. *)
Definition upstream_json := jsstring -> object -> upstream_reply.

(** [!!v] of a JSON value. *)
Definition json_truthy (j : json) : bool :=
  match j with
  | JNull => false
  | JBool b => b
  | JNum q => negb (Z.eqb (QArith_base.Qnum q) 0)
  | JStr s => negb (falsy s)
  | JArr _ | JObj _ => true
  end.

End Runtime.

(** ** [/api/video-proxy] (src/unnamed/part_000, lines 510-587) *)

Module VideoProxy.
Import JsString Uri Runtime.

Record proxy_request := {
  query_url : option jsstring;       (* [req.query.url] *)
  query_referer : option jsstring;   (* [req.query.referer] *)
  header_range : option jsstring     (* [req.headers.range] *)
}.

Definition forwardHeaders (req : proxy_request) : headers :=
  let base : headers :=
    list_to_map [
      (js "User-Agent", js "Mozilla/5.0 (Windows NT 10.0; Win64; x64) AppleWebKit/537.36 (KHTML, like Gecko) Chrome/120.0.0.0 Safari/537.36");
      (js "Referer", or_else (query_referer req) (js "https://vidlink.pro/"));
      (js "Accept", js "*/*");
      (js "Accept-Encoding", js "identity;q=1, *;q=0");
      (js "Accept-Language", js "en-US,en;q=0.9");
      (js "Cache-Control", js "no-cache");
      (js "Connection", js "keep-alive");
      (js "Pragma", js "no-cache");
      (js "Sec-Ch-Ua",
         quoted "Not_A Brand" ++ js ";v=" ++ quoted "8" ++ js ", " ++
         quoted "Chromium" ++ js ";v=" ++ quoted "120" ++ js ", " ++
         quoted "Google Chrome" ++ js ";v=" ++ quoted "120");
      (js "Sec-Ch-Ua-Mobile", js "?0");
      (js "Sec-Ch-Ua-Platform", quoted "Windows");
      (js "Sec-Fetch-Dest", js "empty");
      (js "Sec-Fetch-Mode", js "cors");
      (js "Sec-Fetch-Site", js "cross-site");
      (js "Origin", js "https://vidlink.pro")] in
  match truthy (header_range req) with
  | Some r => <[js "Range" := r]> base
  | None => base
  end.

Section WithRuntime.
Context (rt : runtime).

(** [new URL(line, new URL(url)).toString()], lines 549-550. *)
Definition resolve (url line : jsstring) : option jsstring :=
  base ← URL_href rt url None;
  URL_href rt line (Some base).

(** The template literal of line 551. *)
Definition proxied (url : jsstring) (referer : option jsstring)
    (segUrl : jsstring) : option jsstring :=
  u ← encodeURIComponent segUrl;
  r ← encodeURIComponent (or_else referer url);
  Some (js "/api/video-proxy?url=" ++ u ++ js "&referer=" ++ r).

(** A line the rewrite leaves alone: empty or a tag/comment once
    trimmed. *)
Definition blank_or_tag (line : jsstring) : bool :=
  falsy (trim line) || startsWith (trim line) (js "#").

(** The callback of [playlist.split('\n').map(...)], lines 545-555. *)
Definition rewrite_line (url : jsstring) (referer : option jsstring)
    (line0 : jsstring) : jsstring :=
  let line := trim line0 in
  if falsy line || startsWith line (js "#") then line
  else
    match resolve url line ≫= proxied url referer with
    | Some rewritten => rewritten
    | None => line                  (* [catch (e) { return line; }] *)
    end.

Definition rewrite_playlist (url : jsstring) (referer : option jsstring)
    (playlist : jsstring) : jsstring :=
  join [LF] (List.map (rewrite_line url referer) (split_unit LF playlist)).

(** The branch the handler takes for a target, line 536. *)
Inductive branch := Manifest | Binary.

Definition dispatch (url : jsstring) : branch :=
  if endsWith (toLowerCase rt url) (js ".m3u8") then Manifest else Binary.

(** The test of line 536 on ASCII text: the whole target, whatever it
    holds, ends in [.m3u8] in any letter case. *)
Definition ends_in_m3u8 (url : jsstring) : bool :=
  endsWith (List.map ascii_lower url) (js ".m3u8").

Definition valid_status (s : N) : bool := (200 <=? s) && (s <? 400).

Definition proxy_error (message : jsstring) : response :=
  {| status := 500; res_headers := ∅;
     res_body := Text (js "Error proxying video: " ++ message) |}.

Definition status_message (code : N) : jsstring :=
  js "Request failed with status code " ++ decimal code.

(** Copy an upstream header to the response when it is present. *)
Definition copy_header (name out : jsstring) (from : headers) (to : headers)
  : headers :=
  match truthy (from !! name) with
  | Some v => <[out := v]> to
  | None => to
  end.

Definition relay_headers (hs : headers) : headers :=
  <[js "Access-Control-Allow-Origin" := js "*"]>
    (copy_header (js "content-range") (js "Content-Range") hs
      (copy_header (js "accept-ranges") (js "Accept-Ranges") hs
        (copy_header (js "content-length") (js "Content-Length") hs
          (copy_header (js "content-type") (js "Content-Type") hs ∅)))).

(** [axios] with [validateStatus: s => s >= 200 && s < 400]: the call
    rejects on a network failure and on any other status. *)
Definition axios_checked (up : upstream) (url : jsstring) (hs : headers)
  : jsstring + (N * headers * jsstring * nat) :=
  match up url hs with
  | NetworkError message => inl message
  | Reply code rhs text stream =>
      if valid_status code then inr (code, rhs, text, stream)
      else inl (status_message code)
  end.

Definition video_proxy (up : upstream) (req : proxy_request) : response :=
  match truthy (query_url req) with
  | None =>
      {| status := 400; res_headers := ∅;
         res_body := Text (js "Missing url parameter") |}
  | Some url =>
      match dispatch url with
      | Manifest =>
          match axios_checked up url (forwardHeaders req) with
          | inl message => proxy_error message
          | inr (_, _, playlist, _) =>
              {| status := 200;
                 res_headers :=
                   <[js "Access-Control-Allow-Origin" := js "*"]>
                     {[js "Content-Type" := js "application/vnd.apple.mpegurl"]};
                 res_body :=
                   Text (rewrite_playlist url (query_referer req) playlist) |}
          end
      | Binary =>
          match axios_checked up url (forwardHeaders req) with
          | inl message => proxy_error message
          | inr (code, rhs, _, stream) =>
              {| status := code;
                 res_headers := relay_headers rhs;
                 res_body := Piped stream |}
          end
      end
  end.

End WithRuntime.

(** The reading of the specification: the path of the target ends in
    [.m3u8], where the target is first cut at its query string and at its
    fragment. *)
Definition url_path (url : jsstring) : jsstring :=
  before_unit 35 (before_unit 63 url).

Definition path_ends_in_m3u8 (url : jsstring) : bool :=
  endsWith (List.map ascii_lower (url_path url)) (js ".m3u8").

End VideoProxy.

(** ** Handlers as effectful programs *)

Module Effects.
Import JsString Runtime.

(** What a handler does to the world, in the order it does it. *)
Inductive event :=
| Launch (b : nat)                (* [puppeteer.launch()] resolved to browser [b] *)
| CloseBrowser (b : nat)          (* [browser.close()] *)
| NewPage (p : nat)               (* [browser.newPage()] resolved to page [p] *)
| Goto (p : nat) (url : option jsstring)   (* [page.goto(url)] was called *)
| ClosePage (p : nat)             (* [page.close()] *)
| Fetch (s : nat) (url : jsstring) (hs : object)
                                  (* [axios] resolved with upstream stream [s] *)
| Destroy (s : nat)               (* [response.data.destroy()] *)
| Send (r : response).            (* the response written to [res] *)

Inductive outcome (A : Type) :=
| Ok (a : A)
| Throw (message : jsstring).
Arguments Ok {A} a.
Arguments Throw {A} message.

(** A computation over the handler's [let] variables [L] and the trace of
    events so far; it returns or throws. *)
Definition M (L A : Type) : Type :=
  L -> list event -> outcome A * L * list event.

Definition ret {L A} (a : A) : M L A := fun l tr => (Ok a, l, tr).

Definition bind {L A B} (m : M L A) (k : A -> M L B) : M L B :=
  fun l tr =>
    match m l tr with
    | (Ok a, l', tr') => k a l' tr'
    | (Throw e, l', tr') => (Throw e, l', tr')
    end.

Definition throw {L A} (message : jsstring) : M L A :=
  fun l tr => (Throw message, l, tr).

(** [try { body } catch (e) { handler(e.message) }]. *)
Definition try_catch {L A} (body : M L A) (handler : jsstring -> M L A)
  : M L A :=
  fun l tr =>
    match body l tr with
    | (Ok a, l', tr') => (Ok a, l', tr')
    | (Throw e, l', tr') => handler e l' tr'
    end.

(** [try { body } finally { fin }]: [fin] always runs, and an exception of
    [fin] replaces the outcome of [body]. *)
Definition try_finally {L A} (body : M L A) (fin : M L unit) : M L A :=
  fun l tr =>
    match body l tr with
    | (o, l', tr') =>
        match fin l' tr' with
        | (Ok _, l'', tr'') => (o, l'', tr'')
        | (Throw e, l'', tr'') => (Throw e, l'', tr'')
        end
    end.

Definition emit {L} (e : event) : M L unit :=
  fun l tr => (Ok tt, l, tr ++ [e]).

Definition get {L} : M L L := fun l tr => (Ok l, l, tr).
Definition modify {L} (f : L -> L) : M L unit := fun l tr => (Ok tt, f l, tr).
Definition history {L} : M L (list event) := fun l tr => (Ok tr, l, tr).

(** A platform call that may throw. *)
Definition attempt {L A} (r : option A) (message : jsstring) : M L A :=
  match r with
  | Some a => ret a
  | None => throw message
  end.

(** A platform call whose outcome the world decides. *)
Definition lift {L A} (o : outcome A) : M L A :=
  match o with
  | Ok a => ret a
  | Throw e => throw e
  end.

(** Such a call with no result: [Some message] is its rejection. *)
Definition unless {L} (error : option jsstring) : M L unit :=
  match error with
  | Some message => throw message
  | None => ret tt
  end.

Definition send {L} (code : N) (j : json) : M L unit :=
  emit (Send {| status := code; res_headers := ∅; res_body := Json j |}).

Definition run {L A} (m : M L A) (init : L) : outcome A * list event :=
  match m init [] with
  | (o, _, tr) => (o, tr)
  end.

Definition is_new_page (e : event) : bool :=
  match e with NewPage _ => true | _ => false end.

Definition closes_page (p : nat) (e : event) : bool :=
  match e with ClosePage q => Nat.eqb p q | _ => false end.

(** The identifier of the next page: pages are numbered in creation
    order. *)
Definition fresh_page (tr : list event) : nat :=
  length (List.filter is_new_page tr).

Definition is_launch (e : event) : bool :=
  match e with Launch _ => true | _ => false end.

Definition fresh_browser (tr : list event) : nat :=
  length (List.filter is_launch tr).

Definition is_fetch (e : event) : bool :=
  match e with Fetch _ _ _ => true | _ => false end.

Definition fresh_stream (tr : list event) : nat :=
  length (List.filter is_fetch tr).

(** What a trace shows. *)
Definition navigations (tr : list event) : list jsstring :=
  omap (fun e => match e with Goto _ (Some u) => Some u | _ => None end) tr.

Definition responses (tr : list event) : list response :=
  omap (fun e => match e with Send r => Some r | _ => None end) tr.

Definition opened_pages (tr : list event) : list nat :=
  omap (fun e => match e with NewPage p => Some p | _ => None end) tr.

Definition closed_pages (tr : list event) : list nat :=
  omap (fun e => match e with ClosePage p => Some p | _ => None end) tr.

Definition launched (tr : list event) : list nat :=
  omap (fun e => match e with Launch b => Some b | _ => None end) tr.

Definition closed_browsers (tr : list event) : list nat :=
  omap (fun e => match e with CloseBrowser b => Some b | _ => None end) tr.

Definition fetched (tr : list event) : list nat :=
  omap (fun e => match e with Fetch s _ _ => Some s | _ => None end) tr.

Definition destroyed (tr : list event) : list nat :=
  omap (fun e => match e with Destroy s => Some s | _ => None end) tr.

(** The upstream requests of a trace: target and header object. *)
Definition requested (tr : list event) : list (jsstring * object) :=
  omap (fun e => match e with Fetch _ u hs => Some (u, hs) | _ => None end) tr.

(** Every page the trace opens, it closes. *)
Definition all_closed (tr : list event) : Prop :=
  forall p, p ∈ opened_pages tr -> p ∈ closed_pages tr.

(** [within allowed m]: whatever the state it starts from, [m] only adds
    events to the trace, and the pages it navigates are, in order, among
    [allowed]. *)
Definition within {L A} (allowed : list jsstring) (m : M L A) : Prop :=
  forall l tr, exists evs,
    snd (m l tr) = tr ++ evs /\ navigations evs `sublist_of` allowed.

End Effects.

Declare Scope js_scope.
Delimit Scope js_scope with js.
Notation "x <- m ;; k" := (Effects.bind m (fun x => k))
  (at level 100, m at next level, right associativity) : js_scope.
Notation "m ;; k" := (Effects.bind m (fun _ => k))
  (at level 100, right associativity) : js_scope.

(** ** [/api/extract-stream] *)

Module Extract.
Import JsString Uri Runtime Effects.
Local Open Scope js_scope.

(** *** Network capture and resource gate (the ['request'] listener) *)

Record net_request := {
  req_url : jsstring;            (* [request.url()] *)
  resourceType : jsstring        (* [request.resourceType()] *)
}.

Record captured := {
  m3u8 : list jsstring;
  mp4 : list jsstring;
  iframe : list jsstring;
  other : list jsstring
}.

Definition no_capture : captured :=
  {| m3u8 := []; mp4 := []; iframe := []; other := [] |}.

Definition capture (c : captured) (r : net_request) : captured :=
  let u := req_url r in
  if includes u (js ".m3u8") then
    {| m3u8 := m3u8 c ++ [u]; mp4 := mp4 c; iframe := iframe c; other := other c |}
  else if includes u (js ".mp4") || includes u (js ".webm") || includes u (js ".mkv") then
    {| m3u8 := m3u8 c; mp4 := mp4 c ++ [u]; iframe := iframe c; other := other c |}
  else c.

Inductive gate := Abort | Continue.

Definition resource_gate (r : net_request) : gate :=
  let u := req_url r in
  if existsb (fun t => bool_decide (t = resourceType r))
       [js "image"; js "stylesheet"; js "font"]
     || includes u (js "ads") || includes u (js "analytics")
     || includes u (js "tracking")
  then Abort else Continue.

(** The listener sees every request once, in arrival order. *)
Definition on_requests (rs : list net_request) : captured * list gate :=
  (fold_left capture rs no_capture, List.map resource_gate rs).

(** *** Selection among captured URLs (part_000 lines 427-443,
        server.js lines 196-211) *)

Definition has_marker (u : jsstring) : bool :=
  includes u (js "MTA4MA==") || includes u (js "NzIw").

(** [for (const m3u8Url of capturedUrls.m3u8) { if (...) { best = m3u8Url; break; } }] *)
Fixpoint best_m3u8_loop (urls : list jsstring) (best : jsstring) : jsstring :=
  match urls with
  | [] => best
  | u :: rest => if has_marker u then u else best_m3u8_loop rest best
  end.

Definition select_captured (c : captured) : option jsstring :=
  match m3u8 c with
  | first :: _ => Some (best_m3u8_loop (m3u8 c) first)
  | [] =>
      match mp4 c with
      | first :: _ => Some first
      | [] => None
      end
  end.

(** *** Provider sources (part_000 lines 341-355) *)

Record source := {
  name : jsstring;
  movieUrl : jsstring -> jsstring;
  tvUrl : jsstring -> jsstring -> jsstring -> jsstring;
  priority : N
}.

Definition vidlink : source :=
  {| name := js "vidlink.pro";
     movieUrl := fun id => js "https://vidlink.pro/movie/" ++ id ++ js "?nextbutton=true";
     tvUrl := fun id season episode =>
       js "https://vidlink.pro/tv/" ++ id ++ js "/" ++ season ++ js "/" ++ episode
         ++ js "?nextbutton=true";
     priority := 1 |}.

Definition moviesapi : source :=
  {| name := js "moviesapi.to";
     movieUrl := fun id => js "https://moviesapi.to/movie/" ++ id;
     tvUrl := fun id season episode =>
       js "https://moviesapi.to/tv/" ++ id ++ js "-" ++ season ++ js "-" ++ episode;
     priority := 2 |}.

Definition SOURCES : list source := [vidlink; moviesapi].

(** *** Parsing the content identifier (lines 365-374) *)

Definition is_digit (c : N) : bool := (48 <=? c) && (c <=? 57).

(** The longest prefix of digits and what follows it. *)
Fixpoint span_digits (s : jsstring) : jsstring * jsstring :=
  match s with
  | [] => ([], [])
  | c :: s' =>
      if is_digit c then let '(d, r) := span_digits s' in (c :: d, r)
      else ([], s)
  end.

(** [(\d+)] followed by the literal [next]. *)
Definition digits_then (next s : jsstring) : option (jsstring * jsstring) :=
  let '(d, r) := span_digits s in
  if falsy d then None else pair d <$> strip_prefix next r.

(** [/\/tv\/(\d+)\/(\d+)\/(\d+)/] anchored at the start of [s]. *)
Definition tv_match_here (s : jsstring)
  : option (jsstring * jsstring * jsstring) :=
  r0 ← strip_prefix (js "/tv/") s;
  '(tvId, r1) ← digits_then (js "/") r0;
  '(season, r2) ← digits_then (js "/") r1;
  '(episode, _) ← digits_then [] r2;
  Some (tvId, season, episode).

(** [targetUrl.match(/\/tv\/(\d+)\/(\d+)\/(\d+)/)]: the leftmost match. *)
Fixpoint tv_match (s : jsstring) : option (jsstring * jsstring * jsstring) :=
  match tv_match_here s with
  | Some m => Some m
  | None =>
      match s with
      | [] => None
      | _ :: s' => tv_match s'
      end
  end.

(** [targetUrl.split('/movie/')[1]?.split('?')[0]]. *)
Definition movie_id (targetUrl : jsstring) : option jsstring :=
  match split targetUrl (js "/movie/") with
  | _ :: part :: _ => head (split part (js "?"))
  | _ => None
  end.

(** The URL a source is asked for; [None] is the [continue] of an
    identifier that does not parse. *)
Definition source_url (targetUrl : jsstring) (isMovie : bool) (s : source)
  : option jsstring :=
  if isMovie then
    id ← truthy (movie_id targetUrl);
    Some (movieUrl s id)
  else
    '(tvId, season, episode) ← tv_match targetUrl;
    Some (tvUrl s tvId season episode).

(** The source URLs of a request, in the order of the sources. *)
Definition planned (targetUrl : jsstring) (isMovie : bool)
    (sources : list source) : list jsstring :=
  omap (source_url targetUrl isMovie) sources.

(** *** The browser as the handler meets it *)

(** What happens when a page is opened for a source URL. *)
Inductive page_run :=
| NewPageFails (message : jsstring)     (* [browser.newPage()] rejects *)
| SetupFails (message : jsstring)       (* user agent, viewport or interception *)
| GotoFails (message : jsstring)        (* navigation error or timeout *)
| Settled (requests : list net_request).
    (* navigation and the settle delay are over; the requests seen so far *)

Record browser_env := {
  visit : jsstring -> page_run;
  (** [page.close()] on a page that is closed already: the rejection, if
      it rejects. *)
  reclose : option jsstring
}.

(** The stream a source yields: a captured URL once its page has
    settled. *)
Definition yields (env : browser_env) (sourceUrl : jsstring) : option jsstring :=
  match visit env sourceUrl with
  | Settled requests => select_captured (fst (on_requests requests))
  | _ => None
  end.

Record locals := {
  page : option nat;               (* [let page;] *)
  streamUrl : option jsstring      (* [let streamUrl = null;] *)
}.

Definition set_page (p : nat) : M locals unit :=
  modify (fun l => {| page := Some p; streamUrl := streamUrl l |}).

Definition set_streamUrl (u : jsstring) : M locals unit :=
  modify (fun l => {| page := page l; streamUrl := Some u |}).

(** Every page the trace opens is closed, but for the one in [page]. *)
Definition tracked (l : locals) (tr : list event) : Prop :=
  forall p, p ∈ opened_pages tr -> p ∈ closed_pages tr \/ page l = Some p.

(** [await page.close()]; [again] is what closing a closed page does. *)
Definition close_page {L} (again : option jsstring) (p : nat) : M L unit :=
  tr <- history;;
  if existsb (closes_page p) tr then
    match again with
    | Some message => throw message
    | None => emit (ClosePage p)
    end
  else emit (ClosePage p).

(** [if (page) await page.close()]. *)
Definition close_current (again : option jsstring) : M locals unit :=
  l <- get;;
  match page l with
  | Some p => close_page again p
  | None => ret tt
  end.

(** [if (page) await page.close().catch(...)] of the [finally] block. *)
Definition close_current_quietly (again : option jsstring) : M locals unit :=
  try_catch (close_current again) (fun _ => ret tt).

Section WithBrowser.
Context (rt : runtime) (env : browser_env).

Inductive loop_exit := Break | Next.

(** One iteration of [for (const source of SOURCES)], lines 361-452. *)
Definition try_source (targetUrl : jsstring) (isMovie : bool) (s : source)
  : M locals loop_exit :=
  try_catch
    (match source_url targetUrl isMovie s with
     | None => ret Next
     | Some sourceUrl =>
         match visit env sourceUrl with
         | NewPageFails message => throw message
         | run =>
             tr <- history;;
             let p := fresh_page tr in
             emit (NewPage p);;
             set_page p;;
             match run with
             | NewPageFails message | SetupFails message => throw message
             | GotoFails message =>
                 emit (Goto p (Some sourceUrl));; throw message
             | Settled requests =>
                 emit (Goto p (Some sourceUrl));;
                 match select_captured (fst (on_requests requests)) with
                 | Some u => set_streamUrl u;; ret Break
                 | None => close_current (reclose env);; ret Next
                 end
             end
         end
     end)
    (fun _ => close_current (reclose env);; ret Next).

Fixpoint for_sources (targetUrl : jsstring) (isMovie : bool)
    (sources : list source) : M locals unit :=
  match sources with
  | [] => ret tt
  | s :: rest =>
      x <- try_source targetUrl isMovie s;;
      match x with
      | Break => ret tt
      | Next => for_sources targetUrl isMovie rest
      end
  end.

(** "Make sure the URL is absolute", lines 467-473. *)
Definition absolutize {L} (targetUrl u : jsstring) : M L jsstring :=
  if startsWith u (js "//") then ret (js "https:" ++ u)
  else if startsWith u (js "/") then
    origin <- attempt (URL_origin rt targetUrl) (js "Invalid URL");;
    ret (origin ++ u)
  else ret u.

Definition kind_of (isTV : bool) : json :=
  JStr (if isTV then js "tv" else js "movie").

Definition success_body (targetUrl u : jsstring) (isTV : bool) : json :=
  JObj [
    (js "success", JBool true);
    (js "streamUrl", JStr u);
    (js "type", JStr (if includes u (js ".m3u8") then js "hls" else js "direct"));
    (js "contentType", kind_of isTV);
    (js "source", JStr (js "multiple_sources"));
    (js "info", JObj [
       (js "originalUrl", JStr targetUrl);
       (js "cleanStreamUrl", JStr u);
       (js "isAdFree", JBool true);
       (js "contentType", kind_of isTV)])].

Definition exhausted_body : json :=
  JObj [
    (js "error", JStr (js "Could not extract stream URL"));
    (js "debug", JObj [
       (js "message", JStr (js "No matching URL pattern found from any source"));
       (js "triedSources", JArr (List.map (fun s => JStr (name s)) SOURCES));
       (js "suggestion", JStr (js "All sources failed or video might be protected"))])].

Definition error_body (what : string) : json :=
  JObj [(js "error", JStr (js what))].

(** The handler of part_000 lines 321-508; [url] is [req.query.url]. *)
Definition extract_stream (url : option jsstring) : M locals unit :=
  try_finally
    (try_catch
       (match truthy url with
        | None => send 400 (error_body "URL parameter is required")
        | Some targetUrl =>
            let isMovie := includes targetUrl (js "/movie/") in
            let isTV := includes targetUrl (js "/tv/") in
            if negb isMovie && negb isTV then
              send 400 (error_body "Invalid URL format. Must be movie or TV show URL.")
            else
              for_sources targetUrl isMovie SOURCES;;
              l <- get;;
              match streamUrl l with
              | None => send 404 exhausted_body
              | Some found =>
                  u <- absolutize targetUrl found;;
                  send 200 (success_body targetUrl u isTV)
              end
        end)
       (fun message =>
          send 500 (JObj [(js "error", JStr (js "Failed to extract stream URL"));
                          (js "details", JStr message)])))
    (close_current_quietly (reclose env)).

Definition handle_extract_stream (url : option jsstring)
  : outcome unit * list event :=
  run (extract_stream url) {| page := None; streamUrl := None |}.

End WithBrowser.

(** *** The single-page handler of src/server.js (lines 74-366) and its
        DOM/script fallback scanner (lines 270-298) *)

(** An entry of [videoSources], the array [page.evaluate] returns. *)
Record candidate := {
  kind : jsstring;               (* ['video'], ['iframe'], ['json'], ['script'] *)
  src : json
}.

Definition is_ad (s : jsstring) : bool :=
  includes s (js "ads") || includes s (js "doubleclick") ||
  includes s (js "analytics").

Section Scanner.
Context (rt : runtime).

(** [for (const source of videoSources) { ... }]: the stream URL the loop
    leaves in [streamUrl], or the [TypeError] of [new URL(url)]. *)
Fixpoint pick_source (url : jsstring) (cands : list candidate)
  : outcome (option jsstring) :=
  match cands with
  | [] => Ok None
  | c :: rest =>
      match src c with
      | JStr s =>
          if falsy s then pick_source url rest
          else if is_ad s then pick_source url rest
          else if startsWith s (js "//") then Ok (Some (js "https:" ++ s))
          else if startsWith s (js "/") then
            match URL_origin rt url with
            | Some origin => Ok (Some (origin ++ s))
            | None => Throw (js "Invalid URL")
            end
          else if startsWith s (js "http") then Ok (Some s)
          else pick_source url rest
      | _ => pick_source url rest
      end
  end.

(** What the page shows once navigation has settled. *)
Record rendered := {
  seen : list net_request;         (* intercepted requests *)
  content_error : option jsstring; (* [page.content()] rejects *)
  videoSources : outcome (list candidate);
                                   (* the [page.evaluate] scan, if it runs *)
  html_fallback : option jsstring  (* group 1 of the last-resort [html.match] *)
}.

Inductive single_run :=
| OpenFails (message : jsstring)
| PrepareFails (message : jsstring)
| NavigateFails (message : jsstring)
| Rendered (r : rendered).

Definition captured_json (c : captured) : json :=
  JObj [(js "m3u8", JArr (List.map JStr (m3u8 c)));
        (js "mp4", JArr (List.map JStr (mp4 c)));
        (js "iframe", JArr (List.map JStr (iframe c)));
        (js "other", JArr (List.map JStr (other c)))].

Definition single_success_body (url u : jsstring) (c : captured) : json :=
  let isTV := includes url (js "/tv/") in
  JObj [
    (js "success", JBool true);
    (js "streamUrl", JStr u);
    (js "type", JStr (if includes u (js ".m3u8") then js "hls" else js "direct"));
    (js "contentType", kind_of isTV);
    (js "info", JObj [
       (js "originalUrl", JStr url);
       (js "cleanStreamUrl", JStr u);
       (js "isAdFree", JBool true);
       (js "capturedFromNetwork",
          JBool (negb (Nat.eqb (length (m3u8 c)) 0)
                 || negb (Nat.eqb (length (mp4 c)) 0)));
       (js "contentType", kind_of isTV)])].

Definition not_found_body (c : captured) : json :=
  JObj [
    (js "error", JStr (js "Could not extract stream URL"));
    (js "debug", JObj [
       (js "message", JStr (js "No matching URL pattern found in page content"));
       (js "capturedUrls", captured_json c);
       (js "suggestion", JStr (js "The video might be protected by additional security measures or the page structure has changed"))])].

Definition extract_stream_single (world : jsstring -> single_run)
    (query : option jsstring) : M locals unit :=
  try_finally
    (try_catch
       (match truthy query with
        | None => send 400 (error_body "URL parameter is required")
        | Some url =>
            match world url with
            | OpenFails message => throw message
            | run =>
                tr <- history;;
                let p := fresh_page tr in
                emit (NewPage p);;
                set_page p;;
                match run with
                | OpenFails message | PrepareFails message => throw message
                | NavigateFails message => emit (Goto p (Some url));; throw message
                | Rendered r =>
                    emit (Goto p (Some url));;
                    unless (content_error r);;
                    let c := fst (on_requests (seen r)) in
                    found <-
                      match truthy (select_captured c) with
                      | Some u => ret (Some u)
                      | None =>
                          cands <- lift (videoSources r);;
                          lift (pick_source url cands)
                      end;;
                    match truthy (match truthy found with
                                  | Some u => Some u
                                  | None => html_fallback r
                                  end) with
                    | None => send 404 (not_found_body c)
                    | Some u0 =>
                        u <- absolutize rt url u0;;
                        send 200 (single_success_body url u c)
                    end
                end
            end
        end)
       (fun message =>
          send 500 (JObj [(js "error", JStr (js "Failed to extract stream URL"));
                          (js "details", JStr message)])))
    (close_current_quietly None).

Definition handle_extract_stream_single (world : jsstring -> single_run)
    (query : option jsstring) : outcome unit * list event :=
  run (extract_stream_single world query) {| page := None; streamUrl := None |}.

End Scanner.

(** The reading of the specification for the fallback scanner: among the
    candidates that are not ad-related, an absolute one is preferred to a
    protocol-relative one, and that to a root-relative one. *)
Definition usable (c : candidate) : option jsstring :=
  match src c with
  | JStr s => if falsy s || is_ad s then None else Some s
  | _ => None
  end.

Definition by_priority (rt : runtime) (url : jsstring) (cands : list candidate)
  : outcome (option jsstring) :=
  let ss := omap usable cands in
  match List.find (fun s => startsWith s (js "http")) ss with
  | Some s => Ok (Some s)
  | None =>
      match List.find (fun s => startsWith s (js "//")) ss with
      | Some s => Ok (Some (js "https:" ++ s))
      | None =>
          match List.find (fun s => startsWith s (js "/")) ss with
          | Some s =>
              match URL_origin rt url with
              | Some origin => Ok (Some (origin ++ s))
              | None => Throw (js "Invalid URL")
              end
          | None => Ok None
          end
      end
  end.

(** What the loop does: the first candidate, in scan order, that is not
    ad-related and has one of the three shapes. *)
Definition shaped (s : jsstring) : bool :=
  startsWith s (js "//") || startsWith s (js "/") || startsWith s (js "http").

Definition eligible (c : candidate) : bool :=
  match usable c with
  | Some s => shaped s
  | None => false
  end.

Definition normalize (rt : runtime) (url : jsstring) (c : candidate)
  : outcome (option jsstring) :=
  match src c with
  | JStr s =>
      if startsWith s (js "//") then Ok (Some (js "https:" ++ s))
      else if startsWith s (js "/") then
        match URL_origin rt url with
        | Some origin => Ok (Some (origin ++ s))
        | None => Throw (js "Invalid URL")
        end
      else Ok (Some s)
  | _ => Ok None
  end.

Definition video (s : string) : candidate :=
  {| kind := js "video"; src := JStr (js s) |}.

(** A property of a JSON object, [undefined] when absent. *)
Definition field (k : jsstring) (j : json) : option json :=
  match j with
  | JObj fields => snd <$> List.find (fun kv => bool_decide (fst kv = k)) fields
  | _ => None
  end.

(** The JSON body of the only response of a trace. *)
Definition sole_json (tr : list event) : option (N * json) :=
  match responses tr with
  | [ {| status := code; res_body := Json j |} ] => Some (code, j)
  | _ => None
  end.

End Extract.

(** ** [/api/stream] *)

Module Stream.
Import JsString Uri Runtime Effects.
Local Open Scope js_scope.

(** *** Headers smuggled in the [url] parameter *)

(** Group 1 of [url.match] for the pattern [headers=] followed by a
    captured run of characters other than ['&']: the leftmost match. *)
Fixpoint headers_match (url : jsstring) : option jsstring :=
  match strip_prefix (js "headers=") url with
  | Some r => Some (before_unit 38 r)
  | None =>
      match url with
      | [] => None
      | _ :: url' => headers_match url'
      end
  end.

(** The own enumerable properties [Object.assign] copies from a value. *)
Definition own_properties (j : json) : list (jsstring * json) :=
  match j with
  | JObj fields => fields
  | JArr items => imap (fun i v => (decimal (N.of_nat i), v)) items
  | JStr s => imap (fun i c => (decimal (N.of_nat i), JStr [c])) s
  | _ => []
  end.

(** Whether an assignment to [__proto__] reaches the accessor of
    [Object.prototype]: the object has no own property of that name, and
    no object of its prototype chain has one before [Object.prototype]. *)
Definition inherits_accessor (t : object) : bool :=
  match own t !! js "__proto__" with
  | Some _ => false
  | None =>
      match proto t with
      | Object_prototype => true
      | Null_prototype => false
      | Parsed (JObj inner) =>
          negb (existsb (fun kv => bool_decide (fst kv = js "__proto__")) inner)
      | Parsed _ => true
      end
  end.

(** [target[k] = v]. A name other than [__proto__] becomes an own
    property. For [__proto__] the setter of [Object.prototype] makes an
    object, an array or [null] the prototype of the target and ignores
    any other value; where the setter is not reached the assignment adds
    an own property as for any other name. *)
Definition set_property (t : object) (k : jsstring) (v : json) : object :=
  if bool_decide (k = js "__proto__") && inherits_accessor t then
    match v with
    | JNull => {| own := own t; proto := Null_prototype |}
    | JObj _ | JArr _ => {| own := own t; proto := Parsed v |}
    | _ => t
    end
  else {| own := <[k := v]> (own t); proto := proto t |}.

(** [Object.assign(target, source)]: each own property of the source is
    assigned to the target. *)
Definition assign (target : object) (source : json) : object :=
  fold_left (fun t kv => set_property t (fst kv) (snd kv))
    (own_properties source) target.

(** The last field named [k], or [before] when there is none: the own
    property [Object.assign] leaves under a name other than [__proto__],
    and the property of that name of a parsed object. *)
Definition assigned (k : jsstring) (fields : list (jsstring * json))
    (before : option json) : option json :=
  fold_left (fun acc kv => if bool_decide (fst kv = k) then Some (snd kv) else acc)
    fields before.

(** [o[k]] for a name that neither the built-in prototypes nor arrays
    define, such as [referer] and [origin]: the own property, or else the
    own property of the prototype. *)
Definition get_property (o : object) (k : jsstring) : option json :=
  match own o !! k with
  | Some v => Some v
  | None =>
      match proto o with
      | Parsed (JObj inner) => assigned k inner None
      | _ => None
      end
  end.

(** [decodeURIComponent] then [JSON.parse] of the matched text; [None]
    when there is no non-empty match or either call throws. *)
Definition smuggled (rt : runtime) (url : jsstring) : option json :=
  m ← truthy (headers_match url);
  decoded ← decodeURIComponent m;
  JSON_parse rt decoded.

Definition chrome91 : jsstring :=
  js "Mozilla/5.0 (Windows NT 10.0; Win64; x64) AppleWebKit/537.36 (KHTML, like Gecko) Chrome/91.0.4472.124 Safari/537.36".

(** *** The handler of src/unnamed/part_000, lines 1173-1276 *)

Definition default_headers : object :=
  literal [
    (js "User-Agent", JStr chrome91);
    (js "Accept", JStr (js "*/*"));
    (js "Accept-Encoding", JStr (js "identity;q=1, *;q=0"));
    (js "Connection", JStr (js "keep-alive"))].

(** Lines 1194-1205: the header object passed to the request. *)
Definition outbound_headers (rt : runtime) (url : jsstring) : object :=
  match URL_href rt url None with      (* [new URL(url)] inside the [try] *)
  | None => default_headers
  | Some _ =>
      match smuggled rt url with
      | Some custom => assign default_headers custom
      | None => default_headers
      end
  end.

(** A JavaScript number as far as the range arithmetic needs it: [NaN] or
    an integer (exact below 2^53). *)
Inductive jsnum := NaN | Int (z : Z).

Definition num_sub (a b : jsnum) : jsnum :=
  match a, b with Int x, Int y => Int (x - y) | _, _ => NaN end.

Definition num_add (a b : jsnum) : jsnum :=
  match a, b with Int x, Int y => Int (x + y) | _, _ => NaN end.

(** A number in a template literal. *)
Definition num_text (n : jsnum) : jsstring :=
  match n with
  | NaN => js "NaN"
  | Int z => if (z <? 0)%Z then 45 :: decimal (Z.to_N (- z)) else decimal (Z.to_N z)
  end.

Fixpoint digits_value (acc : Z) (s : jsstring) : Z :=
  match s with
  | [] => acc
  | c :: s' =>
      if (48 <=? c) && (c <=? 57)
      then digits_value (10 * acc + Z.of_N (c - 48)) s' else acc
  end.

Definition starts_with_digit (s : jsstring) : bool :=
  match s with
  | c :: _ => (48 <=? c) && (c <=? 57)
  | [] => false
  end.

(** [parseInt(s, 10)] as an exact integer. This is the platform's number
    for a numeral below 2^53, which is where the statements use it; a
    longer numeral is rounded to a double there. *)
Definition parseInt10 (s : jsstring) : jsnum :=
  let t := trimStart s in
  let '(neg, d) :=
    match t with
    | 45 :: r => (true, r)
    | 43 :: r => (false, r)
    | _ => (false, t)
    end in
  if starts_with_digit d
  then Int (if neg then - digits_value 0 d else digits_value 0 d)
  else NaN.

(** [s.replace(/bytes=/, '')]: the leftmost occurrence is removed. *)
Fixpoint drop_bytes_eq (s : jsstring) : jsstring :=
  match strip_prefix (js "bytes=") s with
  | Some r => r
  | None =>
      match s with
      | [] => []
      | c :: s' => c :: drop_bytes_eq s'
      end
  end.

Record stream_request := {
  query_url : option jsstring;     (* [req.query.url] *)
  header_range : option jsstring   (* [req.headers.range] *)
}.

Definition base_response_headers (upstream_hs : headers) : headers :=
  let hs : headers :=
    list_to_map [
      (js "Content-Type",
         or_else (upstream_hs !! js "content-type") (js "application/octet-stream"));
      (js "Accept-Ranges", js "bytes");
      (js "Cache-Control", js "no-cache");
      (js "Access-Control-Allow-Origin", js "*");
      (js "Access-Control-Allow-Headers",
         js "Origin, X-Requested-With, Content-Type, Accept, Range");
      (js "Access-Control-Expose-Headers", js "Content-Length, Content-Range")] in
  match truthy (upstream_hs !! js "content-length") with
  | Some n => <[js "Content-Length" := n]> hs
  | None => hs
  end.

(** "Handle partial content (seeking)": part_000 lines 1243-1259, the same
    text as src/server.js lines 556-572. [response.data] is the upstream
    stream, whose [length] is [undefined]. *)
Definition range_response (range : option jsstring) (upstream_hs : headers)
    (stream : nat) : response :=
  let responseHeaders := base_response_headers upstream_hs in
  match truthy range with
  | Some range =>
      let parts := split (drop_bytes_eq range) (js "-") in
      let start := parseInt10 (default [] (parts !! 0%nat)) in
      let end_ :=
        match truthy (parts !! 1%nat) with
        | Some e => parseInt10 e
        | None => NaN                 (* [undefined - 1] *)
        end in
      let chunksize := num_add (num_sub end_ start) (Int 1) in
      {| status := 206;
         res_headers :=
           <[js "Content-Length" := num_text chunksize]>
             (<[js "Content-Range" :=
                  js "bytes " ++ num_text start ++ js "-" ++ num_text end_
                    ++ js "/undefined"]> responseHeaders);
         res_body := Piped stream |}
  | None =>
      {| status := 200; res_headers := responseHeaders;
         res_body := Piped stream |}
  end.

(** [axios] with [validateStatus: null]: only a network failure rejects. *)
Definition fetch {L : Type} (up : upstream_json) (url : jsstring)
    (hs : object) : M L (N * headers * nat)%type :=
  match up url hs with
  | NetworkError message => throw message
  | Reply code rhs _ _ =>
      tr <- history;;
      let s := fresh_stream tr in
      emit (Fetch s url hs);;
      ret (code, rhs, s)
  end.

Definition failure_body (message : jsstring) (url : option jsstring) : json :=
  JObj ([(js "error", JStr (js "Failed to fetch the video stream"));
         (js "details", JStr message)]
        ++ match url with
           | Some u => [(js "url", JStr u)]
           | None => []
           end).

Definition api_stream (rt : runtime) (up : upstream_json)
    (req : stream_request) : M unit unit :=
  match truthy (query_url req) with
  | None => send 400 (JObj [(js "error", JStr (js "URL parameter is required"))])
  | Some url =>
      try_catch
        (r <- fetch up url (outbound_headers rt url);;
         let '(_, rhs, s) := r in
         emit (Send (range_response (header_range req) rhs s)))
        (fun message => send 500 (failure_body message (Some url)))
  end.

Definition handle_api_stream (rt : runtime) (up : upstream_json)
    (req : stream_request) : outcome unit * list event :=
  run (api_stream rt up req) tt.

(** *** The handler of src/server.js, lines 368-593 *)

(** The per-request browser as the handler meets it. *)
Record puppet := {
  launch_error : option jsstring;          (* [puppeteer.launch] rejects *)
  newPage_error : option jsstring;
  setup_error : option jsstring;           (* user agent or viewport *)
  goto_error : option jsstring -> option jsstring;
                                           (* navigation error or timeout *)
  video_found : outcome (option jsstring); (* the [Promise.race] *)
  cookie_header : outcome jsstring         (* [page.cookies()] joined *)
}.

Record stream_locals := {
  page : option nat;               (* [let page;] *)
  browser : option nat;            (* [let browser;] *)
  url : option jsstring            (* [let url = req.query.url;] *)
}.

Definition assign_browser (b : nat) : M stream_locals unit :=
  modify (fun l => {| page := page l; browser := Some b; url := url l |}).

Definition assign_page (p : nat) : M stream_locals unit :=
  modify (fun l => {| page := Some p; browser := browser l; url := url l |}).

Definition assign_url (u : jsstring) : M stream_locals unit :=
  modify (fun l => {| page := page l; browser := browser l; url := Some u |}).

(** Headers of the first request, lines 445-453. *)
Definition cookie_request_headers (cookieHeader : jsstring) : object :=
  literal [
    (js "User-Agent", JStr (js "Mozilla/5.0 (Windows NT 10.0; Win64; x64) AppleWebKit/537.36"));
    (js "Referer", JStr (js "https://vidlink.pro/"));
    (js "Origin", JStr (js "https://vidlink.pro"));
    (js "Cookie", JStr cookieHeader);
    (js "Accept", JStr (js "*/*"));
    (js "Accept-Encoding", JStr (js "identity;q=1, *;q=0"));
    (js "Connection", JStr (js "keep-alive"))].

(** The [headers] object of lines 471-475. *)
Definition server_default_headers : object :=
  literal [
    (js "User-Agent", JStr chrome91);
    (js "Referer", JStr (js "https://vidlink.pro/"));
    (js "Origin", JStr (js "https://vidlink.pro"))].

(** Lines 487-492: [url] without its [headers] parameter. *)
Definition without_headers_param (rt : runtime) (url : jsstring) : jsstring :=
  let parts := split url (js "?") in
  let urlWithoutHeaders := default [] (parts !! 0%nat) in
  let rest := URLSearchParams_without rt (or_else (parts !! 1%nat) []) (js "headers") in
  if falsy rest then urlWithoutHeaders else urlWithoutHeaders ++ js "?" ++ rest.

(** Lines 477-497: the merged [headers] object and the rewritten [url]. *)
Definition server_merge (rt : runtime) (url : jsstring)
  : object * jsstring :=
  match smuggled rt url with
  | Some custom =>
      (assign server_default_headers custom, without_headers_param rt url)
  | None => (server_default_headers, url)
  end.

(** [merged[key] || fallback], a read through the prototype of the
    merged object. *)
Definition property_or (merged : object) (key : string)
    (fallback : string) : json :=
  match get_property merged (js key) with
  | Some v => if json_truthy v then v else JStr (js fallback)
  | None => JStr (js fallback)
  end.

(** The header literal of the second request, lines 520-527. *)
Definition server_outbound_headers (merged : object) : object :=
  literal [
    (js "User-Agent", JStr chrome91);
    (js "Referer", property_or merged "referer" "https://vidlink.pro/");
    (js "Origin", property_or merged "origin" "https://vidlink.pro");
    (js "Accept", JStr (js "*/*"));
    (js "Accept-Encoding", JStr (js "identity;q=1, *;q=0"));
    (js "Connection", JStr (js "keep-alive"))].

(** The handler. [const response] is declared at line 441 inside the
    [try] block: the assignment of line 516 throws [TypeError] once the
    second request has resolved, and the [finally] block, outside the scope
    of that declaration, throws [ReferenceError] when it reads
    [response]. *)
Definition api_stream_server (rt : runtime) (pp : puppet)
    (up : upstream_json) : M stream_locals unit :=
  try_finally
    (try_catch
       (unless (launch_error pp);;
        tr <- history;;
        let b := fresh_browser tr in
        emit (Launch b);;
        assign_browser b;;
        unless (newPage_error pp);;
        tr <- history;;
        let p := fresh_page tr in
        emit (NewPage p);;
        assign_page p;;
        unless (setup_error pp);;
        l <- get;;
        emit (Goto p (url l));;
        unless (goto_error pp (url l));;
        v <- lift (video_found pp);;
        match truthy v with
        | None => throw (js "Could not find video URL")
        | Some videoUrl =>
            cookieHeader <- lift (cookie_header pp);;
            emit (CloseBrowser b);;
            fetch up videoUrl (cookie_request_headers cookieHeader);;
            match truthy (url l) with
            | None =>
                send 400 (JObj [(js "error", JStr (js "URL parameter is required"))])
            | Some u =>
                attempt (URL_href rt u None) (js "Invalid URL");;
                let '(merged, u') := server_merge rt u in
                assign_url u';;
                fetch up u' (server_outbound_headers merged);;
                throw (js "Assignment to constant variable.")
            end
        end)
       (fun message =>
          l <- get;;
          send 500 (failure_body message (url l))))
    (throw (js "response is not defined")).

Definition handle_api_stream_server (rt : runtime) (pp : puppet)
    (up : upstream_json) (req : stream_request) : outcome unit * list event :=
  run (api_stream_server rt pp up)
      {| page := None; browser := None; url := query_url req |}.

End Stream.

(** ** [/api/extract] of the deployment in src/README.md *)

Module Readme.
Import JsString Uri Runtime Effects.
Local Open Scope js_scope.

Record net_response := {
  res_url : jsstring;              (* [response.url()] *)
  content_type : option jsstring   (* [response.headers()['content-type']] *)
}.

(** The test of the ['response'] listener. *)
Definition is_stream (r : net_response) : bool :=
  let ct := or_else (content_type r) [] in
  includes (res_url r) (js ".m3u8") || endsWith (res_url r) (js ".mp4") ||
  includes ct (js "application/vnd.apple.mpegurl") || includes ct (js "video/mp4").

(** [found] after the listener has seen the responses: the first match. *)
Definition first_stream (rs : list net_response) : option jsstring :=
  res_url <$> List.find is_stream rs.

(** The filter inside [page.evaluate]. *)
Definition stream_sources (srcs : list jsstring) : list jsstring :=
  List.filter (fun u => includes u (js ".m3u8") || endsWith u (js ".mp4")) srcs.

(** The per-request browser as the handler meets it. *)
Record session := {
  launch_error : option jsstring;
  newPage_error : option jsstring;
  intercept_error : option jsstring;
  goto_error : option jsstring;
  wait_error : option jsstring;           (* [page.waitForTimeout] *)
  responses_seen : list net_response;
  element_sources : outcome (list jsstring)
    (* the truthy [src] of the elements with a [src], if the scan runs *)
}.

(** [let browser;] *)
Definition keep_browser (b : nat) : M (option nat) unit := modify (fun _ => Some b).

Definition close_browser : M (option nat) unit :=
  l <- get;;
  match l with
  | Some b => emit (CloseBrowser b)
  | None => ret tt
  end.

Definition extract (w : session) (query : option jsstring) : M (option nat) unit :=
  match truthy query with
  | None => send 400 (JObj [(js "error", JStr (js "Missing url query param"))])
  | Some pageUrl =>
      try_catch
        (unless (launch_error w);;
         tr <- history;;
         let b := fresh_browser tr in
         emit (Launch b);;
         keep_browser b;;
         unless (newPage_error w);;
         tr <- history;;
         let p := fresh_page tr in
         emit (NewPage p);;
         unless (intercept_error w);;
         emit (Goto p (Some pageUrl));;
         unless (goto_error w);;
         unless (wait_error w);;
         found <-
           match truthy (first_stream (responses_seen w)) with
           | Some u => ret (Some u)
           | None =>
               srcs <- lift (element_sources w);;
               ret (head (stream_sources srcs))
           end;;
         emit (CloseBrowser b);;
         match truthy found with
         | None => send 404 (JObj [(js "error", JStr (js "No stream URL found"))])
         | Some u => send 200 (JObj [(js "stream", JStr u)])
         end)
        (fun message =>
           close_browser;;
           send 500 (JObj [(js "error", JStr (js "Extraction failed"));
                           (js "details", JStr message)]))
  end.

Definition handle_extract (w : session) (query : option jsstring)
  : outcome unit * list event :=
  run (extract w query) None.

End Readme.

(** ** The request listener, read by URL (part_000 lines 393-399,
       server.js lines 109-115) *)

Module Listener.
Import JsString Extract.

(** A request URL that the listener files under [m3u8]. *)
Definition is_hls (u : jsstring) : bool := includes u (js ".m3u8").

(** A request URL that the listener files under [mp4]: the [else if]. *)
Definition is_direct (u : jsstring) : bool :=
  negb (includes u (js ".m3u8")) &&
  (includes u (js ".mp4") || includes u (js ".webm") || includes u (js ".mkv")).

End Listener.

(** ** A player that follows a rewritten playlist line *)

Module Player.
Import JsString Uri Runtime VideoProxy.

(** The request a player makes when it follows a rewritten line: the
    query parameters of the line, read as the receiving handler reads
    them from [req.query]. *)
Definition follow (out : jsstring) (range : option jsstring) : proxy_request :=
  {| query_url := query_param (js "url") out;
     query_referer := query_param (js "referer") out;
     header_range := range |}.

End Player.

(** ** Steps of a handler that do not answer *)

Module Answers.
Import JsString Runtime Effects.

(** [silent m]: whatever the state it starts from, [m] only adds events
    to the trace, and none of them is a response. *)
Definition silent {L A} (m : M L A) : Prop :=
  forall l tr, exists evs, snd (m l tr) = tr ++ evs /\ responses evs = [].

(** A request that the multi-source handler does not attempt: [url] is
    missing or empty, or holds neither [/movie/] nor [/tv/] (part_000
    lines 326-339). *)
Definition rejected (query : option jsstring) : Prop :=
  match truthy query with
  | None => True
  | Some t => includes t (js "/movie/") = false /\ includes t (js "/tv/") = false
  end.

(** [res.status(code).json(j)]. *)
Definition reply (code : N) (j : json) : response :=
  {| status := code; res_headers := ∅; res_body := Json j |}.

End Answers.

(** ** Numbers in a [Range] header and in a target *)

Module Range.
Import JsString Extract.

(** A non-empty run of decimal digits: what [\d+] matches. *)
Definition numeral (s : jsstring) : Prop :=
  s <> [] /\ Forall (fun c => is_digit c = true) s.

(** A number below 2^53, which a JavaScript number holds exactly. *)
Definition safe_integer (n : N) : Prop := n < 2 ^ 53.

End Range.

(** ** The simple [/api/video-proxy] (src/unnamed/part_000, lines
       1861-1928) *)

Module SimpleProxy.
Import JsString Uri Runtime VideoProxy.

(** The header literal of lines 1887-1891. *)
Definition upstream_headers : headers :=
  list_to_map [
    (js "User-Agent", js "Mozilla/5.0 (Windows NT 10.0; Win64; x64) AppleWebKit/537.36");
    (js "Referer", js "https://vidlink.pro/");
    (js "Accept", js "*/*")].

(** Lines 1873-1875. *)
Definition cors_headers : headers :=
  list_to_map [
    (js "Access-Control-Allow-Origin", js "*");
    (js "Access-Control-Allow-Methods", js "GET, OPTIONS");
    (js "Access-Control-Allow-Headers",
       js "Range, Accept, Accept-Encoding, Referer, User-Agent")].

(** Lines 1900-1908: "Forward important headers". *)
Definition forwarded (rhs : headers) : headers :=
  copy_header (js "accept-ranges") (js "Accept-Ranges") rhs
    (copy_header (js "content-length") (js "Content-Length") rhs
      (copy_header (js "content-type") (js "Content-Type") rhs cors_headers)).

(** The [Content-Range] of line 1913. [range.replace('bytes=', '')]
    removes the leftmost occurrence. *)
Definition content_range (range : jsstring) (rhs : headers) : jsstring :=
  or_else (rhs !! js "content-range")
    (js "bytes " ++ Stream.drop_bytes_eq range ++ js "/*").

(** The handler. The route is registered with [app.get], which serves GET
    and HEAD only, so the test [req.method === 'OPTIONS'] of line 1878 is
    false. [axios] is called with [validateStatus: null]: only a network
    failure rejects, and such an error has no [response]. *)
Definition simple_video_proxy (up : upstream) (req : proxy_request) : response :=
  match truthy (query_url req) with
  | None =>
      {| status := 400; res_headers := ∅;
         res_body := Json (JObj [(js "error", JStr (js "URL parameter is required"))]) |}
  | Some url =>
      match up url upstream_headers with
      | NetworkError message =>
          {| status := 500; res_headers := cors_headers;
             res_body := Json (JObj [(js "error", JStr (js "Failed to proxy video"));
                                     (js "details", JStr message)]) |}
      | Reply code rhs _ stream =>
          match truthy (header_range req) with
          | Some range =>
              if code =? 200 then
                {| status := 206;
                   res_headers :=
                     <[js "Content-Range" := content_range range rhs]> (forwarded rhs);
                   res_body := Piped stream |}
              else
                {| status := code; res_headers := forwarded rhs;
                   res_body := Piped stream |}
          | None =>
              {| status := code; res_headers := forwarded rhs;
                 res_body := Piped stream |}
          end
      end
  end.

End SimpleProxy.

(** ** [/api/video-proxy] of the deployment in src/README.md (lines
       83-115) *)

Module ReadmeProxy.
Import JsString Uri Runtime.

Record readme_request := {
  target : option jsstring;          (* [req.query.url] *)
  referer_param : option jsstring;   (* [req.query.referer] *)
  user_agent : option jsstring;      (* [req.get('User-Agent')] *)
  range : option jsstring            (* [req.headers.range] *)
}.

(** [const referer = req.query.referer || '']. *)
Definition referer (req : readme_request) : jsstring :=
  or_else (referer_param req) [].

(** Lines 87-92. *)
Definition request_headers (req : readme_request) : headers :=
  let base : headers :=
    list_to_map [
      (js "User-Agent", or_else (user_agent req) (js "Mozilla/5.0"));
      (js "Referer", referer req);
      (js "Accept", js "*/*")] in
  match truthy (range req) with
  | Some r => <[js "Range" := r]> base
  | None => base
  end.

Definition netlify : jsstring := js "https://faheemzmovies.netlify.app".

Section WithRuntime.
Context (rt : runtime).

(** The test of line 95. *)
Definition is_playlist (target : jsstring) : bool :=
  includes (toLowerCase rt target) (js ".m3u8").

(** The callback of [playlist.split('\n').map(...)], lines 98-103; [None]
    is the exception of [new URL] or of [encodeURIComponent], which the
    callback does not catch. *)
Definition rewrite_line (target referer : jsstring) (line0 : jsstring)
  : option jsstring :=
  let line := trim line0 in
  if falsy line || startsWith line (js "#") then Some line
  else
    abs ← URL_href rt line (Some target);
    u ← encodeURIComponent abs;
    r ← encodeURIComponent (or_else (Some referer) target);
    Some (js "/api/video-proxy?url=" ++ u ++ js "&referer=" ++ r).

(** The rewritten playlist, when no line throws. *)
Definition rewrite_playlist (target referer : jsstring) (playlist : jsstring)
  : option jsstring :=
  join [LF] <$> mapM (rewrite_line target referer) (split_unit LF playlist).

(** [axios] with its default [validateStatus]: a status outside 200-299
    rejects, as a network failure does. *)
Definition axios_2xx (up : upstream) (url : jsstring) (hs : headers)
  : option (jsstring * nat) :=
  match up url hs with
  | NetworkError _ => None
  | Reply code _ text stream =>
      if (200 <=? code) && (code <? 300) then Some (text, stream) else None
  end.

Definition proxy_error : response :=
  {| status := 502; res_headers := ∅; res_body := Text (js "Proxy error") |}.

Definition video_proxy (up : upstream) (req : readme_request) : response :=
  match truthy (target req) with
  | None =>
      {| status := 400; res_headers := ∅; res_body := Text (js "Missing url") |}
  | Some target =>
      if is_playlist target then
        match axios_2xx up target (request_headers req) with
        | None => proxy_error
        | Some (playlist, _) =>
            match rewrite_playlist target (referer req) playlist with
            | None => proxy_error
            | Some lines =>
                {| status := 200;
                   res_headers :=
                     <[js "Access-Control-Allow-Origin" := netlify]>
                       {[js "Content-Type" := js "application/vnd.apple.mpegurl"]};
                   res_body := Text lines |}
            end
        end
      else
        match axios_2xx up target (request_headers req) with
        | None => proxy_error
        | Some (_, stream) =>
            {| status := 200;
               res_headers := {[js "Access-Control-Allow-Origin" := netlify]};
               res_body := Piped stream |}
        end
  end.

End WithRuntime.

(** The request a player makes when it follows a rewritten line. *)
Definition follow (out : jsstring) (ua range : option jsstring) : readme_request :=
  {| target := query_param (js "url") out;
     referer_param := query_param (js "referer") out;
     user_agent := ua;
     range := range |}.

End ReadmeProxy.

(** ** The TMDB endpoints (src/unnamed/part_000, lines 8-10 and 92-318;
       the same text at lines 600-602, 650-876 and 1289-1291, 1339-1565) *)

Module Tmdb.
Import JsString Runtime.

Definition TMDB_BASE_URL : jsstring := js "https://api.themoviedb.org/3".

(** How a GET to TMDB ends. [axios.get] resolves with the parsed body on
    a 2xx status and rejects otherwise; a rejection carries
    [error.message] and, when TMDB answered, [error.response.data]. *)
Inductive tmdb_reply :=
| Resolved (data : json)
| Rejected (message : jsstring) (response_data : option json).

(** The environment of the handlers. *)
Record tmdb_env := {
  (** [process.env.TMDB_API_KEY]; [None] when it is not set. *)
  TMDB_API_KEY : option jsstring;
  (** [u = new URL(input); u.searchParams.append(k, v)] for each pair in
      order; [u.toString()]. [None] is the [TypeError] of [new URL]. *)
  URL_with_params : jsstring -> list (jsstring * jsstring) -> option jsstring;
  axios_get : jsstring -> tmdb_reply;
  (** The message of the [TypeError] thrown by reading the named property
      of [null]. *)
  null_property_error : jsstring -> jsstring
}.

(** An error as the [catch] blocks read it. *)
Record failure := {
  error_message : jsstring;          (* [error.message] *)
  error_data : option json           (* [error.response?.data] *)
}.

(** A response: [res.status(code).json(value)]; [None] is
    [res.json(undefined)], which sends an empty body. *)
Record answer := {
  code : N;
  payload : option json
}.

(** What a handler did: the URLs it requested from TMDB, in order, and
    its response. *)
Abbreviation run := (list jsstring * answer)%type.

(** A property of a parsed JSON value, [undefined] when absent; the
    fields of a [JObj] are the own properties of the object, each once. *)
Definition property (name : jsstring) (j : json) : option json :=
  Extract.field name j.

Section WithEnv.
Context (env : tmdb_env).

(** [tmdbRequest(endpoint, params)], lines 93-113; [params] are the
    entries of the object in the order of [Object.keys]. *)
Definition tmdbRequest (endpoint : jsstring) (params : list (jsstring * jsstring))
  : list jsstring * (failure + json) :=
  match truthy (TMDB_API_KEY env) with
  | None =>
      ([], inl {| error_message := js "TMDB API key not configured";
                  error_data := None |})
  | Some key =>
      match URL_with_params env (TMDB_BASE_URL ++ endpoint)
              ((js "api_key", key) :: (js "language", js "en-US") :: params) with
      | None => ([], inl {| error_message := js "Invalid URL"; error_data := None |})
      | Some url =>
          ([url],
           match axios_get env url with
           | Resolved data => inr data
           | Rejected message data =>
               inl {| error_message := message; error_data := data |}
           end)
      end
  end.

(** [error.response?.data?.status_message || error.message]. *)
Definition details (f : failure) : json :=
  match error_data f ≫= property (js "status_message") with
  | Some v => if json_truthy v then v else JStr (error_message f)
  | None => JStr (error_message f)
  end.

(** The response of a [catch] block. *)
Definition failed (what : string) (f : failure) : answer :=
  {| code := 500;
     payload := Some (JObj [(js "error", JStr (js what)); (js "details", details f)]) |}.

(** The response of the guard at the head of every handler. *)
Definition not_configured : answer :=
  {| code := 500;
     payload := Some (JObj [
       (js "error", JStr (js "TMDB API key not configured"));
       (js "message", JStr (js "Please set TMDB_API_KEY environment variable"))]) |}.

Definition bad_request (what : string) : answer :=
  {| code := 400; payload := Some (JObj [(js "error", JStr (js what))]) |}.

(** [data.results]: reading a property of [null] throws. *)
Definition results (data : json) : failure + option json :=
  match data with
  | JNull => inl {| error_message := null_property_error env (js "results");
                    error_data := None |}
  | _ => inr (property (js "results") data)
  end.

(** [const data = await tmdbRequest(...); res.json(data);] inside the
    [try] of a handler. *)
Definition relay_data (what : string) (r : list jsstring * (failure + json)) : run :=
  (fst r,
   match snd r with
   | inl f => failed what f
   | inr data => {| code := 200; payload := Some data |}
   end).

(** [const data = await tmdbRequest(...); res.json(data.results);]. *)
Definition relay_results (what : string) (r : list jsstring * (failure + json))
  : run :=
  (fst r,
   match snd r with
   | inl f => failed what f
   | inr data =>
       match results data with
       | inl f => failed what f
       | inr v => {| code := 200; payload := v |}
       end
   end).

(** The guard [if (!TMDB_API_KEY)] at the head of every handler. *)
Definition configured (handler : run) : run :=
  match truthy (TMDB_API_KEY env) with
  | None => ([], not_configured)
  | Some _ => handler
  end.

(** [const { query, page = 1 } = req.query]: the default applies to an
    absent parameter only. *)
Definition page_or_1 (page : option jsstring) : jsstring := default (js "1") page.

(** [GET /api/movies/search], lines 118-142. *)
Definition search_movies (query page : option jsstring) : run :=
  configured
    match truthy query with
    | None => ([], bad_request "Query parameter is required")
    | Some q =>
        relay_results "Failed to search movies"
          (tmdbRequest (js "/search/movie")
             [(js "query", q); (js "page", page_or_1 page)])
    end.

(** [GET /api/movies/:id], lines 145-165. *)
Definition movie_details (id : jsstring) : run :=
  configured
    (relay_data "Failed to fetch movie details"
       (tmdbRequest (js "/movie/" ++ id) [])).

(** [GET /api/movies/:id/recommendations], lines 168-188. *)
Definition movie_recommendations (id : jsstring) : run :=
  configured
    (relay_results "Failed to fetch movie recommendations"
       (tmdbRequest (js "/movie/" ++ id ++ js "/recommendations") [])).

(** [GET /api/tv/search], lines 191-215. *)
Definition search_tv (query page : option jsstring) : run :=
  configured
    match truthy query with
    | None => ([], bad_request "Query parameter is required")
    | Some q =>
        relay_results "Failed to search TV shows"
          (tmdbRequest (js "/search/tv")
             [(js "query", q); (js "page", page_or_1 page)])
    end.

(** [GET /api/tv/:id], lines 218-238. *)
Definition tv_details (id : jsstring) : run :=
  configured
    (relay_data "Failed to fetch TV show details"
       (tmdbRequest (js "/tv/" ++ id) [])).

(** [GET /api/tv/:id/recommendations], lines 241-261. *)
Definition tv_recommendations (id : jsstring) : run :=
  configured
    (relay_results "Failed to fetch TV show recommendations"
       (tmdbRequest (js "/tv/" ++ id ++ js "/recommendations") [])).

(** [GET /api/tv/:id/season/:season], lines 264-284. *)
Definition season_details (id season : jsstring) : run :=
  configured
    (relay_data "Failed to fetch season details"
       (tmdbRequest (js "/tv/" ++ id ++ js "/season/" ++ season) [])).

(** [GET /api/discover/:type], lines 287-318. *)
Definition discover (type : jsstring) (genre page : option jsstring) : run :=
  configured
    (if negb (existsb (fun t => bool_decide (t = type)) [js "movie"; js "tv"]) then
       ([], bad_request "Type must be either movie or tv")
     else
       relay_results "Failed to discover content"
         (tmdbRequest (js "/discover/" ++ type)
            ((js "page", page_or_1 page)
             :: match truthy genre with
                | Some g => [(js "with_genres", g)]
                | None => []
                end))).

(** The requests the TMDB endpoints serve, by route and parameters. *)
Inductive route :=
| SearchMovies (query page : option jsstring)
| MovieDetails (id : jsstring)
| MovieRecommendations (id : jsstring)
| SearchTv (query page : option jsstring)
| TvDetails (id : jsstring)
| TvRecommendations (id : jsstring)
| SeasonDetails (id season : jsstring)
| Discover (type : jsstring) (genre page : option jsstring).

Definition handle (r : route) : run :=
  match r with
  | SearchMovies query page => search_movies query page
  | MovieDetails id => movie_details id
  | MovieRecommendations id => movie_recommendations id
  | SearchTv query page => search_tv query page
  | TvDetails id => tv_details id
  | TvRecommendations id => tv_recommendations id
  | SeasonDetails id season => season_details id season
  | Discover type genre page => discover type genre page
  end.

(** The TMDB endpoint a route asks: the segments of the route ([id],
    [season], [type]) are interpolated as [req.params] gives them. *)
Definition endpoint (r : route) : jsstring :=
  match r with
  | SearchMovies _ _ => js "/search/movie"
  | MovieDetails id => js "/movie/" ++ id
  | MovieRecommendations id => js "/movie/" ++ id ++ js "/recommendations"
  | SearchTv _ _ => js "/search/tv"
  | TvDetails id => js "/tv/" ++ id
  | TvRecommendations id => js "/tv/" ++ id ++ js "/recommendations"
  | SeasonDetails id season => js "/tv/" ++ id ++ js "/season/" ++ season
  | Discover type _ _ => js "/discover/" ++ type
  end.

(** A request the handlers answer with 400. *)
Definition invalid (r : route) : bool :=
  match r with
  | SearchMovies query _ | SearchTv query _ =>
      match truthy query with None => true | Some _ => false end
  | Discover type _ _ =>
      negb (bool_decide (type = js "movie")) && negb (bool_decide (type = js "tv"))
  | _ => false
  end.

(** The routes that send [data.results] rather than [data]. *)
Definition sends_results (r : route) : bool :=
  match r with
  | MovieDetails _ | TvDetails _ | SeasonDetails _ _ => false
  | _ => true
  end.

(** The [params] object a route passes to [tmdbRequest] once its guards
    have passed, in the order of its keys. *)
Definition parameters (r : route) : list (jsstring * jsstring) :=
  match r with
  | SearchMovies query page | SearchTv query page =>
      [(js "query", default [] query); (js "page", page_or_1 page)]
  | Discover _ genre page =>
      (js "page", page_or_1 page)
      :: match truthy genre with
         | Some g => [(js "with_genres", g)]
         | None => []
         end
  | _ => []
  end.

(** The call a route makes to TMDB once its guards have passed. *)
Definition upstream_call (r : route) : list jsstring * (failure + json) :=
  tmdbRequest (endpoint r) (parameters r).

End WithEnv.

End Tmdb.

(** ** A stand-in platform and sample worlds

    The handlers are parametric in the platform. The definitions below
    give it a value on the inputs of the examples, so that every statement
    made under assumptions on the platform is exercised on a concrete
    one. *)

Module Samples.
Import JsString Uri Runtime Effects.

Definition is_http (s : jsstring) : bool :=
  startsWith s (js "http://") || startsWith s (js "https://").

Fixpoint drop_until (c : N) (s : jsstring) : jsstring :=
  match s with
  | [] => []
  | d :: s' => if d =? c then s else drop_until c s'
  end.

(** [base] up to and including its last ['/']. *)
Definition directory (base : jsstring) : jsstring :=
  rev (drop_until 47 (rev base)).

(** Absolute http(s) inputs are kept; any other input is taken as a path
    relative to the directory of an http(s) base. *)
Definition sample_href (input : jsstring) (base : option jsstring)
  : option jsstring :=
  if is_http input then Some input
  else match base with
       | Some b => if is_http b then Some (directory b ++ input) else None
       | None => None
       end.

(** Scheme and authority of an http(s) URL. *)
Definition sample_origin (input : jsstring) : option jsstring :=
  match strip_prefix (js "https://") input, strip_prefix (js "http://") input with
  | Some r, _ => Some (js "https://" ++ before_unit 47 r)
  | None, Some r => Some (js "http://" ++ before_unit 47 r)
  | None, None => None
  end.

(** The JSON documents of the examples. *)
Definition sample_parse (s : jsstring) : option json :=
  if bool_decide (s = 123 :: quoted "Cookie" ++ js ":" ++ quoted "a=1" ++ [125])
  then Some (JObj [(js "Cookie", JStr (js "a=1"))])
  else if bool_decide (s = 123 :: quoted "Referer" ++ js ":" ++ quoted "https://x.example/" ++ [125])
  then Some (JObj [(js "Referer", JStr (js "https://x.example/"))])
  else None.

Definition sample_without (init name : jsstring) : jsstring :=
  join [38]
    (List.filter (fun kv => negb (startsWith kv (name ++ [61])) && negb (falsy kv))
       (split_unit 38 init)).

Definition sample_runtime : runtime :=
  {| URL_href := sample_href;
     URL_origin := sample_origin;
     toLowerCase := List.map ascii_lower;
     JSON_parse := sample_parse;
     URLSearchParams_without := sample_without |}.

(** *** Sample worlds *)

Import Extract.

Definition hls_request : net_request :=
  {| req_url := js "https://cdn.example/hls/master.m3u8";
     resourceType := js "xhr" |}.

(** The first provider times out, the second serves a manifest. *)
Definition first_times_out : browser_env :=
  {| visit := fun u =>
       if startsWith u (js "https://vidlink.pro/")
       then GotoFails (js "Navigation timeout of 60000 ms exceeded")
       else Settled [hls_request];
     reclose := Some (js "Protocol error: Connection closed.") |}.

(** A page that requests nothing of interest and shows one [video]
    element with a protocol-relative source. *)
Definition page_with_video (_ : jsstring) : single_run :=
  Rendered {| seen := []; content_error := None;
              videoSources := Ok [video "//cdn.example/a.mp4"];
              html_fallback := None |}.

(** The first provider serves a manifest. *)
Definition first_serves : browser_env :=
  {| visit := fun _ => Settled [hls_request];
     reclose := Some (js "Protocol error: Connection closed.") |}.

Import Stream.

(** A target that carries [headers={"Cookie":"a=1"}], percent-encoded. *)
Definition smuggling_url : jsstring :=
  js "https://cdn.example/v.mp4?headers=%7B%22Cookie%22%3A%22a%3D1%22%7D".

(** A browser in which every step succeeds. *)
Definition cooperative_puppet : puppet :=
  {| launch_error := None; newPage_error := None; setup_error := None;
     goto_error := fun _ => None;
     video_found := Ok (Some (js "https://cdn.example/hls/master.m3u8"));
     cookie_header := Ok (js "session=1") |}.

(** A browser whose navigation times out. *)
Definition timing_out_puppet : puppet :=
  {| launch_error := None; newPage_error := None; setup_error := None;
     goto_error := fun _ => Some (js "Navigation timeout of 60000 ms exceeded");
     video_found := Ok (Some (js "https://cdn.example/hls/master.m3u8"));
     cookie_header := Ok (js "session=1") |}.

(** An origin that serves a file of 1000 bytes. *)
Definition file_of_1000_bytes : upstream_json :=
  fun _ _ =>
    Reply 200
      (list_to_map [(js "content-type", js "video/mp4");
                    (js "content-length", js "1000")])
      [] 0.

(** An origin that does not have the file. *)
Definition origin_without_file : upstream_json :=
  fun _ _ => Reply 404 (list_to_map [(js "content-type", js "text/html")]) [] 0.

End Samples.

(** ** More sample worlds *)

Module MoreSamples.
Import JsString Uri Runtime.

(** An origin that serves a file of 1000 bytes and ignores [Range]. *)
Definition whole_file_origin : upstream :=
  fun _ _ =>
    Reply 200
      (list_to_map [(js "content-type", js "video/mp4");
                    (js "content-length", js "1000")])
      [] 0.

(** An origin that honours [Range] on a file of 1000 bytes. *)
Definition ranging_origin : upstream :=
  fun _ hs =>
    match hs !! js "Range" with
    | Some _ =>
        Reply 206
          (list_to_map [(js "content-type", js "video/mp2t");
                        (js "content-length", js "100");
                        (js "content-range", js "bytes 100-199/1000")])
          [] 0
    | None =>
        Reply 200
          (list_to_map [(js "content-type", js "video/mp2t");
                        (js "content-length", js "1000")])
          [] 0
    end.

(** A TMDB that knows one film. The stand-in for [URL] appends the
    parameters as they are, which is what the platform does for the
    values of the examples. *)
Definition tmdb_sample : Tmdb.tmdb_env :=
  {| Tmdb.TMDB_API_KEY := Some (js "k");
     Tmdb.URL_with_params := fun input params =>
       Some (input ++ js "?" ++
             JsString.join (js "&")
               (List.map (fun kv => fst kv ++ js "=" ++ snd kv) params));
     Tmdb.axios_get := fun url =>
       if JsString.includes url (js "/search/movie") then
         Tmdb.Resolved
           (JObj [(js "page", JNum (QArith_base.Qmake 1 1));
                  (js "results",
                   JArr [JObj [(js "id", JNum (QArith_base.Qmake 550 1));
                               (js "title", JStr (js "Fight Club"))]]);
                  (js "total_pages", JNum (QArith_base.Qmake 1 1))])
       else
         Tmdb.Rejected (js "Request failed with status code 404")
           (Some (JObj [(js "status_code", JNum (QArith_base.Qmake 34 1));
                        (js "status_message",
                         JStr (js "The resource you requested could not be found."))]));
     Tmdb.null_property_error := fun name =>
       js "Cannot read properties of null (reading '" ++ name ++ js "')" |}.

(** An origin that serves a playlist of two lines. *)
Definition playlist_origin : upstream :=
  fun _ _ => Reply 200 ∅ (js "#EXTM3U" ++ [JsString.LF] ++ js "seg1.ts") 0.

(** An http(s) input whose host opens a bracket and never closes it:
    [new URL] throws on it, with or without a base. *)
Definition unclosed_host (input : jsstring) : bool :=
  match strip_prefix (js "https://") input, strip_prefix (js "http://") input with
  | Some r, _ | None, Some r =>
      let host := before_unit 47 r in
      startsWith host (js "[") && negb (includes host (js "]"))
  | None, None => false
  end.

Definition careful_href (input : jsstring) (base : option jsstring)
  : option jsstring :=
  if unclosed_host input then None else Samples.sample_href input base.

Definition smuggled_referer : json :=
  JObj [(js "referer", JStr (js "https://x.example/"))].

(** Two more JSON documents: a [referer] in lower case, and the same
    under [__proto__]. *)
Definition careful_parse (s : jsstring) : option json :=
  if bool_decide (s = 123 :: quoted "referer" ++ js ":"
                        ++ quoted "https://x.example/" ++ [125])
  then Some smuggled_referer
  else if bool_decide (s = 123 :: quoted "__proto__" ++ js ":"
                             ++ 123 :: quoted "referer" ++ js ":"
                             ++ quoted "https://x.example/" ++ [125; 125])
  then Some (JObj [(js "__proto__", smuggled_referer)])
  else Samples.sample_parse s.

(** The stand-in platform with these two refinements. *)
Definition careful_runtime : runtime :=
  {| URL_href := careful_href;
     URL_origin := Samples.sample_origin;
     toLowerCase := List.map ascii_lower;
     JSON_parse := careful_parse;
     URLSearchParams_without := Samples.sample_without |}.

(** Targets that carry [headers={"referer":"https://x.example/"}] and
    [headers={"__proto__":{"referer":"https://x.example/"}}],
    percent-encoded. *)
Definition referer_url : jsstring :=
  js "https://cdn.example/v.mp4?headers=%7B%22referer%22%3A%22https%3A%2F%2Fx.example%2F%22%7D".

Definition proto_url : jsstring :=
  js "https://cdn.example/v.mp4?headers=%7B%22__proto__%22%3A%7B%22referer%22%3A%22https%3A%2F%2Fx.example%2F%22%7D%7D".

End MoreSamples.

(** * Properties *)


(** ** Strings *)

Module JsStringFacts.
Import JsString.

Lemma split_unit_nonempty c s : split_unit c s <> [].
Proof.
  destruct s as [|d s]; simpl; [discriminate|].
  destruct (d =? c); [discriminate|].
  destruct (split_unit c s); discriminate.
Qed.

(** A piece without separator is a single piece. *)
Lemma split_unit_single c p : c ∉ p -> split_unit c p = [p].
Proof.
  induction p as [|d p IH]; intros Hc; simpl; [reflexivity|].
  apply not_elem_of_cons in Hc as [Hd Hp].
  destruct (N.eqb_spec d c) as [->|_]; [congruence|].
  rewrite (IH Hp). reflexivity.
Qed.

Lemma split_unit_app c p r :
  c ∉ p -> split_unit c (p ++ c :: r) = p :: split_unit c r.
Proof.
  induction p as [|d p IH]; intros Hc; simpl.
  - rewrite N.eqb_refl. reflexivity.
  - apply not_elem_of_cons in Hc as [Hd Hp].
    destruct (N.eqb_spec d c) as [->|_]; [congruence|].
    rewrite (IH Hp). reflexivity.
Qed.

(** Splitting undoes joining when no piece holds the separator. *)
Lemma split_unit_join c ls :
  ls <> [] -> Forall (fun l => c ∉ l) ls -> split_unit c (join [c] ls) = ls.
Proof.
  induction ls as [|p ls IH]; intros Hne Hall; [congruence|].
  inversion Hall as [|? ? Hp Hls]; subst.
  destruct ls as [|q ls].
  - simpl. apply split_unit_single, Hp.
  - change (join [c] (p :: q :: ls)) with (p ++ c :: join [c] (q :: ls)).
    rewrite split_unit_app by exact Hp.
    rewrite IH; [reflexivity|discriminate|exact Hls].
Qed.

(** The pieces of a split hold no separator. *)
Lemma split_unit_pieces c s : Forall (fun l => c ∉ l) (split_unit c s).
Proof.
  induction s as [|d s IH]; simpl.
  - constructor; [apply not_elem_of_nil|constructor].
  - destruct (N.eqb_spec d c) as [->|Hd].
    + constructor; [apply not_elem_of_nil|exact IH].
    + destruct (split_unit c s) as [|h t].
      * constructor; [|constructor].
        apply not_elem_of_cons; split; [congruence|apply not_elem_of_nil].
      * inversion IH; subst. constructor; [|assumption].
        apply not_elem_of_cons; split; [congruence|assumption].
Qed.

Lemma join_split_unit c s : join [c] (split_unit c s) = s.
Proof.
  induction s as [|d s IH]; simpl; [reflexivity|].
  destruct (N.eqb_spec d c) as [->|Hd].
  - pose proof (split_unit_nonempty c s) as Hne.
    destruct (split_unit c s) as [|h t]; [congruence|].
    simpl in *. rewrite IH. reflexivity.
  - pose proof (split_unit_nonempty c s) as Hne.
    destruct (split_unit c s) as [|h t]; [congruence|].
    destruct t as [|h' t]; simpl in *; rewrite <- IH; reflexivity.
Qed.

Lemma trimStart_elem x s : x ∈ trimStart s -> x ∈ s.
Proof.
  induction s as [|c s IH]; simpl; [tauto|].
  destruct (is_js_space c); [|tauto].
  intros H. apply elem_of_cons. right. apply IH, H.
Qed.

(** Trimming only removes code units. *)
Lemma trim_elem x s : x ∈ trim s -> x ∈ s.
Proof.
  unfold trim, trimEnd. intros H.
  apply list_elem_of_In, in_rev, list_elem_of_In, trimStart_elem in H.
  apply list_elem_of_In, in_rev, list_elem_of_In, trimStart_elem in H.
  exact H.
Qed.

Lemma trimStart_idem s : trimStart (trimStart s) = trimStart s.
Proof.
  induction s as [|c s IH]; simpl; [reflexivity|].
  destruct (is_js_space c) eqn:E; [exact IH|]. simpl. rewrite E. reflexivity.
Qed.

Lemma startsWith_app s p : startsWith (p ++ s) p = true.
Proof.
  induction p as [|c p IH]; simpl; [reflexivity|].
  rewrite N.eqb_refl, IH. reflexivity.
Qed.

Lemma startsWith_spec s p : startsWith s p = true <-> exists r, s = p ++ r.
Proof.
  revert s. induction p as [|c p IH]; intros s; simpl.
  - split; [eauto|reflexivity].
  - destruct s as [|d s]; [split; [discriminate|intros [r Hr]; discriminate]|].
    rewrite andb_true_iff, N.eqb_eq, IH. split.
    + intros [-> [r ->]]. eauto.
    + intros [r Hr]. injection Hr as -> ->. eauto.
Qed.

Lemma endsWith_spec s p : endsWith s p = true <-> exists r, s = r ++ p.
Proof.
  unfold endsWith. rewrite startsWith_spec. split.
  - intros [r Hr]. exists (rev r).
    rewrite <- (rev_involutive s), Hr, rev_app_distr, rev_involutive. reflexivity.
  - intros [r ->]. exists (rev r). apply rev_app_distr.
Qed.

Lemma strip_prefix_app p s : strip_prefix p (p ++ s) = Some s.
Proof.
  induction p as [|c p IH]; simpl; [reflexivity|].
  rewrite N.eqb_refl. exact IH.
Qed.

End JsStringFacts.

(** ** Percent-encoding *)

Module UriFacts.
Import JsString Uri JsStringFacts.

Ltac lia_div := zify; Z.to_euclidean_division_equations; lia.

Lemma hex_cases d : d < 16 ->
  d = 0 \/ d = 1 \/ d = 2 \/ d = 3 \/ d = 4 \/ d = 5 \/ d = 6 \/ d = 7 \/
  d = 8 \/ d = 9 \/ d = 10 \/ d = 11 \/ d = 12 \/ d = 13 \/ d = 14 \/ d = 15.
Proof. lia. Qed.

Lemma hex_value_digit d : d < 16 -> hex_value (hex_digit d) = Some d.
Proof. intros H. apply hex_cases in H. intuition subst; reflexivity. Qed.

Lemma hex_digit_unreserved d : d < 16 -> uri_unreserved (hex_digit d) = true.
Proof. intros H. apply hex_cases in H. intuition subst; reflexivity. Qed.

Lemma unescape_pct b r :
  b < 256 ->
  unescape (37 :: hex_digit ((b / 16) mod 16) :: hex_digit (b mod 16) :: r)
  = cons (Octet b) <$> unescape r.
Proof.
  intros Hb. cbn [unescape]. rewrite N.eqb_refl.
  rewrite !hex_value_digit by lia_div.
  replace (16 * ((b / 16) mod 16) + b mod 16) with b by lia_div. reflexivity.
Qed.

Lemma pct_safe b : Forall (fun c => uri_safe c = true) (pct b).
Proof.
  unfold pct, uri_safe. repeat constructor.
  - rewrite hex_digit_unreserved by lia_div. reflexivity.
  - rewrite hex_digit_unreserved by lia_div. reflexivity.
Qed.

Lemma pct_all_safe bs : Forall (fun c => uri_safe c = true) (pct_all bs).
Proof.
  induction bs as [|b bs IH]; [constructor|].
  unfold pct_all. cbn [flat_map]. apply Forall_app. split; [apply pct_safe|exact IH].
Qed.

Lemma unescape_literal c r :
  c <> 37 -> unescape (c :: r) = cons (Lit c) <$> unescape r.
Proof.
  intros Hc. cbn [unescape]. destruct (N.eqb_spec c 37); [contradiction|reflexivity].
Qed.

Lemma unreserved_not_percent c : uri_unreserved c = true -> c <> 37.
Proof. intros H ->. discriminate. Qed.

(** Decoding skips an unreserved character. *)
Lemma decode_unreserved c e :
  uri_unreserved c = true ->
  decodeURIComponent (c :: e) = cons c <$> decodeURIComponent e.
Proof.
  intros Hc. unfold decodeURIComponent.
  rewrite unescape_literal by (apply unreserved_not_percent, Hc).
  destruct (unescape e) as [ts|]; reflexivity.
Qed.

Ltac decide_tests :=
  repeat match goal with
  | |- context [?a <? ?b] => destruct (N.ltb_spec a b); try lia
  | |- context [?a <=? ?b] => destruct (N.leb_spec a b); try lia
  end.

Lemma utf8_decode_1 b r :
  b < 0x80 -> utf8_decode (Octet b :: r) = cons b <$> utf8_decode r.
Proof. intros H. cbn [utf8_decode]. decide_tests. reflexivity. Qed.

(** The decoder on a lead octet and continuation octets given by their
    payloads. *)
Lemma utf8_decode_2_payload q1 q2 r :
  q1 < 32 -> q2 < 64 -> 0x80 <= q1 * 64 + q2 ->
  utf8_decode (Octet (0xC0 + q1) :: Octet (0x80 + q2) :: r)
  = app (utf16 (q1 * 64 + q2)) <$> utf8_decode r.
Proof.
  intros H1 H2 H. cbn [utf8_decode]. unfold is_cont.
  replace ((0xC0 + q1 - 0xC0) * 64 + (0x80 + q2 - 0x80)) with (q1 * 64 + q2) by lia.
  decide_tests. reflexivity.
Qed.

Lemma utf8_decode_3_payload q1 q2 q3 r :
  q1 < 16 -> q2 < 64 -> q3 < 64 ->
  0x800 <= q1 * 4096 + q2 * 64 + q3 ->
  ~ (0xD800 <= q1 * 4096 + q2 * 64 + q3 <= 0xDFFF) ->
  utf8_decode (Octet (0xE0 + q1) :: Octet (0x80 + q2) :: Octet (0x80 + q3) :: r)
  = app (utf16 (q1 * 4096 + q2 * 64 + q3)) <$> utf8_decode r.
Proof.
  intros H1 H2 H3 H Hs. cbn [utf8_decode]. unfold is_cont.
  replace ((0xE0 + q1 - 0xE0) * 4096 + (0x80 + q2 - 0x80) * 64 + (0x80 + q3 - 0x80))
    with (q1 * 4096 + q2 * 64 + q3) by lia.
  decide_tests; reflexivity.
Qed.

Lemma utf8_decode_4_payload q1 q2 q3 q4 r :
  q1 < 8 -> q2 < 64 -> q3 < 64 -> q4 < 64 ->
  0x10000 <= q1 * 262144 + q2 * 4096 + q3 * 64 + q4 <= 0x10FFFF ->
  utf8_decode (Octet (0xF0 + q1) :: Octet (0x80 + q2) :: Octet (0x80 + q3)
                 :: Octet (0x80 + q4) :: r)
  = app (utf16 (q1 * 262144 + q2 * 4096 + q3 * 64 + q4)) <$> utf8_decode r.
Proof.
  intros H1 H2 H3 H4 H. cbn [utf8_decode]. unfold is_cont.
  replace ((0xF0 + q1 - 0xF0) * 262144 + (0x80 + q2 - 0x80) * 4096
           + (0x80 + q3 - 0x80) * 64 + (0x80 + q4 - 0x80))
    with (q1 * 262144 + q2 * 4096 + q3 * 64 + q4) by lia.
  decide_tests; reflexivity.
Qed.

Lemma utf8_decode_2 cp r :
  0x80 <= cp < 0x800 ->
  utf8_decode (Octet (0xC0 + cp / 64) :: Octet (0x80 + cp mod 64) :: r)
  = app (utf16 cp) <$> utf8_decode r.
Proof.
  intros H.
  assert (E : cp / 64 * 64 + cp mod 64 = cp) by lia_div.
  rewrite <- E at 3. apply utf8_decode_2_payload; [lia_div|lia_div|lia].
Qed.

Lemma utf8_decode_3 cp r :
  0x800 <= cp < 0x10000 -> ~ (0xD800 <= cp <= 0xDFFF) ->
  utf8_decode (Octet (0xE0 + cp / 4096) :: Octet (0x80 + (cp / 64) mod 64)
                 :: Octet (0x80 + cp mod 64) :: r)
  = app (utf16 cp) <$> utf8_decode r.
Proof.
  intros H Hs.
  assert (E : cp / 4096 * 4096 + (cp / 64) mod 64 * 64 + cp mod 64 = cp) by lia_div.
  rewrite <- E at 4. apply utf8_decode_3_payload; [lia_div|lia_div|lia_div|lia|lia].
Qed.

Lemma utf8_decode_4 cp r :
  0x10000 <= cp <= 0x10FFFF ->
  utf8_decode (Octet (0xF0 + cp / 262144) :: Octet (0x80 + (cp / 4096) mod 64)
                 :: Octet (0x80 + (cp / 64) mod 64)
                 :: Octet (0x80 + cp mod 64) :: r)
  = app (utf16 cp) <$> utf8_decode r.
Proof.
  intros H.
  assert (E : cp / 262144 * 262144 + (cp / 4096) mod 64 * 4096
              + (cp / 64) mod 64 * 64 + cp mod 64 = cp) by lia_div.
  rewrite <- E at 5.
  apply utf8_decode_4_payload; [lia_div|lia_div|lia_div|lia_div|lia].
Qed.

Lemma utf16_pair c d :
  0xD800 <= c <= 0xDBFF -> 0xDC00 <= d <= 0xDFFF ->
  utf16 (0x10000 + (c - 0xD800) * 1024 + (d - 0xDC00)) = [c; d].
Proof.
  intros Hc Hd. unfold utf16.
  destruct (N.ltb_spec (0x10000 + (c - 0xD800) * 1024 + (d - 0xDC00)) 0x10000);
    [lia|].
  replace (0xD800 + (0x10000 + (c - 0xD800) * 1024 + (d - 0xDC00) - 0x10000) / 1024)
    with c by lia_div.
  replace (0xDC00 + (0x10000 + (c - 0xD800) * 1024 + (d - 0xDC00) - 0x10000) mod 1024)
    with d by lia_div.
  reflexivity.
Qed.

(** Decoding undoes the escapes of one code point. *)
Lemma decode_scalar cp e :
  cp <= 0x10FFFF -> ~ (0xD800 <= cp <= 0xDFFF) ->
  decodeURIComponent (pct_all (utf8 cp) ++ e)
  = app (utf16 cp) <$> decodeURIComponent e.
Proof.
  intros Hmax Hsur. unfold decodeURIComponent, utf8, pct_all, pct.
  destruct (N.ltb_spec cp 0x80); [|destruct (N.ltb_spec cp 0x800);
    [|destruct (N.ltb_spec cp 0x10000)]];
    cbn [flat_map app]; rewrite !unescape_pct by lia_div;
    destruct (unescape e) as [ts|]; try reflexivity; cbn [fmap option_fmap option_map mbind option_bind].
  - rewrite utf8_decode_1 by lia. unfold utf16.
    destruct (N.ltb_spec cp 0x10000); [reflexivity|lia].
  - apply utf8_decode_2. lia.
  - apply utf8_decode_3; lia.
  - apply utf8_decode_4. lia.
Qed.

Lemma encode_safe s : forall e,
  encodeURIComponent s = Some e -> Forall (fun c => uri_safe c = true) e.
Proof.
  assert (Hn : forall n s e, (length s <= n)%nat ->
            encodeURIComponent s = Some e -> Forall (fun c => uri_safe c = true) e).
  { induction n as [|n IH]; intros [|c s'] e Hlen He; cbn [length] in Hlen;
      try lia; cbn [encodeURIComponent] in He.
    - injection He as <-. constructor.
    - injection He as <-. constructor.
    - destruct (uri_unreserved c) eqn:Hc.
      + destruct (encodeURIComponent s') as [e'|] eqn:He'; [|discriminate].
        injection He as <-. constructor.
        * unfold uri_safe. rewrite Hc. reflexivity.
        * apply (IH s'); [lia|exact He'].
      + destruct (is_low_surrogate c); [discriminate|].
        destruct (is_high_surrogate c).
        * destruct s' as [|d s'']; [discriminate|].
          destruct (is_low_surrogate d); [|discriminate].
          destruct (encodeURIComponent s'') as [e'|] eqn:He'; [|discriminate].
          injection He as <-. apply Forall_app. split; [apply pct_all_safe|].
          apply (IH s''); [cbn [length] in Hlen; lia|exact He'].
        * destruct (encodeURIComponent s') as [e'|] eqn:He'; [|discriminate].
          injection He as <-. apply Forall_app. split; [apply pct_all_safe|].
          apply (IH s'); [lia|exact He']. }
  intros e. apply (Hn (length s)). lia.
Qed.

(** [decodeURIComponent (encodeURIComponent s) = s] for every string that
    [encodeURIComponent] accepts. *)
Theorem decode_encode s : forall e,
  well_formed s -> encodeURIComponent s = Some e ->
  decodeURIComponent e = Some s.
Proof.
  assert (Hn : forall n s e, (length s <= n)%nat -> well_formed s ->
            encodeURIComponent s = Some e -> decodeURIComponent e = Some s).
  { induction n as [|n IH]; intros [|c s'] e Hlen Hwf He; cbn [length] in Hlen;
      try lia; cbn [encodeURIComponent] in He.
    - injection He as <-. reflexivity.
    - injection He as <-. reflexivity.
    - inversion Hwf as [|? ? Hc16 Hwf']; subst.
      destruct (uri_unreserved c) eqn:Hc.
      + destruct (encodeURIComponent s') as [e'|] eqn:He'; [|discriminate].
        injection He as <-. rewrite decode_unreserved by exact Hc.
        rewrite (IH s' e') by (first [lia|assumption]). reflexivity.
      + destruct (is_low_surrogate c) eqn:Hlo; [discriminate|].
        apply andb_false_iff in Hlo. rewrite !N.leb_gt in Hlo.
        destruct (is_high_surrogate c) eqn:Hhi.
        * apply andb_true_iff in Hhi. rewrite !N.leb_le in Hhi.
          destruct s' as [|d s'']; [discriminate|].
          destruct (is_low_surrogate d) eqn:Hd; [|discriminate].
          apply andb_true_iff in Hd. rewrite !N.leb_le in Hd.
          destruct (encodeURIComponent s'') as [e'|] eqn:He'; [|discriminate].
          injection He as <-. inversion Hwf'; subst.
          rewrite decode_scalar by lia.
          rewrite (IH s'' e') by (first [cbn [length] in Hlen; lia|assumption]).
          cbn [fmap option_fmap option_map]. rewrite utf16_pair by lia.
          reflexivity.
        * apply andb_false_iff in Hhi. rewrite !N.leb_gt in Hhi.
          destruct (encodeURIComponent s') as [e'|] eqn:He'; [|discriminate].
          injection He as <-. rewrite decode_scalar by lia.
          rewrite (IH s' e') by (first [lia|assumption]).
          cbn [fmap option_fmap option_map]. unfold utf16.
          destruct (N.ltb_spec c 0x10000); [reflexivity|lia]. }
  intros e. apply (Hn (length s)). lia.
Qed.

End UriFacts.

(** ** The playlist rewrite of [/api/video-proxy] *)

Module VideoProxyFacts.
Import JsString Uri Runtime VideoProxy JsStringFacts UriFacts.

(** A decidable closed proposition, settled by evaluation. *)
Ltac by_computation := apply (bool_decide_unpack _); vm_compute; exact I.

Section Rewrite.
Context (rt : runtime).

Lemma safe_not_elem c e :
  uri_safe c = false -> Forall (fun d => uri_safe d = true) e -> c ∉ e.
Proof.
  intros Hc He Hin. rewrite Forall_forall in He.
  apply He in Hin. congruence.
Qed.

Lemma proxied_shape url referer segUrl out :
  proxied url referer segUrl = Some out ->
  exists u r, encodeURIComponent segUrl = Some u /\
              encodeURIComponent (or_else referer url) = Some r /\
              out = js "/api/video-proxy?url=" ++ u ++ js "&referer=" ++ r.
Proof.
  unfold proxied. intros H.
  destruct (encodeURIComponent segUrl) as [u|]; [|discriminate].
  destruct (encodeURIComponent (or_else referer url)) as [r|]; [|discriminate].
  injection H as <-. eauto.
Qed.

(** A rewritten line never holds a line feed. *)
Lemma rewrite_line_no_LF url referer line :
  LF ∉ line -> LF ∉ rewrite_line rt url referer line.
Proof.
  intros Hline. assert (Htrim : LF ∉ trim line).
  { intros H. apply Hline, trim_elem, H. }
  unfold rewrite_line.
  destruct (falsy (trim line) || startsWith (trim line) (js "#")); [exact Htrim|].
  destruct (resolve rt url (trim line) ≫= proxied url referer) as [out|] eqn:E;
    [|exact Htrim].
  destruct (resolve rt url (trim line)) as [segUrl|]; [|discriminate].
  apply proxied_shape in E as (u & r & Hu & Hr & ->).
  apply encode_safe in Hu, Hr.
  rewrite !not_elem_of_app. repeat split.
  - by_computation.
  - apply safe_not_elem; [reflexivity|exact Hu].
  - by_computation.
  - apply safe_not_elem; [reflexivity|exact Hr].
Qed.

(** The rewritten playlist, cut at line feeds again, is the list of the
    rewritten lines. *)
Lemma rewrite_playlist_lines url referer playlist :
  split_unit LF (rewrite_playlist rt url referer playlist)
  = List.map (rewrite_line rt url referer) (split_unit LF playlist).
Proof.
  unfold rewrite_playlist. apply split_unit_join.
  - pose proof (split_unit_nonempty LF playlist).
    destruct (split_unit LF playlist); [congruence|discriminate].
  - apply Forall_map. eapply Forall_impl; [apply split_unit_pieces|].
    intros line Hline. apply rewrite_line_no_LF, Hline.
Qed.

Lemma rewrite_line_tag url referer line :
  blank_or_tag line = true -> rewrite_line rt url referer line = trim line.
Proof. unfold blank_or_tag, rewrite_line. intros ->. reflexivity. Qed.

Lemma rewrite_line_unparsable url referer line :
  resolve rt url (trim line) = None -> rewrite_line rt url referer line = trim line.
Proof.
  unfold rewrite_line. intros ->.
  destruct (falsy (trim line) || startsWith (trim line) (js "#")); reflexivity.
Qed.

(** The [url] parameter of a rewritten line decodes to the resolved
    segment URL. *)
Lemma url_parameter_of_rewritten url referer line abs :
  blank_or_tag line = false ->
  resolve rt url (trim line) = Some abs ->
  well_formed abs ->
  is_Some (encodeURIComponent abs) ->
  is_Some (encodeURIComponent (or_else referer url)) ->
  query_param (js "url") (rewrite_line rt url referer line) = Some abs.
Proof.
  intros Htag Hres Hwf [u Hu] [r Hr].
  unfold rewrite_line. unfold blank_or_tag in Htag. rewrite Htag, Hres.
  cbn [mbind option_bind]. unfold proxied. rewrite Hu, Hr.
  cbn [mbind option_bind].
  pose proof (encode_safe _ _ Hu) as Hsafe.
  unfold query_param, raw_query_param.
  change (after_unit 63 (js "/api/video-proxy?url=" ++ u ++ js "&referer=" ++ r))
    with (Some (js "url=" ++ u ++ 38 :: js "referer=" ++ r)).
  cbn [mbind option_bind]. rewrite app_assoc.
  rewrite split_unit_app.
  2:{ rewrite not_elem_of_app. split.
      - by_computation.
      - apply safe_not_elem; [reflexivity|exact Hsafe]. }
  cbn [first_some]. change (js "url" ++ [61]) with (js "url=").
  rewrite strip_prefix_app. cbn [fmap option_fmap option_map]. f_equal.
  unfold qs_decode.
  assert (Hplus : List.map (fun c => if c =? 43 then 32 else c) u = u).
  { clear Hu. induction Hsafe as [|c u Hc _ IH]; [reflexivity|].
    cbn [List.map]. rewrite IH. destruct (N.eqb_spec c 43) as [->|]; [discriminate|].
    reflexivity. }
  rewrite Hplus, (decode_encode abs u Hwf Hu). reflexivity.
Qed.

End Rewrite.

End VideoProxyFacts.

(** ** Claims on [/api/video-proxy] *)

Module ProxyClaims.
Import JsString Uri Runtime VideoProxy Samples JsStringFacts UriFacts VideoProxyFacts.

(** C1 (amended). The rewritten playlist has the lines of the fetched one,
    one for one and in the same order: cut at line feeds again it is the
    list of the rewritten lines. A line that is empty or starts with ['#']
    once trimmed, and a line that does not resolve as a URL, are each
    replaced by their trimmed text, so they are kept verbatim exactly when
    they carry no white space at either end; no line makes the rewrite
    fail, and a line that is replaced by anything else is replaced by a
    proxy URL that wraps its resolution. *)
Theorem C1_rewrite_keeps_lines_trimmed rt url referer playlist :
  split_unit LF (rewrite_playlist rt url referer playlist)
  = List.map (rewrite_line rt url referer) (split_unit LF playlist)
  /\ (forall line, blank_or_tag line = true ->
        rewrite_line rt url referer line = trim line)
  /\ (forall line, resolve rt url (trim line) = None ->
        rewrite_line rt url referer line = trim line)
  /\ (forall line, trim line = line ->
        blank_or_tag line = true \/ resolve rt url line = None ->
        rewrite_line rt url referer line = line)
  /\ (forall line,
        rewrite_line rt url referer line = trim line \/
        exists abs u r,
          blank_or_tag line = false /\
          resolve rt url (trim line) = Some abs /\
          encodeURIComponent abs = Some u /\
          encodeURIComponent (or_else referer url) = Some r /\
          rewrite_line rt url referer line
          = js "/api/video-proxy?url=" ++ u ++ js "&referer=" ++ r).
Proof.
  split; [apply rewrite_playlist_lines|].
  split; [apply rewrite_line_tag|].
  split; [apply rewrite_line_unparsable|].
  split.
  - intros line Htrim [H|H].
    + rewrite rewrite_line_tag by exact H. exact Htrim.
    + rewrite rewrite_line_unparsable by (rewrite Htrim; exact H). exact Htrim.
  - intros line. unfold rewrite_line, blank_or_tag.
    destruct (falsy (trim line) || startsWith (trim line) (js "#")) eqn:Etag;
      [left; reflexivity|].
    destruct (resolve rt url (trim line)) as [abs|] eqn:Eres; [|left; reflexivity].
    cbn [mbind option_bind]. unfold proxied.
    destruct (encodeURIComponent abs) as [u|] eqn:Eu; [|left; reflexivity].
    destruct (encodeURIComponent (or_else referer url)) as [r|] eqn:Er;
      [|left; reflexivity].
    right. exists abs, u, r. cbn [mbind option_bind]. auto.
Qed.

(** C1 at the tag line [#EXT-X-ENDLIST], which has no white space to
    lose. *)
Lemma C1_rewrite_keeps_lines_trimmed_witness :
  rewrite_line sample_runtime (js "https://host/path/index.m3u8") None
    (js "#EXT-X-ENDLIST") = js "#EXT-X-ENDLIST".
Proof.
  destruct (C1_rewrite_keeps_lines_trimmed sample_runtime
              (js "https://host/path/index.m3u8") None (js "#EXT-X-ENDLIST"))
    as (_ & _ & _ & H & _).
  apply H; [reflexivity|left; reflexivity].
Defined.

(** C1, as stated, fails: the tag line [#EXTM3U] followed by a carriage
    return (a playlist with CRLF line ends) starts with ['#'] once trimmed
    and is not kept verbatim, the carriage return is dropped. *)
Lemma C1_counterexample_tag_line_loses_carriage_return :
  blank_or_tag (js "#EXTM3U" ++ [CR]) = true /\
  rewrite_line sample_runtime (js "https://host/path/index.m3u8") None
    (js "#EXTM3U" ++ [CR]) = js "#EXTM3U" /\
  rewrite_line sample_runtime (js "https://host/path/index.m3u8") None
    (js "#EXTM3U" ++ [CR]) <> js "#EXTM3U" ++ [CR].
Proof. repeat split. vm_compute. discriminate. Qed.

(** C2 (amended). For a playlist fetched from [M], a line that is neither
    empty nor a tag and that parses as a URL relative to [M] is rewritten
    to a proxy URL whose [url] query parameter decodes to the line
    resolved against [new URL(M)], whatever the [referer] parameter of the
    request is; a line that does not parse, or any line when [M] itself
    does not parse, is not wrapped: it comes back as its trimmed text. In
    particular [seg1.ts] in the playlist fetched from
    [https://host/path/index.m3u8] wraps [https://host/path/seg1.ts]. *)
Theorem C2_url_parameter_is_line_resolved_against_manifest rt :
  (forall M referer line base abs,
     blank_or_tag line = false ->
     URL_href rt M None = Some base ->
     URL_href rt (trim line) (Some base) = Some abs ->
     well_formed abs ->
     is_Some (encodeURIComponent abs) ->
     is_Some (encodeURIComponent (or_else referer M)) ->
     query_param (js "url") (rewrite_line rt M referer line) = Some abs)
  /\ (forall M referer line,
        URL_href rt M None = None \/
        (exists base, URL_href rt M None = Some base /\
                      URL_href rt (trim line) (Some base) = None) ->
        rewrite_line rt M referer line = trim line)
  /\ (forall referer,
        URL_href rt (js "https://host/path/index.m3u8") None
          = Some (js "https://host/path/index.m3u8") ->
        URL_href rt (js "seg1.ts") (Some (js "https://host/path/index.m3u8"))
          = Some (js "https://host/path/seg1.ts") ->
        is_Some (encodeURIComponent
                   (or_else referer (js "https://host/path/index.m3u8"))) ->
        query_param (js "url")
          (rewrite_line rt (js "https://host/path/index.m3u8") referer (js "seg1.ts"))
        = Some (js "https://host/path/seg1.ts")).
Proof.
  split; [|split].
  - intros M referer line base abs Htag Hbase Habs.
    apply url_parameter_of_rewritten; [exact Htag|].
    unfold resolve. rewrite Hbase. exact Habs.
  - intros M referer line H. apply rewrite_line_unparsable. unfold resolve.
    destruct H as [-> | (base & -> & H)]; [reflexivity|exact H].
  - intros referer Hbase Hseg Hreferer.
    apply url_parameter_of_rewritten; try assumption; try reflexivity.
    + unfold resolve. rewrite Hbase. exact Hseg.
    + repeat constructor.
    + eexists. vm_compute. reflexivity.
Qed.

(** C2 on the stand-in platform, for a request that names the page as
    referer. *)
Lemma C2_url_parameter_is_line_resolved_against_manifest_witness :
  query_param (js "url")
    (rewrite_line sample_runtime (js "https://host/path/index.m3u8")
       (Some (js "https://vidlink.pro/movie/786892")) (js "seg1.ts"))
  = Some (js "https://host/path/seg1.ts").
Proof.
  apply (proj2 (proj2 (C2_url_parameter_is_line_resolved_against_manifest
                         sample_runtime))).
  - reflexivity.
  - reflexivity.
  - eexists. vm_compute. reflexivity.
Defined.

(** C2, as stated, fails: the line [http://[] is neither empty nor a
    comment, [new URL] throws on it, and the line comes back as it is,
    with no [url] parameter to decode. *)
Lemma C2_counterexample_unparsable_line_is_not_wrapped :
  blank_or_tag (js "http://[") = false /\
  URL_href MoreSamples.careful_runtime (js "http://[")
    (Some (js "https://host/path/index.m3u8")) = None /\
  rewrite_line MoreSamples.careful_runtime (js "https://host/path/index.m3u8") None
    (js "http://[") = js "http://[" /\
  query_param (js "url")
    (rewrite_line MoreSamples.careful_runtime (js "https://host/path/index.m3u8")
       None (js "http://[")) = None.
Proof. repeat split. Qed.

Lemma dispatch_ascii rt url :
  lowercases_ascii rt -> is_ascii url ->
  dispatch rt url = if ends_in_m3u8 url then Manifest else Binary.
Proof.
  intros Hrt Hurl. unfold dispatch, ends_in_m3u8.
  rewrite Hrt by exact Hurl. reflexivity.
Qed.

Lemma ends_in_m3u8_spec url :
  ends_in_m3u8 url = true <->
  exists p t, url = p ++ t /\ List.map ascii_lower t = js ".m3u8".
Proof.
  unfold ends_in_m3u8. rewrite endsWith_spec. split.
  - intros [r Hr].
    exists (take (length r) url), (drop (length r) url). split.
    + symmetry. apply take_drop.
    + rewrite <- (take_drop (length r) url), map_app in Hr.
      apply app_inj_1 in Hr as [_ Hr]; [exact Hr|].
      rewrite length_map, length_take.
      assert (length (List.map ascii_lower url) = length (r ++ js ".m3u8")) as Hlen
        by (rewrite <- (take_drop (length r) url), map_app; rewrite Hr; reflexivity).
      rewrite length_map, length_app in Hlen. lia.
  - intros (p & t & -> & Ht). exists (List.map ascii_lower p).
    rewrite map_app, Ht. reflexivity.
Qed.

(** C3 (amended). For an ASCII target the manifest-rewrite branch is taken
    if and only if the whole target string, query string and fragment
    included, ends in [.m3u8] in any letter case; every other target goes
    through the binary branch. With an upstream that answers, the response
    is the rewritten playlist in the first case and the piped upstream
    stream with the upstream status in the second. *)
Theorem C3_manifest_branch_iff_whole_target_ends_in_m3u8 rt url :
  lowercases_ascii rt -> is_ascii url ->
  (dispatch rt url = Manifest <->
     exists p t, url = p ++ t /\ List.map ascii_lower t = js ".m3u8")
  /\ (dispatch rt url = Binary <->
        ~ exists p t, url = p ++ t /\ List.map ascii_lower t = js ".m3u8")
  /\ (forall up referer range code hs text stream,
        let req := {| query_url := Some url; query_referer := referer;
                      header_range := range |} in
        url <> [] ->
        up url (forwardHeaders req) = Reply code hs text stream ->
        valid_status code = true ->
        video_proxy rt up req =
          if ends_in_m3u8 url
          then {| status := 200;
                  res_headers :=
                    <[js "Access-Control-Allow-Origin" := js "*"]>
                      {[js "Content-Type" := js "application/vnd.apple.mpegurl"]};
                  res_body := Text (rewrite_playlist rt url referer text) |}
          else {| status := code; res_headers := relay_headers hs;
                  res_body := Piped stream |}).
Proof.
  intros Hrt Hurl. pose proof (dispatch_ascii rt url Hrt Hurl) as Hd.
  split; [|split].
  - rewrite <- ends_in_m3u8_spec, Hd. destruct (ends_in_m3u8 url); split; congruence.
  - rewrite <- ends_in_m3u8_spec, Hd.
    destruct (ends_in_m3u8 url); split; congruence.
  - intros up referer range code hs text stream req Hne Hup Hcode.
    unfold video_proxy. destruct url as [|c url']; [congruence|].
    cbn [query_url truthy falsy req]. rewrite Hd.
    unfold axios_checked. fold req. rewrite Hup, Hcode.
    destruct (ends_in_m3u8 (c :: url')); reflexivity.
Qed.

(** C3 at a target in upper case. *)
Lemma C3_manifest_branch_iff_whole_target_ends_in_m3u8_witness :
  dispatch sample_runtime (js "https://host/path/INDEX.M3U8") = Manifest.
Proof.
  apply (proj1 (C3_manifest_branch_iff_whole_target_ends_in_m3u8 sample_runtime
                  (js "https://host/path/INDEX.M3U8")
                  (fun s _ => eq_refl)
                  ltac:(repeat constructor))).
  exists (js "https://host/path/INDEX"), (js ".M3U8"). split; reflexivity.
Defined.

(** C3, as stated, fails: the path of
    [https://host/path/index.m3u8?token=1] ends in [.m3u8], and the target
    takes the binary branch because of its query string. *)
Lemma C3_counterexample_query_string_after_m3u8 :
  path_ends_in_m3u8 (js "https://host/path/index.m3u8?token=1") = true /\
  dispatch sample_runtime (js "https://host/path/index.m3u8?token=1") = Binary.
Proof. split; reflexivity. Qed.

(** X12. The binary branch of [/api/video-proxy] forwards the [Range]
    header of the request and relays the upstream status and
    [Content-Range] unchanged. *)
Lemma video_proxy_relays_status_and_range rt up req url code hs text stream :
  query_url req = Some url -> url <> [] ->
  dispatch rt url = Binary ->
  up url (forwardHeaders req) = Reply code hs text stream ->
  valid_status code = true ->
  video_proxy rt up req
  = {| status := code; res_headers := relay_headers hs; res_body := Piped stream |}
  /\ relay_headers hs !! js "Content-Range" = truthy (hs !! js "content-range")
  /\ forwardHeaders req !! js "Range" = truthy (header_range req).
Proof.
  intros Hq Hne Hd Hup Hcode. split; [|split].
  - unfold video_proxy. rewrite Hq. destruct url as [|c url']; [congruence|].
    cbn [truthy falsy]. rewrite Hd. unfold axios_checked. rewrite Hup, Hcode.
    reflexivity.
  - unfold relay_headers, copy_header.
    rewrite lookup_insert_ne by discriminate.
    destruct (truthy (hs !! js "content-range")) as [v|].
    + apply lookup_insert_eq.
    + destruct (truthy (hs !! js "accept-ranges")),
               (truthy (hs !! js "content-length")),
               (truthy (hs !! js "content-type"));
        repeat rewrite lookup_insert_ne by discriminate; apply lookup_empty.
  - unfold forwardHeaders. destruct (truthy (header_range req)) as [r|].
    + apply lookup_insert_eq.
    + reflexivity.
Qed.

End ProxyClaims.

(** ** Selection and fallback scanner *)

Module ExtractClaims.
Import JsString Uri Runtime Effects Extract Samples.

Lemma best_m3u8_loop_find urls best :
  best_m3u8_loop urls best = default best (List.find has_marker urls).
Proof.
  induction urls as [|u urls IH]; cbn [best_m3u8_loop List.find]; [reflexivity|].
  destruct (has_marker u); [reflexivity|exact IH].
Qed.

Lemma find_none_before {A} (f : A -> bool) pre m post :
  Forall (fun x => f x = false) pre -> f m = true ->
  List.find f (pre ++ m :: post) = Some m.
Proof.
  induction 1 as [|x pre Hx _ IH]; intros Hm; cbn [app List.find].
  - rewrite Hm. reflexivity.
  - rewrite Hx. apply IH, Hm.
Qed.

Lemma find_none_all {A} (f : A -> bool) l :
  Forall (fun x => f x = false) l -> List.find f l = None.
Proof.
  induction 1 as [|x l Hx _ IH]; cbn [List.find]; [reflexivity|].
  rewrite Hx. exact IH.
Qed.

(** C4. Selection takes the hls list when it is not empty and the direct
    list otherwise; in the hls list the first entry that holds one of the
    markers [MTA4MA==] and [NzIw] wins wherever it was captured, and the
    first captured entry wins when no entry holds a marker. *)
Theorem C4_selection_prefers_hls_and_marked_manifest c :
  select_captured c =
    match List.find has_marker (m3u8 c) with
    | Some marked => Some marked
    | None =>
        match m3u8 c with
        | first :: _ => Some first
        | [] => head (mp4 c)
        end
    end
  /\ (forall before marked after,
        m3u8 c = before ++ marked :: after ->
        Forall (fun u => has_marker u = false) before ->
        has_marker marked = true ->
        select_captured c = Some marked)
  /\ (forall first rest,
        m3u8 c = first :: rest ->
        Forall (fun u => has_marker u = false) (first :: rest) ->
        select_captured c = Some first).
Proof.
  assert (H : select_captured c =
    match List.find has_marker (m3u8 c) with
    | Some marked => Some marked
    | None => match m3u8 c with first :: _ => Some first | [] => head (mp4 c) end
    end).
  { unfold select_captured. destruct (m3u8 c) as [|first rest] eqn:E.
    - cbn [List.find]. destruct (mp4 c); reflexivity.
    - rewrite best_m3u8_loop_find. destruct (List.find has_marker (first :: rest)); reflexivity. }
  split; [exact H|]. split.
  - intros before marked after E Hbefore Hmarked.
    rewrite H, E, (find_none_before _ _ _ _ Hbefore Hmarked). reflexivity.
  - intros first rest E Hnone. rewrite H, E, (find_none_all _ _ Hnone). reflexivity.
Qed.

(** C4 at a capture where the marked manifest came second. *)
Lemma C4_selection_prefers_hls_and_marked_manifest_witness :
  select_captured
    {| m3u8 := [js "https://cdn.example/decoy/master.m3u8";
                js "https://cdn.example/MTA4MA==/index.m3u8"];
       mp4 := [js "https://cdn.example/trailer.mp4"]; iframe := []; other := [] |}
  = Some (js "https://cdn.example/MTA4MA==/index.m3u8").
Proof.
  apply (proj1 (proj2 (C4_selection_prefers_hls_and_marked_manifest _))
           [js "https://cdn.example/decoy/master.m3u8"]
           (js "https://cdn.example/MTA4MA==/index.m3u8") []).
  - reflexivity.
  - repeat constructor.
  - reflexivity.
Defined.

Section Scanner.
Context (rt : runtime).

Lemma pick_source_cons url c cands :
  pick_source rt url (c :: cands) =
    if eligible c then normalize rt url c else pick_source rt url cands.
Proof.
  cbn [pick_source]. unfold eligible, usable, normalize, shaped.
  destruct (src c) as [| | |s| |]; try reflexivity.
  destruct (falsy s); [reflexivity|]. destruct (is_ad s); [reflexivity|].
  cbn [orb]. destruct (startsWith s (js "//")); [reflexivity|].
  destruct (startsWith s (js "/")); [reflexivity|].
  cbn [orb]. destruct (startsWith s (js "http")); reflexivity.
Qed.

Lemma pick_source_find url cands :
  pick_source rt url cands =
    match List.find eligible cands with
    | Some c => normalize rt url c
    | None => Ok None
    end.
Proof.
  induction cands as [|c cands IH]; [reflexivity|].
  rewrite pick_source_cons. cbn [List.find].
  destruct (eligible c); [reflexivity|exact IH].
Qed.

End Scanner.

(** C8 (amended). The scanner loop drops the candidates that are empty,
    not strings, or hold [ads], [doubleclick] or [analytics], and selects
    the first one, in scan order, that starts with [//], [/] or [http],
    with no preference among the three shapes: [//] gets [https:] in
    front, [/] gets the origin of the navigated page in front, [http] is
    taken as it is. In particular the single candidate
    [//cdn.example/a.mp4] (or [https://cdn.example/a.mp4], what the [src]
    property of the element reads on an https page) gives
    [https://cdn.example/a.mp4], and with nothing captured the handler
    answers 200 with that URL. *)
Theorem C8_scanner_takes_first_shaped_candidate rt url cands :
  pick_source rt url cands =
    match List.find eligible cands with
    | Some c => normalize rt url c
    | None => Ok None
    end
  /\ pick_source rt url [video "//cdn.example/a.mp4"]
     = Ok (Some (js "https://cdn.example/a.mp4"))
  /\ pick_source rt url [video "https://cdn.example/a.mp4"]
     = Ok (Some (js "https://cdn.example/a.mp4"))
  /\ (forall world r,
        url <> [] ->
        world url = Rendered r ->
        content_error r = None ->
        select_captured (fst (on_requests (seen r))) = None ->
        videoSources r = Ok [video "//cdn.example/a.mp4"] ->
        sole_json (snd (handle_extract_stream_single rt world (Some url)))
        = Some (200, single_success_body url (js "https://cdn.example/a.mp4")
                       (fst (on_requests (seen r))))).
Proof.
  split; [apply pick_source_find|]. split; [reflexivity|]. split; [reflexivity|].
  intros world r Hne Hworld Hcontent Hnone Hscan.
  unfold handle_extract_stream_single, run, extract_stream_single.
  destruct url as [|c url']; [congruence|]. cbn [truthy falsy].
  rewrite Hworld. unfold unless. rewrite Hcontent, Hnone, Hscan.
  reflexivity.
Qed.

(** C8 at a page with a single [video] element, through the handler. *)
Lemma C8_scanner_takes_first_shaped_candidate_witness :
  sole_json (snd (handle_extract_stream_single sample_runtime page_with_video
                    (Some (js "https://vidlink.pro/movie/786892"))))
  = Some (200, single_success_body (js "https://vidlink.pro/movie/786892")
                 (js "https://cdn.example/a.mp4") no_capture).
Proof.
  apply (proj2 (proj2 (proj2 (C8_scanner_takes_first_shaped_candidate sample_runtime
           (js "https://vidlink.pro/movie/786892") [])))
         page_with_video
         {| seen := []; content_error := None;
            videoSources := Ok [video "//cdn.example/a.mp4"];
            html_fallback := None |});
    [discriminate|reflexivity|reflexivity|reflexivity|reflexivity].
Defined.

(** C8, as stated, fails: with a root-relative candidate scanned before an
    absolute one, the loop selects the root-relative one, where the
    stated priority order selects the absolute one. *)
Lemma C8_counterexample_scan_order_beats_priority :
  pick_source sample_runtime (js "https://vidlink.pro/movie/786892")
    [video "/media/a.mp4"; video "http://cdn.example/b.mp4"]
  = Ok (Some (js "https://vidlink.pro/media/a.mp4")) /\
  by_priority sample_runtime (js "https://vidlink.pro/movie/786892")
    [video "/media/a.mp4"; video "http://cdn.example/b.mp4"]
  = Ok (Some (js "http://cdn.example/b.mp4")).
Proof. split; reflexivity. Qed.

End ExtractClaims.

(** ** Handlers as effectful programs *)

Module EffectsFacts.
Import JsString Runtime Effects.
Local Open Scope js_scope.

Lemma navigations_app tr evs :
  navigations (tr ++ evs) = navigations tr ++ navigations evs.
Proof. apply omap_app. Qed.

Section Rules.
Context {L : Type}.

Lemma within_ret {A} (a : A) : within [] (ret (L := L) a).
Proof. intros l tr. exists []. rewrite app_nil_r. split; [reflexivity|constructor]. Qed.

Lemma within_throw {A} e : within [] (throw (L := L) (A := A) e).
Proof. intros l tr. exists []. rewrite app_nil_r. split; [reflexivity|constructor]. Qed.

Lemma within_get : within [] (get (L := L)).
Proof. intros l tr. exists []. rewrite app_nil_r. split; [reflexivity|constructor]. Qed.

Lemma within_history : within [] (history (L := L)).
Proof. intros l tr. exists []. rewrite app_nil_r. split; [reflexivity|constructor]. Qed.

Lemma within_modify f : within [] (modify (L := L) f).
Proof. intros l tr. exists []. rewrite app_nil_r. split; [reflexivity|constructor]. Qed.

Lemma within_emit e : within (navigations [e]) (emit (L := L) e).
Proof. intros l tr. exists [e]. split; [reflexivity|reflexivity]. Qed.

Lemma within_weaken {A} a b (m : M L A) :
  a `sublist_of` b -> within a m -> within b m.
Proof.
  intros Hab Hm l tr. destruct (Hm l tr) as (evs & E & Hs).
  exists evs. split; [exact E|]. etransitivity; eassumption.
Qed.

Lemma within_bind {A B} a b (m : M L A) (k : A -> M L B) :
  within a m -> (forall x, within b (k x)) -> within (a ++ b) (bind m k).
Proof.
  intros Hm Hk l tr. unfold bind.
  destruct (Hm l tr) as (evs & E & Hs).
  destruct (m l tr) as [[[x|e] l'] tr']; cbn [snd] in E; subst tr'.
  - destruct (Hk x l' (tr ++ evs)) as (evs' & E' & Hs').
    exists (evs ++ evs'). rewrite E', app_assoc. split; [reflexivity|].
    rewrite navigations_app. apply sublist_app; assumption.
  - exists evs. split; [reflexivity|]. apply sublist_inserts_r, Hs.
Qed.

Lemma within_try_catch {A} a b (body : M L A) (h : jsstring -> M L A) :
  within a body -> (forall e, within b (h e)) -> within (a ++ b) (try_catch body h).
Proof.
  intros Hm Hk l tr. unfold try_catch.
  destruct (Hm l tr) as (evs & E & Hs).
  destruct (body l tr) as [[[x|e] l'] tr']; cbn [snd] in E; subst tr'.
  - exists evs. split; [reflexivity|]. apply sublist_inserts_r, Hs.
  - destruct (Hk e l' (tr ++ evs)) as (evs' & E' & Hs').
    exists (evs ++ evs'). rewrite E', app_assoc. split; [reflexivity|].
    rewrite navigations_app. apply sublist_app; assumption.
Qed.

Lemma within_try_finally {A} a b (body : M L A) (fin : M L unit) :
  within a body -> within b fin -> within (a ++ b) (try_finally body fin).
Proof.
  intros Hm Hk l tr. unfold try_finally.
  destruct (Hm l tr) as (evs & E & Hs).
  destruct (body l tr) as [[o l'] tr']; cbn [snd] in E; subst tr'.
  destruct (Hk l' (tr ++ evs)) as (evs' & E' & Hs').
  exists (evs ++ evs').
  destruct (fin l' (tr ++ evs)) as [[[x|e] l''] tr'']; cbn [snd] in E'; subst tr'';
    rewrite app_assoc; (split; [reflexivity|]);
    rewrite navigations_app; apply sublist_app; assumption.
Qed.

(** The usual case: a step that navigates nothing, then the rest. *)
Lemma within_seq {A B} b (m : M L A) (k : A -> M L B) :
  within [] m -> (forall x, within b (k x)) -> within b (bind m k).
Proof. intros Hm Hk. apply (within_bind [] b); assumption. Qed.

Lemma within_send code j : within [] (send (L := L) code j).
Proof. apply (within_emit (Send _)). Qed.

Lemma within_attempt {A} (r : option A) e : within [] (attempt (L := L) r e).
Proof. destruct r; [apply within_ret|apply within_throw]. Qed.

Lemma within_lift {A} (o : outcome A) : within [] (lift (L := L) o).
Proof. destruct o; [apply within_ret|apply within_throw]. Qed.

End Rules.

End EffectsFacts.

Module HandlerFacts.
Import JsString Uri Runtime Effects Extract Samples EffectsFacts.
Local Open Scope js_scope.

Lemma within_close_page {L} again p : within [] (close_page (L := L) again p).
Proof.
  unfold close_page. apply within_seq; [apply within_history|]. intros tr.
  destruct (existsb (closes_page p) tr); [destruct again|];
    first [apply within_throw|apply (within_emit (ClosePage p))].
Qed.

Lemma within_close_current again : within [] (close_current again).
Proof.
  unfold close_current. apply within_seq; [apply within_get|]. intros l.
  destruct (Extract.page l); [apply within_close_page|apply within_ret].
Qed.

Lemma within_close_current_quietly again :
  within [] (close_current_quietly again).
Proof.
  apply (within_try_catch [] []); [apply within_close_current|].
  intros _. apply within_ret.
Qed.

Section Loop.
Context (rt : runtime) (env : browser_env) (targetUrl : jsstring) (isMovie : bool).

Abbreviation planned := (Extract.planned targetUrl isMovie).

Lemma within_try_source s :
  within (planned [s]) (try_source env targetUrl isMovie s).
Proof.
  unfold try_source, planned. cbn [omap list_omap].
  destruct (source_url targetUrl isMovie s) as [sourceUrl|].
  2:{ apply (within_try_catch [] []); [apply within_ret|].
      intros _. apply within_seq; [apply within_close_current|].
      intros _. apply within_ret. }
  apply (within_try_catch [sourceUrl] []).
  2:{ intros _. apply within_seq; [apply within_close_current|].
      intros _. apply within_ret. }
  assert (Hgoto : forall (p : nat) (k : M locals loop_exit), within [] k ->
            within [sourceUrl] (emit (Goto p (Some sourceUrl));; k)).
  { intros p k Hk. apply (within_bind [sourceUrl] []); [exact (within_emit (Goto p (Some sourceUrl)))|].
    intros _. exact Hk. }
  destruct (visit env sourceUrl) as [m|m|m|requests].
  - apply (within_weaken []); [apply sublist_nil_l|apply within_throw].
  - apply within_seq; [apply within_history|]. intros tr.
    apply within_seq; [apply (within_emit (NewPage _))|]. intros _.
    apply within_seq; [apply within_modify|]. intros _.
    apply (within_weaken []); [apply sublist_nil_l|apply within_throw].
  - apply within_seq; [apply within_history|]. intros tr.
    apply within_seq; [apply (within_emit (NewPage _))|]. intros _.
    apply within_seq; [apply within_modify|]. intros _.
    apply Hgoto, within_throw.
  - apply within_seq; [apply within_history|]. intros tr.
    apply within_seq; [apply (within_emit (NewPage _))|]. intros _.
    apply within_seq; [apply within_modify|]. intros _.
    apply Hgoto.
    destruct (select_captured (on_requests requests).1).
    + apply within_seq; [apply within_modify|]. intros _. apply within_ret.
    + apply within_seq; [apply within_close_current|]. intros _. apply within_ret.
Qed.

Lemma within_for_sources sources :
  within (planned sources) (for_sources env targetUrl isMovie sources).
Proof.
  induction sources as [|s sources IH]; [apply within_ret|].
  cbn [for_sources].
  unfold planned. change (s :: sources) with ([s] ++ sources). rewrite omap_app.
  apply within_bind; [apply within_try_source|].
  intros [|]; [|exact IH].
  apply (within_weaken []); [apply sublist_nil_l|apply within_ret].
Qed.

End Loop.

(** Whatever the browser does, the handler navigates source URLs only, in
    the order of [SOURCES]. *)
Lemma extract_stream_navigates_in_order rt env targetUrl :
  navigations (snd (handle_extract_stream rt env (Some targetUrl)))
  `sublist_of` planned targetUrl (includes targetUrl (js "/movie/")) SOURCES.
Proof.
  assert (H : within (planned targetUrl (includes targetUrl (js "/movie/")) SOURCES)
                (extract_stream rt env (Some targetUrl))).
  { unfold extract_stream.
    rewrite <- (app_nil_r (planned _ _ _)).
    apply within_try_finally; [|apply within_close_current_quietly].
    rewrite <- (app_nil_r (planned _ _ _)).
    apply within_try_catch; [|intros e; apply within_send].
    destruct (truthy (Some targetUrl)) as [t|] eqn:Et;
      [|apply (within_weaken []); [apply sublist_nil_l|apply within_send]].
    assert (t = targetUrl) as ->.
    { cbn [truthy] in Et. destruct (falsy targetUrl); congruence. }
    cbv zeta.
    destruct (negb (includes targetUrl (js "/movie/")) &&
              negb (includes targetUrl (js "/tv/")));
      [apply (within_weaken []); [apply sublist_nil_l|apply within_send]|].
    rewrite <- (app_nil_r (planned _ _ _)).
    apply within_bind; [apply within_for_sources|]. intros _.
    apply within_seq; [apply within_get|]. intros l.
    destruct (streamUrl l) as [found|]; [|apply within_send].
    apply within_seq; [|intros u; apply within_send].
    unfold absolutize.
    destruct (startsWith found (js "//")); [apply within_ret|].
    destruct (startsWith found (js "/")); [|apply within_ret].
    apply within_seq; [apply within_attempt|]. intros o. apply within_ret. }
  unfold handle_extract_stream, run.
  destruct (H {| Extract.page := None; streamUrl := None |} []) as (evs & E & Hs).
  destruct (extract_stream rt env (Some targetUrl) _ []) as [[o l] tr].
  cbn [snd] in *. subst tr. exact Hs.
Qed.



Lemma planned_two targetUrl isMovie url1 url2 :
  planned targetUrl isMovie SOURCES = [url1; url2] ->
  source_url targetUrl isMovie vidlink = Some url1 /\
  source_url targetUrl isMovie moviesapi = Some url2.
Proof.
  unfold planned, SOURCES. cbn [omap list_omap]. intros H.
  destruct (source_url targetUrl isMovie vidlink),
           (source_url targetUrl isMovie moviesapi);
    cbn in H; try discriminate.
  injection H as -> ->. split; reflexivity.
Qed.

Section Iteration.
Context (env : browser_env) (targetUrl : jsstring) (isMovie : bool).

(** An iteration whose source yields a stream leaves the loop with the
    page open. *)
Lemma try_source_yields s sourceUrl found l tr :
  source_url targetUrl isMovie s = Some sourceUrl ->
  yields env sourceUrl = Some found ->
  try_source env targetUrl isMovie s l tr =
    (Ok Break,
     {| Extract.page := Some (fresh_page tr); streamUrl := Some found |},
     tr ++ [NewPage (fresh_page tr); Goto (fresh_page tr) (Some sourceUrl)]).
Proof.
  intros Hs Hy. unfold yields in Hy. unfold try_source. rewrite Hs.
  destruct (visit env sourceUrl) as [| | |rs]; try discriminate.
  rewrite Hy.
  unfold try_catch, bind, history, emit, set_page, set_streamUrl, modify, ret.
  cbn. rewrite <- app_assoc. reflexivity.
Qed.

(** From the initial state, an iteration whose source yields nothing goes
    on to the next source, sends nothing, and leaves no page open. *)
Lemma try_source_first_fails s sourceUrl :
  source_url targetUrl isMovie s = Some sourceUrl ->
  yields env sourceUrl = None ->
  exists l tr,
    try_source env targetUrl isMovie s
      {| Extract.page := None; streamUrl := None |} [] = (Ok Next, l, tr)
    /\ streamUrl l = None
    /\ responses tr = []
    /\ opened_pages tr = closed_pages tr.
Proof.
  intros Hs Hy. unfold yields in Hy. unfold try_source. rewrite Hs.
  destruct (visit env sourceUrl) as [m|m|m|rs]; try rewrite Hy;
    unfold try_catch, bind, history, emit, set_page, set_streamUrl, modify, ret,
      throw, close_current, close_page, get; cbn; eauto 10.
Qed.

End Iteration.

Lemma close_current_quietly_run again l tr :
  exists closing,
    close_current_quietly again l tr = (Ok tt, l, tr ++ closing)
    /\ responses closing = [] /\ navigations closing = []
    /\ (closing = [] \/ exists p, Extract.page l = Some p /\ closing = [ClosePage p]).
Proof.
  unfold close_current_quietly, try_catch, close_current, bind, get, close_page,
    history, emit, throw, ret.
  destruct (Extract.page l) as [p|]; cbn.
  - destruct (existsb (closes_page p) tr); [destruct again|]; cbn.
    + exists []. rewrite app_nil_r. eauto 10.
    + exists [ClosePage p]. eauto 10.
    + exists [ClosePage p]. eauto 10.
  - exists []. rewrite app_nil_r. eauto 10.
Qed.

(** The handler once the loop has found a stream that is not
    root-relative. *)
Lemma extract_stream_found rt env targetUrl l1 tr1 u :
  targetUrl <> [] ->
  (includes targetUrl (js "/movie/") || includes targetUrl (js "/tv/")) = true ->
  for_sources env targetUrl (includes targetUrl (js "/movie/")) SOURCES
    {| Extract.page := None; streamUrl := None |} [] = (Ok tt, l1, tr1) ->
  streamUrl l1 = Some u ->
  startsWith u (js "/") = false ->
  exists closing,
    handle_extract_stream rt env (Some targetUrl) =
      (Ok tt,
       tr1 ++ Send {| status := 200; res_headers := ∅;
                      res_body := Json (success_body targetUrl u
                                          (includes targetUrl (js "/tv/"))) |}
           :: closing)
    /\ responses closing = [] /\ navigations closing = []
    /\ (closing = [] \/ exists p, Extract.page l1 = Some p /\ closing = [ClosePage p]).
Proof.
  intros Hne Hkind Hloop Hfound Hu.
  assert (Hu2 : startsWith u (js "//") = false).
  { destruct (startsWith u (js "//")) eqn:E; [|reflexivity].
    apply JsStringFacts.startsWith_spec in E as [r ->]. discriminate Hu. }
  unfold handle_extract_stream, run, extract_stream.
  destruct targetUrl as [|c t]; [congruence|]. cbn [truthy falsy]. cbv zeta.
  set (targetUrl := c :: t) in *.
  replace (negb (includes targetUrl (js "/movie/")) && negb (includes targetUrl (js "/tv/")))
    with false
    by (destruct (includes targetUrl (js "/movie/")), (includes targetUrl (js "/tv/"));
        (reflexivity || discriminate)).
  unfold try_finally, try_catch, bind. rewrite Hloop.
  unfold get. rewrite Hfound. unfold absolutize. rewrite Hu2, Hu.
  unfold ret, send, emit.
  destruct (close_current_quietly_run (reclose env) l1
              (tr1 ++ [Send {| status := 200; res_headers := ∅;
                               res_body := Json (success_body targetUrl u
                                          (includes targetUrl (js "/tv/"))) |}]))
    as (closing & -> & Hr & Hn & Hc).
  exists closing. rewrite <- app_assoc. auto.
Qed.

Lemma for_sources_first_yields env targetUrl isMovie url1 url2 u :
  planned targetUrl isMovie SOURCES = [url1; url2] ->
  yields env url1 = Some u ->
  for_sources env targetUrl isMovie SOURCES
    {| Extract.page := None; streamUrl := None |} []
  = (Ok tt, {| Extract.page := Some 0%nat; streamUrl := Some u |},
     [NewPage 0; Goto 0 (Some url1)]).
Proof.
  intros Hplan Hy. apply planned_two in Hplan as (H1 & H2).
  unfold SOURCES. cbn [for_sources]. unfold bind.
  rewrite (try_source_yields _ _ _ _ _ _ _ _ H1 Hy). reflexivity.
Qed.

Lemma for_sources_second_yields env targetUrl isMovie url1 url2 u :
  planned targetUrl isMovie SOURCES = [url1; url2] ->
  yields env url1 = None ->
  yields env url2 = Some u ->
  exists p tr0,
    for_sources env targetUrl isMovie SOURCES
      {| Extract.page := None; streamUrl := None |} []
    = (Ok tt, {| Extract.page := Some p; streamUrl := Some u |},
       tr0 ++ [NewPage p; Goto p (Some url2)])
    /\ responses tr0 = [] /\ opened_pages tr0 = closed_pages tr0.
Proof.
  intros Hplan Hy1 Hy2. apply planned_two in Hplan as (H1 & H2).
  destruct (try_source_first_fails env targetUrl isMovie _ _ H1 Hy1)
    as (l & tr0 & Hrun & _ & Hresp & Hpages).
  exists (fresh_page tr0), tr0. split; [|auto].
  unfold SOURCES. cbn [for_sources]. unfold bind. rewrite Hrun.
  rewrite (try_source_yields _ _ _ _ _ _ _ _ H2 Hy2). reflexivity.
Qed.

End HandlerFacts.

(** ** The multi-source resolver *)

Module ResolverClaims.
Import JsString Uri Runtime Effects Extract Samples EffectsFacts HandlerFacts.

Lemma responses_app tr evs :
  responses (tr ++ evs) = responses tr ++ responses evs.
Proof. apply omap_app. Qed.

Lemma responses_cons e tr : responses (e :: tr) = responses [e] ++ responses tr.
Proof. apply (responses_app [e]). Qed.

Lemma navigations_cons e tr :
  navigations (e :: tr) = navigations [e] ++ navigations tr.
Proof. apply (navigations_app [e]). Qed.

(** C5 (amended). The sources are listed in ascending priority, and the
    handler navigates their URLs in that order and no others, whatever the
    browser does. When the first source yields a stream the second is
    never navigated; when the first yields nothing (its page fails to
    open, navigation fails or times out, or nothing is captured) and the
    second yields a stream, the last navigation is the second source's and
    the response is a 200 that carries the stream. The response does not
    name the source that succeeded: it has no [sourceProviderName]
    property and its [source] property is the constant
    [multiple_sources]. *)
Theorem C5_sources_in_priority_order_first_success_wins rt env targetUrl :
  let isMovie := includes targetUrl (js "/movie/") in
  let isTV := includes targetUrl (js "/tv/") in
  let tr := snd (handle_extract_stream rt env (Some targetUrl)) in
  List.map priority SOURCES = [1; 2]
  /\ navigations tr `sublist_of` planned targetUrl isMovie SOURCES
  /\ (forall url1 url2 u,
        targetUrl <> [] ->
        (isMovie || isTV) = true ->
        planned targetUrl isMovie SOURCES = [url1; url2] ->
        startsWith u (js "/") = false ->
        (yields env url1 = Some u ->
           navigations tr = [url1] /\
           sole_json tr = Some (200, success_body targetUrl u isTV))
        /\ (yields env url1 = None -> yields env url2 = Some u ->
              last (navigations tr) = Some url2 /\
              sole_json tr = Some (200, success_body targetUrl u isTV)))
  /\ (forall u,
        field (js "source") (success_body targetUrl u isTV)
          = Some (JStr (js "multiple_sources")) /\
        field (js "sourceProviderName") (success_body targetUrl u isTV) = None).
Proof.
  intros isMovie isTV tr. split; [reflexivity|].
  split; [apply extract_stream_navigates_in_order|].
  split; [|intros u; split; reflexivity].
  intros url1 url2 u Hne Hkind Hplan Hu. split.
  - intros Hy.
    pose proof (for_sources_first_yields env _ _ _ _ _ Hplan Hy) as Hloop.
    destruct (extract_stream_found rt env targetUrl _ _ u Hne Hkind Hloop eq_refl Hu)
      as (closing & Hrun & Hresp & Hnav & _).
    subst tr. rewrite Hrun. cbn [snd]. split.
    + rewrite navigations_app, (navigations_cons (Send _) closing), Hnav. reflexivity.
    + unfold sole_json. rewrite responses_app, (responses_cons (Send _) closing), Hresp.
      reflexivity.
  - intros Hy1 Hy2.
    destruct (for_sources_second_yields env _ _ _ _ _ Hplan Hy1 Hy2)
      as (p & tr0 & Hloop & Hresp0 & _).
    destruct (extract_stream_found rt env targetUrl _ _ u Hne Hkind Hloop eq_refl Hu)
      as (closing & Hrun & Hresp & Hnav & _).
    subst tr. rewrite Hrun. cbn [snd]. split.
    + rewrite !navigations_app, (navigations_cons (Send _) closing), Hnav.
      change (navigations [Send _] ++ []) with (@nil jsstring).
      rewrite app_nil_r.
      change (navigations [NewPage p; Goto p (Some url2)]) with [url2].
      apply last_snoc.
    + unfold sole_json.
      rewrite !responses_app, (responses_cons (Send _) closing), Hresp0, Hresp.
      reflexivity.
Qed.

(** C5 when the first source times out and the second serves a
    manifest. *)
Lemma C5_sources_in_priority_order_first_success_wins_witness :
  last (navigations (snd (handle_extract_stream sample_runtime first_times_out
                            (Some (js "https://vidlink.pro/movie/786892")))))
  = Some (js "https://moviesapi.to/movie/786892").
Proof.
  apply (proj1 (proj2 (proj2 (C5_sources_in_priority_order_first_success_wins
           sample_runtime first_times_out (js "https://vidlink.pro/movie/786892"))))
         (js "https://vidlink.pro/movie/786892?nextbutton=true")
         (js "https://moviesapi.to/movie/786892")
         (js "https://cdn.example/hls/master.m3u8")
         ltac:(discriminate) eq_refl eq_refl eq_refl);
    reflexivity.
Defined.

(** C5, as stated, fails: when the first source times out and the second
    serves a manifest, the 200 response has no [sourceProviderName]
    property, and its [source] property is [multiple_sources], not the
    name of the second source. *)
Lemma C5_counterexample_response_does_not_name_the_source :
  match sole_json (snd (handle_extract_stream sample_runtime first_times_out
                          (Some (js "https://vidlink.pro/movie/786892")))) with
  | Some (code, body) =>
      code = 200 /\
      field (js "streamUrl") body = Some (JStr (js "https://cdn.example/hls/master.m3u8")) /\
      field (js "sourceProviderName") body = None /\
      field (js "source") body = Some (JStr (js "multiple_sources")) /\
      field (js "source") body <> Some (JStr (name moviesapi))
  | None => False
  end.
Proof. vm_compute. repeat split. discriminate. Qed.

Lemma for_sources_unparsed env targetUrl isMovie sources l tr :
  planned targetUrl isMovie sources = [] ->
  for_sources env targetUrl isMovie sources l tr = (Ok tt, l, tr).
Proof.
  unfold planned. induction sources as [|s sources IH]; intros H; [reflexivity|].
  cbn [omap list_omap] in H.
  destruct (source_url targetUrl isMovie s) eqn:E; [discriminate|].
  cbn [for_sources]. unfold bind, try_source. rewrite E.
  unfold try_catch, ret. apply IH, H.
Qed.

(** C6 (amended). For a TV URL from which season and episode cannot be
    read, the handler opens and navigates no page: every source is skipped
    and the only thing it does is to answer 404 (not found, with the list
    of source names), not 400. *)
Theorem C6_tv_url_without_episode_opens_no_page rt env targetUrl :
  targetUrl <> [] ->
  includes targetUrl (js "/movie/") = false ->
  includes targetUrl (js "/tv/") = true ->
  tv_match targetUrl = None ->
  handle_extract_stream rt env (Some targetUrl)
  = (Ok tt, [Send {| status := 404; res_headers := ∅;
                     res_body := Json exhausted_body |}])
  /\ opened_pages (snd (handle_extract_stream rt env (Some targetUrl))) = []
  /\ navigations (snd (handle_extract_stream rt env (Some targetUrl))) = [].
Proof.
  intros Hne Hmovie Htv Hmatch.
  assert (Hrun : handle_extract_stream rt env (Some targetUrl)
                 = (Ok tt, [Send {| status := 404; res_headers := ∅;
                                    res_body := Json exhausted_body |}])).
  { unfold handle_extract_stream, run, extract_stream.
    destruct targetUrl as [|c t]; [congruence|]. cbn [truthy falsy]. cbv zeta.
    rewrite Hmovie, Htv. cbn [negb andb].
    unfold try_finally, try_catch, bind.
    rewrite for_sources_unparsed.
    2:{ unfold planned, SOURCES, source_url. rewrite Hmatch. reflexivity. }
    reflexivity. }
  rewrite Hrun. repeat split.
Qed.

(** C6 at [https://vidlink.pro/tv/1399/1]. *)
Lemma C6_tv_url_without_episode_opens_no_page_witness :
  opened_pages (snd (handle_extract_stream sample_runtime first_serves
                       (Some (js "https://vidlink.pro/tv/1399/1")))) = [].
Proof.
  apply (C6_tv_url_without_episode_opens_no_page sample_runtime first_serves
           (js "https://vidlink.pro/tv/1399/1"));
    [discriminate|reflexivity|reflexivity|reflexivity].
Defined.

(** C6, as stated, fails: for the TV URL [https://vidlink.pro/tv/1399/1],
    which has no episode segment, the response is a 404 and not a 400. *)
Lemma C6_counterexample_missing_episode_answers_404 :
  List.map status
    (responses (snd (handle_extract_stream sample_runtime first_serves
                       (Some (js "https://vidlink.pro/tv/1399/1"))))) = [404]
  /\ List.map status
       (responses (snd (handle_extract_stream sample_runtime first_serves
                          (Some (js "https://vidlink.pro/tv/1399/1"))))) <> [400].
Proof. split; [reflexivity|discriminate]. Qed.

End ResolverClaims.

(** ** [/api/stream] *)

Module StreamClaims.
Import JsString Uri Runtime Effects Stream Samples.

(** *** Header smuggling *)

(** An assignment changes no own property of another name, as long as
    that name is not [__proto__]. *)
Lemma set_property_own t k' v k :
  k <> js "__proto__" ->
  own (set_property t k' v) !! k
  = if bool_decide (k' = k) then Some v else own t !! k.
Proof.
  intros Hk. unfold set_property.
  destruct (bool_decide_reflect (k' = js "__proto__")) as [->|Hk'].
  - destruct (bool_decide_reflect (js "__proto__" = k)); [congruence|].
    cbn [andb]. destruct (inherits_accessor t).
    + destruct v; reflexivity.
    + cbn [own]. apply lookup_insert_ne. congruence.
  - cbn [andb own]. destruct (bool_decide_reflect (k' = k)) as [->|Hne].
    + apply lookup_insert_eq.
    + apply lookup_insert_ne, Hne.
Qed.

Lemma assign_fields_lookup fields : forall target k,
  k <> js "__proto__" ->
  assign target (JObj fields) !! k = assigned k fields (target !! k).
Proof.
  unfold lookup, object_lookup, assign, assigned. cbn [own_properties].
  induction fields as [|[k' v] fields IH]; intros target k Hk; [reflexivity|].
  cbn [fold_left fst snd]. rewrite IH by exact Hk. f_equal.
  apply set_property_own, Hk.
Qed.

(** Pairs of other names leave the prototype alone, and add no own
    property named [__proto__]. *)
Lemma assign_plain fields : forall t,
  js "__proto__" ∉ List.map fst fields ->
  proto (assign t (JObj fields)) = proto t
  /\ own (assign t (JObj fields)) !! js "__proto__" = own t !! js "__proto__".
Proof.
  unfold assign. cbn [own_properties].
  induction fields as [|[k' v] fields IH]; intros t Hk; [split; reflexivity|].
  cbn [List.map fst] in Hk. apply not_elem_of_cons in Hk as [Hne Hk].
  cbn [fold_left fst snd]. destruct (IH (set_property t k' v) Hk) as [-> ->].
  unfold set_property.
  destruct (bool_decide_reflect (k' = js "__proto__")); [congruence|].
  cbn [andb own proto]. split; [reflexivity|]. apply lookup_insert_ne. congruence.
Qed.

(** The one pair named [__proto__] re-parents an object that inherits the
    accessor, and adds no own property. *)
Lemma assign_reparents pre v post t :
  js "__proto__" ∉ List.map fst pre -> js "__proto__" ∉ List.map fst post ->
  inherits_accessor t = true ->
  own (assign t (JObj (pre ++ (js "__proto__", v) :: post))) !! js "__proto__" = None
  /\ proto (assign t (JObj (pre ++ (js "__proto__", v) :: post)))
     = match v with
       | JNull => Null_prototype
       | JObj _ | JArr _ => Parsed v
       | _ => proto t
       end.
Proof.
  intros Hpre Hpost Ht.
  destruct (assign_plain pre t Hpre) as [Hp1 Ho1].
  assert (Hown : own t !! js "__proto__" = None).
  { unfold inherits_accessor in Ht. destruct (own t !! js "__proto__"); [discriminate|].
    reflexivity. }
  assert (Ht1 : inherits_accessor (assign t (JObj pre)) = true).
  { unfold inherits_accessor in *. rewrite Ho1, Hp1. exact Ht. }
  unfold assign in *. cbn [own_properties] in *.
  rewrite fold_left_app. cbn [fold_left fst snd].
  set (t1 := fold_left _ pre t) in *.
  set (t2 := set_property t1 (js "__proto__") v).
  destruct (assign_plain post t2 Hpost) as [Hp2 Ho2].
  unfold assign in Hp2, Ho2. cbn [own_properties] in Hp2, Ho2.
  rewrite Hp2, Ho2. unfold t2, set_property.
  rewrite bool_decide_true by reflexivity. rewrite Ht1. cbn [andb].
  rewrite <- Hp1, <- Hown, <- Ho1.
  destruct v; split; reflexivity.
Qed.

Lemma assigned_absent k fields before :
  k ∉ List.map fst fields -> assigned k fields before = before.
Proof.
  unfold assigned. revert before.
  induction fields as [|[k' v] fields IH]; intros before Hk; [reflexivity|].
  cbn [List.map fst] in Hk. apply not_elem_of_cons in Hk as [Hne Hk].
  cbn [fold_left fst snd].
  destruct (bool_decide_reflect (k' = k)); [congruence|]. apply IH, Hk.
Qed.

(** A field named [k] overrides whatever the target had. *)
Lemma assigned_over k fields before v :
  assigned k fields None = Some v -> assigned k fields before = Some v.
Proof.
  unfold assigned. induction fields as [|[k' v'] fields IH] using rev_ind;
    [discriminate|].
  rewrite !fold_left_app. cbn [fold_left fst snd].
  destruct (bool_decide (k' = k)); [auto|exact IH].
Qed.

Lemma assigned_single k v before : assigned k [(k, v)] before = Some v.
Proof.
  unfold assigned. cbn [fold_left fst snd].
  destruct (bool_decide_reflect (k = k)); [reflexivity|congruence].
Qed.


(** It keeps its defaults when nothing parses. *)
Lemma outbound_headers_defaults rt url :
  smuggled rt url = None -> outbound_headers rt url = default_headers.
Proof.
  intros Hs. unfold outbound_headers. rewrite Hs.
  destruct (URL_href rt url None); reflexivity.
Qed.

(** What the literal of src/server.js reads under [key]. *)
Lemma property_or_own merged key fallback v :
  own merged !! js key = Some v ->
  property_or merged key fallback = if json_truthy v then v else JStr (js fallback).
Proof. unfold property_or, get_property. intros ->. reflexivity. Qed.

Lemma property_or_inherited merged key fallback inner :
  own merged !! js key = None -> proto merged = Parsed (JObj inner) ->
  property_or merged key fallback
  = match assigned (js key) inner None with
    | Some v => if json_truthy v then v else JStr (js fallback)
    | None => JStr (js fallback)
    end.
Proof. unfold property_or, get_property. intros -> ->. reflexivity. Qed.

Lemma property_or_absent merged key fallback :
  own merged !! js key = None -> proto merged = Object_prototype ->
  property_or merged key fallback = JStr (js fallback).
Proof. unfold property_or, get_property. intros -> ->. reflexivity. Qed.

(** The six names of the literal, two of them read from the merged
    object. *)
Lemma server_outbound_headers_lookup merged k :
  server_outbound_headers merged !! k
  = if bool_decide (k = js "Referer")
    then Some (property_or merged "referer" "https://vidlink.pro/")
    else if bool_decide (k = js "Origin")
    then Some (property_or merged "origin" "https://vidlink.pro")
    else server_outbound_headers server_default_headers !! k.
Proof.
  unfold server_outbound_headers, literal, lookup, object_lookup. cbn [own list_to_map foldr].
  destruct (bool_decide_reflect (k = js "Referer")) as [->|HR].
  { rewrite lookup_insert_ne by discriminate. apply lookup_insert_eq. }
  destruct (bool_decide_reflect (k = js "Origin")) as [->|HO].
  { rewrite !(lookup_insert_ne _ (js "User-Agent")) by discriminate.
    rewrite !(lookup_insert_ne _ (js "Referer")) by discriminate.
    apply lookup_insert_eq. }
  destruct (decide (k = js "User-Agent")) as [->|HU].
  { rewrite !lookup_insert_eq. reflexivity. }
  rewrite !(lookup_insert_ne _ (js "User-Agent")) by congruence.
  rewrite !(lookup_insert_ne _ (js "Referer")) by congruence.
  rewrite !(lookup_insert_ne _ (js "Origin")) by congruence.
  reflexivity.
Qed.

Ltac step_world :=
  match goal with
  | |- context [match ?x with _ => _ end] =>
      match x with
      | context [match _ with _ => _ end] => fail 1
      | _ => destruct x eqn:?
      end
  end.

Ltac run_server :=
  unfold handle_api_stream_server, run, api_stream_server, fetch, unless, lift,
    attempt, send, assign_browser, assign_page, assign_url;
  unfold try_finally, try_catch, bind, emit, history, get, modify, ret, throw;
  cbv beta iota zeta; cbn [Stream.page Stream.browser Stream.url].

Ltac walk := repeat (step_world; cbv beta iota zeta; cbn [Stream.page Stream.browser Stream.url]).

(** The two requests of the handler of src/server.js when every step
    succeeds and both origins answer: the first carries the cookies of the
    page, the second goes to the target without its [headers] parameter
    and carries the literal built from the merged object. *)
Lemma server_stream_requests rt pp up url range v videoUrl c href
    code1 rhs1 text1 s1 code2 rhs2 text2 s2 :
  launch_error pp = None -> newPage_error pp = None -> setup_error pp = None ->
  goto_error pp (Some url) = None ->
  video_found pp = Ok v -> truthy v = Some videoUrl ->
  cookie_header pp = Ok c ->
  up videoUrl (cookie_request_headers c) = Reply code1 rhs1 text1 s1 ->
  url <> [] -> URL_href rt url None = Some href ->
  up (snd (server_merge rt url)) (server_outbound_headers (fst (server_merge rt url)))
    = Reply code2 rhs2 text2 s2 ->
  requested (snd (handle_api_stream_server rt pp up
                    {| query_url := Some url; header_range := range |}))
  = [(videoUrl, cookie_request_headers c);
     (snd (server_merge rt url), server_outbound_headers (fst (server_merge rt url)))].
Proof.
  intros H1 H2 H3 H4 H5 H6 H7 H8 Hne H9 H10.
  run_server. cbn [query_url]. rewrite H1. cbv beta iota zeta.
  rewrite H2. cbv beta iota zeta. rewrite H3. cbv beta iota zeta.
  cbn [Stream.page Stream.browser Stream.url]. rewrite H4. cbv beta iota zeta.
  rewrite H5. cbv beta iota zeta. rewrite H6. cbv beta iota zeta.
  rewrite H7. cbv beta iota zeta. rewrite H8. cbv beta iota zeta.
  destruct url as [|ch url']; [congruence|]. cbn [truthy falsy].
  cbv beta iota zeta. rewrite H9. cbv beta iota zeta.
  destruct (server_merge rt (ch :: url')) as [merged u'] eqn:E.
  cbn [fst snd] in H10. cbv beta iota zeta.
  cbn [Stream.page Stream.browser Stream.url]. rewrite H10. reflexivity.
Qed.


(** Every path of the handler of src/server.js: no page is ever closed, no
    upstream stream is ever destroyed, every response is an error, and the
    handler ends by throwing out of its [finally] block. *)
Lemma server_stream_paths rt pp up req :
  let '(o, tr) := handle_api_stream_server rt pp up req in
  o = Throw (js "response is not defined")
  /\ closed_pages tr = []
  /\ destroyed tr = []
  /\ Forall (fun r => status r = 400 \/ status r = 500) (responses tr).
Proof.
  run_server. walk; cbn [app];
    (split; [reflexivity|]); (split; [reflexivity|]); (split; [reflexivity|]);
    cbn [responses omap list_omap];
    repeat (apply Forall_cons; split; [cbn [status]; auto|]); apply Forall_nil_2.
Qed.

(** C9, in src/server.js. The handler of [/api/stream] launches a browser
    of its own and closes it on one path only, after the page's cookies
    have been read. When a step before that fails (the page does not
    open, navigation fails or times out, no video URL is found, the
    cookies cannot be read) the handler answers 500 and returns with the
    browser it launched still open; on no path at all does it close the
    page or destroy an upstream stream it fetched. *)
Theorem C9_server_js_stream_leaves_browser_open rt pp up req :
  launch_error pp = None ->
  (is_Some (newPage_error pp) \/ is_Some (setup_error pp) \/
   is_Some (goto_error pp (query_url req)) \/
   (forall v, video_found pp = Ok v -> truthy v = None) \/
   (exists m, cookie_header pp = Throw m)) ->
  let tr := snd (handle_api_stream_server rt pp up req) in
  launched tr = [0%nat] /\ closed_browsers tr = [] /\ closed_pages tr = []
  /\ destroyed tr = [] /\ List.map status (responses tr) = [500].
Proof.
  intros Hlaunch Hfail. cbv zeta. run_server. rewrite Hlaunch.
  cbv beta iota zeta; cbn [Stream.page Stream.browser Stream.url].
  destruct (newPage_error pp) as [m|] eqn:E1; [repeat split|].
  cbv beta iota zeta; cbn [Stream.page Stream.browser Stream.url].
  destruct (setup_error pp) as [m|] eqn:E2; [repeat split|].
  cbv beta iota zeta; cbn [Stream.page Stream.browser Stream.url].
  destruct (goto_error pp (query_url req)) as [m|] eqn:E3; [repeat split|].
  cbv beta iota zeta; cbn [Stream.page Stream.browser Stream.url].
  destruct (video_found pp) as [v|m] eqn:E4; [|repeat split].
  cbv beta iota zeta; cbn [Stream.page Stream.browser Stream.url].
  destruct (truthy v) as [videoUrl|] eqn:E5; [|repeat split].
  cbv beta iota zeta; cbn [Stream.page Stream.browser Stream.url].
  destruct (cookie_header pp) as [c|m] eqn:E6; [|repeat split].
  exfalso. destruct Hfail as [[? H]|[[? H]|[[? H]|[H|[? H]]]]]; try discriminate.
  specialize (H v eq_refl). congruence.
Qed.

(** The handler of part_000 once the upstream has answered. *)
Lemma api_stream_run rt up url range code rhs text stream :
  url <> [] ->
  up url (outbound_headers rt url) = Reply code rhs text stream ->
  handle_api_stream rt up {| query_url := Some url; header_range := range |}
  = (Ok tt, [Fetch 0 url (outbound_headers rt url);
             Send (range_response range rhs 0)]).
Proof.
  intros Hne Hup. unfold handle_api_stream, run, api_stream.
  destruct url as [|c url']; [congruence|]. cbn [query_url truthy falsy header_range].
  unfold fetch. rewrite Hup.
  unfold try_catch, bind, emit, history, ret. reflexivity.
Qed.

(** C7, in the [/api/stream] handlers. The range code of part_000 lines
    1243-1259 (the same text as src/server.js lines 556-572) answers a
    request with [Range: bytes=100-199] with status 206 and the header
    [Content-Range: bytes 100-199/undefined], whatever length the upstream
    reports, and answers a request without [Range] with status 200
    whatever the upstream status is; in src/server.js the handler never
    reaches that code and every response is a 400 or a 500. *)
Theorem C7_stream_range_reply_has_no_total rt up url code rhs text stream :
  url <> [] ->
  up url (outbound_headers rt url) = Reply code rhs text stream ->
  (exists r,
     responses (snd (handle_api_stream rt up
                       {| query_url := Some url;
                          header_range := Some (js "bytes=100-199") |})) = [r]
     /\ status r = 206
     /\ res_headers r !! js "Content-Range" = Some (js "bytes 100-199/undefined")
     /\ res_headers r !! js "Content-Length" = Some (js "100"))
  /\ (exists r,
        responses (snd (handle_api_stream rt up
                          {| query_url := Some url; header_range := None |})) = [r]
        /\ status r = 200)
  /\ (forall pp req,
        Forall (fun r => status r = 400 \/ status r = 500)
          (responses (snd (handle_api_stream_server rt pp up req)))).
Proof.
  intros Hne Hup. split; [|split].
  - rewrite (api_stream_run _ _ _ _ _ _ _ _ Hne Hup). eexists. split; [reflexivity|].
    split; [reflexivity|]. split.
    + unfold range_response.
      change (truthy (Some (js "bytes=100-199"))) with (Some (js "bytes=100-199")).
      cbv zeta. cbn [res_headers].
      rewrite lookup_insert_ne by discriminate.
      rewrite lookup_insert_eq. reflexivity.
    + unfold range_response.
      change (truthy (Some (js "bytes=100-199"))) with (Some (js "bytes=100-199")).
      cbv zeta. cbn [res_headers].
      rewrite lookup_insert_eq. reflexivity.
  - rewrite (api_stream_run _ _ _ _ _ _ _ _ Hne Hup). eexists. split; reflexivity.
  - intros pp req. pose proof (server_stream_paths rt pp up req) as H.
    destruct (handle_api_stream_server rt pp up req) as [o tr]. apply H.
Qed.

(** C7 against an origin that reports a length of 1000 bytes. *)
Lemma C7_stream_range_reply_has_no_total_witness :
  exists r,
    responses (snd (handle_api_stream sample_runtime file_of_1000_bytes
                      {| query_url := Some smuggling_url;
                         header_range := Some (js "bytes=100-199") |})) = [r]
    /\ status r = 206
    /\ res_headers r !! js "Content-Range" = Some (js "bytes 100-199/undefined")
    /\ res_headers r !! js "Content-Length" = Some (js "100").
Proof.
  apply (C7_stream_range_reply_has_no_total sample_runtime file_of_1000_bytes
           smuggling_url 200
           (list_to_map [(js "content-type", js "video/mp4");
                         (js "content-length", js "1000")]) [] 0%nat);
    [discriminate|reflexivity].
Defined.

(** C9 when navigation times out. *)
Lemma C9_server_js_stream_leaves_browser_open_witness :
  launched (snd (handle_api_stream_server sample_runtime timing_out_puppet
                   file_of_1000_bytes
                   {| query_url := Some (js "https://vidlink.pro/movie/786892");
                      header_range := None |})) = [0%nat]
  /\ closed_browsers
       (snd (handle_api_stream_server sample_runtime timing_out_puppet
               file_of_1000_bytes
               {| query_url := Some (js "https://vidlink.pro/movie/786892");
                  header_range := None |})) = [].
Proof.
  destruct (C9_server_js_stream_leaves_browser_open sample_runtime timing_out_puppet
              file_of_1000_bytes
              {| query_url := Some (js "https://vidlink.pro/movie/786892");
                 header_range := None |})
    as (H1 & H2 & _).
  - reflexivity.
  - right. right. left. eexists. reflexivity.
  - split; [exact H1|exact H2].
Defined.



(** The requests of src/server.js for a target that smuggles a [Cookie]
    header, in a world where every step succeeds: the first request
    carries the cookies of the page, the second carries neither those nor
    the smuggled one, the response is a 500, and the two upstream streams
    are left undestroyed. *)
Example server_stream_smuggling_trace :
  let tr := snd (handle_api_stream_server sample_runtime cooperative_puppet
                   file_of_1000_bytes
                   {| query_url := Some smuggling_url; header_range := None |}) in
  omap (fun e => match e with
                 | Fetch _ u hs => Some (u, hs !! js "Cookie", hs !! js "Referer")
                 | _ => None
                 end) tr
  = [(js "https://cdn.example/hls/master.m3u8",
      Some (JStr (js "session=1")), Some (JStr (js "https://vidlink.pro/")));
     (js "https://cdn.example/v.mp4", None, Some (JStr (js "https://vidlink.pro/")))]
  /\ List.map status (responses tr) = [500]
  /\ fetched tr = [0%nat; 1%nat] /\ destroyed tr = []
  /\ launched tr = [0%nat] /\ closed_browsers tr = [0%nat] /\ closed_pages tr = [].
Proof. repeat split; vm_compute; reflexivity. Qed.

End StreamClaims.

(** ** Pages and browsers are closed by the extraction handlers *)

Module PageFacts.
Import JsString Uri Runtime Effects Extract Samples EffectsFacts HandlerFacts.

Lemma opened_pages_app tr evs :
  opened_pages (tr ++ evs) = opened_pages tr ++ opened_pages evs.
Proof. apply omap_app. Qed.

Lemma closed_pages_app tr evs :
  closed_pages (tr ++ evs) = closed_pages tr ++ closed_pages evs.
Proof. apply omap_app. Qed.

Lemma closes_page_elem p tr :
  existsb (closes_page p) tr = true -> p ∈ closed_pages tr.
Proof.
  induction tr as [|e tr IH]; cbn [existsb]; [discriminate|].
  intros H. apply orb_true_iff in H as [H|H].
  - destruct e; try discriminate. cbn in H. apply Nat.eqb_eq in H as ->.
    apply list_elem_of_here.
  - change (closed_pages (e :: tr)) with (closed_pages ([e] ++ tr)).
    rewrite closed_pages_app. apply elem_of_app. right. apply IH, H.
Qed.

Lemma all_closed_tracked l tr : all_closed tr -> tracked l tr.
Proof. intros H p Hp. left. apply H, Hp. Qed.

(** Events that open and close nothing keep both invariants. *)
Lemma all_closed_quiet tr e :
  opened_pages [e] = [] -> all_closed tr -> all_closed (tr ++ [e]).
Proof.
  intros He H p. rewrite opened_pages_app, closed_pages_app, He, app_nil_r.
  intros Hp. apply elem_of_app. left. apply H, Hp.
Qed.

Lemma tracked_quiet l tr e :
  opened_pages [e] = [] -> tracked l tr -> tracked l (tr ++ [e]).
Proof.
  intros He H p. rewrite opened_pages_app, closed_pages_app, He, app_nil_r.
  intros Hp. destruct (H p Hp) as [Hc|Hc]; [left|right; exact Hc].
  apply elem_of_app. left. exact Hc.
Qed.

(** Closing the current page, whether the call resolves or rejects,
    leaves every opened page closed. *)
Lemma close_current_closes again l tr :
  tracked l tr ->
  let '(o, l', tr') := close_current again l tr in
  l' = l /\ all_closed tr'.
Proof.
  intros H. unfold close_current, close_page, bind, get, history, emit, throw, ret.
  destruct (Extract.page l) as [p|] eqn:Hp.
  - destruct (existsb (closes_page p) tr) eqn:Hc.
    + apply closes_page_elem in Hc.
      assert (Hall : all_closed tr).
      { intros q Hq. destruct (H q Hq) as [?|Hq']; [assumption|congruence]. }
      destruct again; (split; [reflexivity|]); [exact Hall|].
      apply all_closed_quiet; [reflexivity|exact Hall].
    + split; [reflexivity|]. intros q Hq.
      rewrite opened_pages_app, app_nil_r in Hq. rewrite closed_pages_app.
      apply elem_of_app. destruct (H q Hq) as [?|Hq']; [left; assumption|].
      right. replace q with p by congruence. apply list_elem_of_here.
  - split; [reflexivity|]. intros q Hq.
    destruct (H q Hq) as [?|Hq']; [assumption|congruence].
Qed.

Section Loop.
Context (env : browser_env) (targetUrl : jsstring) (isMovie : bool).

(** One iteration, started with every page closed: it ends with every
    page closed, or leaves the loop with the one open page in [page]. *)
Lemma try_source_tracks s l tr :
  all_closed tr ->
  let '(o, l', tr') := try_source env targetUrl isMovie s l tr in
  match o with
  | Ok Break => tracked l' tr'
  | _ => all_closed tr'
  end.
Proof.
  intros H. unfold try_source.
  destruct (source_url targetUrl isMovie s) as [sourceUrl|];
    [|unfold try_catch, ret; exact H].
  set (handler := fun _ : jsstring => Effects.bind (close_current (reclose env))
                                       (fun _ => ret Next)).
  assert (Hhandler : forall e l1 tr1, tracked l1 tr1 ->
            let '(o, l', tr') := handler e l1 tr1 in
            match o with Ok Break => tracked l' tr' | _ => all_closed tr' end).
  { intros e l1 tr1 H1. unfold handler, bind.
    pose proof (close_current_closes (reclose env) l1 tr1 H1) as Hc.
    destruct (close_current (reclose env) l1 tr1) as [[[[]|m] l'] tr'];
      destruct Hc as [_ Hc]; exact Hc. }
  set (p := fresh_page tr).
  set (l1 := {| Extract.page := Some p; streamUrl := streamUrl l |}).
  assert (Hopen : tracked l1 (tr ++ [NewPage p])).
  { intros q Hq. rewrite opened_pages_app in Hq. apply elem_of_app in Hq as [Hq|Hq].
    - left. rewrite closed_pages_app. apply elem_of_app. left. apply H, Hq.
    - right. apply list_elem_of_singleton in Hq as ->. reflexivity. }
  destruct (visit env sourceUrl) as [m|m|m|requests];
    unfold try_catch, bind, history, emit, set_page, modify, throw, ret;
    fold p; fold l1.
  - apply (Hhandler m l tr), all_closed_tracked, H.
  - apply (Hhandler m l1 _ Hopen).
  - apply (Hhandler m l1), tracked_quiet; [reflexivity|exact Hopen].
  - pose proof (tracked_quiet _ _ (Goto p (Some sourceUrl)) eq_refl Hopen) as Hnav.
    destruct (select_captured (on_requests requests).1) as [u|].
    + unfold set_streamUrl, modify. intros q Hq. apply (Hnav q Hq).
    + pose proof (close_current_closes (reclose env) l1 _ Hnav) as Hc.
      destruct (close_current (reclose env) l1 _) as [[[[]|m] l'] tr'];
        destruct Hc as [-> Hc].
      * exact Hc.
      * apply (Hhandler m l1), all_closed_tracked, Hc.
Qed.

Lemma for_sources_tracks sources : forall l tr,
  all_closed tr ->
  let '(o, l', tr') := for_sources env targetUrl isMovie sources l tr in
  tracked l' tr'.
Proof.
  induction sources as [|s sources IH]; intros l tr H.
  - apply all_closed_tracked, H.
  - cbn [for_sources]. unfold bind.
    pose proof (try_source_tracks s l tr H) as Hs.
    destruct (try_source env targetUrl isMovie s l tr) as [[[[|]|m] l'] tr'].
    + exact Hs.
    + apply IH, Hs.
    + apply all_closed_tracked, Hs.
Qed.

End Loop.

Lemma send_tracks code j l tr :
  tracked l tr ->
  send code j l tr
  = (Ok tt, l, tr ++ [Send {| status := code; res_headers := ∅; res_body := Json j |}])
  /\ tracked l (tr ++ [Send {| status := code; res_headers := ∅; res_body := Json j |}]).
Proof. intros H. split; [reflexivity|]. apply tracked_quiet; [reflexivity|exact H]. Qed.

(** X6. The handler of part_000 closes every page it opened, on every path
    and whatever the browser does. *)
Lemma extract_stream_closes_pages rt env query :
  all_closed (snd (handle_extract_stream rt env query)).
Proof.
  unfold handle_extract_stream, run, extract_stream.
  set (l0 := {| Extract.page := None; streamUrl := None |}).
  assert (H0 : all_closed []) by (intros p Hp; inversion Hp).
  match goal with
  | |- context [try_finally ?b _] => set (body := b)
  end.
  assert (Hbody : let '(o, l, tr) := body l0 [] in tracked l tr).
  { subst body. unfold try_catch.
    match goal with
    | |- context [match ?m l0 [] with _ => _ end] => set (main := m)
    end.
    assert (Hmain : let '(o, l, tr) := main l0 [] in tracked l tr).
    { subst main. destruct (truthy query) as [targetUrl|];
        [|apply send_tracks, all_closed_tracked, H0].
      cbv zeta.
      destruct (negb (includes targetUrl (js "/movie/")) &&
                negb (includes targetUrl (js "/tv/")));
        [apply send_tracks, all_closed_tracked, H0|].
      unfold bind.
      pose proof (for_sources_tracks env targetUrl (includes targetUrl (js "/movie/"))
                    SOURCES l0 [] H0) as Hloop.
      destruct (for_sources env targetUrl _ SOURCES l0 []) as [[[[]|m] l1] tr1];
        [|exact Hloop].
      unfold get. destruct (streamUrl l1) as [found|];
        [|apply send_tracks, Hloop].
      unfold absolutize, bind, attempt, ret, throw.
      destruct (startsWith found (js "//")); [apply send_tracks, Hloop|].
      destruct (startsWith found (js "/")); [|apply send_tracks, Hloop].
      destruct (URL_origin rt targetUrl); [apply send_tracks, Hloop|exact Hloop]. }
    destruct (main l0 []) as [[[[]|m] l1] tr1]; [exact Hmain|].
    apply send_tracks, Hmain. }
  unfold try_finally. destruct (body l0 []) as [[o l1] tr1].
  unfold close_current_quietly, try_catch.
  pose proof (close_current_closes (reclose env) l1 tr1 Hbody) as Hc.
  destruct (close_current (reclose env) l1 tr1) as [[[[]|m] l2] tr2];
    destruct Hc as [_ Hc]; exact Hc.
Qed.

(** X8. The single-page handler of src/server.js closes every page it
    opened, on every path and whatever the page does. *)
Lemma extract_stream_single_closes_pages rt world query :
  all_closed (snd (handle_extract_stream_single rt world query)).
Proof.
  unfold handle_extract_stream_single, run, extract_stream_single.
  set (l0 := {| Extract.page := None; streamUrl := None |}).
  assert (H0 : all_closed []) by (intros p Hp; inversion Hp).
  match goal with
  | |- context [try_finally ?b _] => set (body := b)
  end.
  assert (Hbody : let '(o, l, tr) := body l0 [] in tracked l tr).
  { subst body. unfold try_catch.
    match goal with
    | |- context [match ?m l0 [] with _ => _ end] => set (main := m)
    end.
    assert (Hmain : let '(o, l, tr) := main l0 [] in tracked l tr).
    { subst main. destruct (truthy query) as [url|];
        [|apply send_tracks, all_closed_tracked, H0].
      set (l1 := {| Extract.page := Some 0%nat; streamUrl := None |}).
      assert (Hopen : tracked l1 [NewPage 0]).
      { intros q Hq. right. apply list_elem_of_singleton in Hq as ->. reflexivity. }
      pose proof (tracked_quiet _ _ (Goto 0 (Some url)) eq_refl Hopen) as Hnav.
      destruct (world url) as [m|m|m|r];
        unfold lift; unfold bind, history, emit, set_page, modify, throw, ret;
        cbn [app fresh_page List.filter length is_new_page];
        try exact Hopen; try exact Hnav; [apply all_closed_tracked, H0|].
      fold l1. unfold unless, throw, ret.
      destruct (content_error r) as [m|]; [exact Hnav|]. cbv beta iota.
      assert (Hrest : forall found,
        let '(o, l, tr) :=
          match truthy (match truthy found with
                        | Some u0 => Some u0
                        | None => html_fallback r
                        end) with
          | Some u0 =>
              Effects.bind (absolutize rt url u0)
                (fun u => send 200 (single_success_body url u (on_requests (seen r)).1))
          | None => send 404 (not_found_body (on_requests (seen r)).1)
          end l1 ([NewPage 0] ++ [Goto 0 (Some url)]) in
        tracked l tr).
      { intros found.
        destruct (truthy (match truthy found with Some u0 => Some u0 | None => html_fallback r end))
          as [u0|]; [|apply send_tracks, Hnav].
        unfold absolutize, bind, attempt, ret, throw.
        destruct (startsWith u0 (js "//")); [apply send_tracks, Hnav|].
        destruct (startsWith u0 (js "/")); [|apply send_tracks, Hnav].
        destruct (URL_origin rt url); [apply send_tracks, Hnav|exact Hnav]. }
      destruct (truthy (select_captured (on_requests (seen r)).1)) as [u|].
      - apply (Hrest (Some u)).
      - unfold lift, bind, ret, throw.
        destruct (videoSources r) as [cands|m]; [|exact Hnav].
        destruct (pick_source rt url cands) as [found|m]; [|exact Hnav].
        apply (Hrest found). }
    destruct (main l0 []) as [[[[]|m] l1] tr1]; [exact Hmain|].
    apply send_tracks, Hmain. }
  unfold try_finally. destruct (body l0 []) as [[o l1] tr1].
  unfold close_current_quietly, try_catch.
  pose proof (close_current_closes None l1 tr1 Hbody) as Hc.
  destruct (close_current None l1 tr1) as [[[[]|m] l2] tr2];
    destruct Hc as [_ Hc]; exact Hc.
Qed.

(** The handler of src/README.md closes the browser it launched on every
    path, and never throws. *)
Lemma readme_extract_closes_browser w query :
  let '(o, tr) := Readme.handle_extract w query in
  o = Ok tt /\ forall b, b ∈ launched tr -> b ∈ closed_browsers tr.
Proof.
  unfold Readme.handle_extract, run, Readme.extract.
  destruct (truthy query) as [pageUrl|];
    [|split; [reflexivity|intros b Hb; inversion Hb]].
  unfold Readme.close_browser, Readme.keep_browser, unless, lift, send.
  unfold try_catch, bind, emit, history, get, modify, ret, throw.
  cbv beta iota zeta.
  repeat (match goal with
          | |- context [match ?x with _ => _ end] =>
              match x with
              | context [match _ with _ => _ end] => fail 1
              | _ => destruct x
              end
          end; cbv beta iota zeta);
    cbn [app]; (split; [reflexivity|]); intros b Hb;
    cbn [launched closed_browsers omap list_omap] in *;
    first [exact Hb | inversion Hb].
Qed.

End PageFacts.
(** ** The request listener and what selection can return *)

Module CaptureFacts.
Import JsString Uri Runtime Effects Extract Listener Samples.

Lemma capture_fold rs : forall c,
  m3u8 (fold_left capture rs c) = m3u8 c ++ List.filter is_hls (List.map req_url rs)
  /\ mp4 (fold_left capture rs c) = mp4 c ++ List.filter is_direct (List.map req_url rs)
  /\ iframe (fold_left capture rs c) = iframe c
  /\ other (fold_left capture rs c) = other c.
Proof.
  induction rs as [|r rs IH]; intros c; cbn [fold_left List.map List.filter].
  - rewrite !app_nil_r. auto.
  - destruct (IH (capture c r)) as (H1 & H2 & H3 & H4).
    rewrite H1, H2, H3, H4. unfold capture, is_hls, is_direct.
    destruct (includes (req_url r) (js ".m3u8")); cbn [negb andb m3u8 mp4 iframe other].
    + rewrite <- app_assoc. auto.
    + destruct (includes (req_url r) (js ".mp4") || includes (req_url r) (js ".webm")
                || includes (req_url r) (js ".mkv")); cbn [m3u8 mp4 iframe other].
      * rewrite <- app_assoc. auto.
      * auto.
Qed.

Lemma captured_lists rs :
  m3u8 (fst (on_requests rs)) = List.filter is_hls (List.map req_url rs)
  /\ mp4 (fst (on_requests rs)) = List.filter is_direct (List.map req_url rs)
  /\ iframe (fst (on_requests rs)) = [] /\ other (fst (on_requests rs)) = [].
Proof.
  unfold on_requests. cbn [fst].
  destruct (capture_fold rs no_capture) as (H1 & H2 & H3 & H4).
  rewrite H1, H2, H3, H4. auto.
Qed.

(** X1. The listener files every request it sees by its URL alone, in arrival
    order and with repetitions: under [m3u8] when the URL holds [.m3u8],
    else under [mp4] when it holds [.mp4], [.webm] or [.mkv]. The resource
    type plays no part, so a request the gate aborts is filed all the
    same, and the lists [iframe] and [other] are never filled. *)
Theorem listener_files_requests_by_url rs :
  let c := fst (on_requests rs) in
  m3u8 c = List.filter is_hls (List.map req_url rs)
  /\ mp4 c = List.filter is_direct (List.map req_url rs)
  /\ iframe c = [] /\ other c = []
  /\ (forall r, r ∈ rs -> resource_gate r = Abort -> is_hls (req_url r) = true ->
        req_url r ∈ m3u8 c).
Proof.
  cbv zeta. destruct (captured_lists rs) as (H1 & H2 & H3 & H4).
  rewrite H1, H2, H3, H4. repeat split; try reflexivity.
  intros r Hr _ Hhls. apply list_elem_of_In, filter_In. split; [|exact Hhls].
  apply in_map, list_elem_of_In, Hr.
Qed.

Lemma best_m3u8_loop_elem urls best :
  best_m3u8_loop urls best = best \/ best_m3u8_loop urls best ∈ urls.
Proof.
  induction urls as [|u urls IH]; cbn [best_m3u8_loop]; [left; reflexivity|].
  destruct (has_marker u).
  - right. apply list_elem_of_here.
  - destruct IH as [->|IH]; [left; reflexivity|right; apply list_elem_of_further, IH].
Qed.

Lemma select_captured_elem c u :
  select_captured c = Some u -> u ∈ m3u8 c \/ (m3u8 c = [] /\ u ∈ mp4 c).
Proof.
  unfold select_captured. destruct (m3u8 c) as [|first rest] eqn:E.
  - destruct (mp4 c) as [|d ds]; [discriminate|].
    intros [= <-]. right. split; [reflexivity|apply list_elem_of_here].
  - intros H. apply (inj Some) in H. subst u. left.
    destruct (best_m3u8_loop_elem (first :: rest) first) as [H|H];
      [rewrite H; apply list_elem_of_here|exact H].
Qed.

(** X2. The stream a settled page yields is the URL of a request the page
    made, a URL that holds one of the four extensions; a [.mp4], [.webm]
    or [.mkv] URL is only selected when no request held [.m3u8]. Nothing
    is selected exactly when no request URL holds any of them. *)
Theorem selected_stream_was_requested rs :
  (forall u, select_captured (fst (on_requests rs)) = Some u ->
     exists r, r ∈ rs /\ req_url r = u /\
       (is_hls u = true \/
        (is_direct u = true /\ Forall (fun r => is_hls (req_url r) = false) rs)))
  /\ (select_captured (fst (on_requests rs)) = None <->
        Forall (fun r => is_hls (req_url r) = false /\ is_direct (req_url r) = false) rs).
Proof.
  destruct (captured_lists rs) as (H1 & H2 & _).
  split.
  - intros u Hu. apply select_captured_elem in Hu. rewrite H1, H2 in Hu.
    destruct Hu as [Hu|[Hnone Hu]].
    + apply list_elem_of_In, filter_In in Hu as [Hin Hhls].
      apply in_map_iff in Hin as (r & <- & Hr).
      exists r. split; [apply list_elem_of_In, Hr|]. auto.
    + apply list_elem_of_In, filter_In in Hu as [Hin Hd].
      apply in_map_iff in Hin as (r & <- & Hr).
      exists r. split; [apply list_elem_of_In, Hr|]. split; [reflexivity|].
      right. split; [exact Hd|].
      apply Forall_forall. intros r' Hr'.
      destruct (is_hls (req_url r')) eqn:E; [|reflexivity]. exfalso.
      assert (Hin : In (req_url r') (List.filter is_hls (List.map req_url rs))).
      { apply filter_In. split; [|exact E]. apply in_map, list_elem_of_In, Hr'. }
      rewrite Hnone in Hin. exact Hin.
  - unfold select_captured. rewrite H1, H2. split.
    + intros Hnone. apply Forall_forall. intros r Hr.
      destruct (List.filter is_hls (List.map req_url rs)) as [|a l] eqn:Ea;
        [|discriminate].
      destruct (List.filter is_direct (List.map req_url rs)) as [|b l] eqn:Eb;
        [|discriminate].
      split.
      * destruct (is_hls (req_url r)) eqn:E; [|reflexivity]. exfalso.
        assert (Hin : In (req_url r) (List.filter is_hls (List.map req_url rs))).
        { apply filter_In. split; [|exact E]. apply in_map, list_elem_of_In, Hr. }
        rewrite Ea in Hin. exact Hin.
      * destruct (is_direct (req_url r)) eqn:E; [|reflexivity]. exfalso.
        assert (Hin : In (req_url r) (List.filter is_direct (List.map req_url rs))).
        { apply filter_In. split; [|exact E]. apply in_map, list_elem_of_In, Hr. }
        rewrite Eb in Hin. exact Hin.
    + intros Hall.
      assert (Ha : List.filter is_hls (List.map req_url rs) = []).
      { clear H1 H2. induction Hall as [|r rs [Hr _] _ IH]; [reflexivity|].
        cbn [List.map List.filter]. rewrite Hr. exact IH. }
      assert (Hb : List.filter is_direct (List.map req_url rs) = []).
      { clear H1 H2 Ha. induction Hall as [|r rs [_ Hr] _ IH]; [reflexivity|].
        cbn [List.map List.filter]. rewrite Hr. exact IH. }
      rewrite Ha, Hb. reflexivity.
Qed.

End CaptureFacts.

(** ** More on [/api/video-proxy] of part_000 *)

Module ProxyFacts.
Import JsString Uri Runtime VideoProxy Player Samples MoreSamples JsStringFacts UriFacts
  VideoProxyFacts.

Lemma or_else_nonempty a b : b <> [] -> or_else a b <> [].
Proof.
  intros Hb. unfold or_else. destruct a as [[|c s]|]; cbn [falsy]; (exact Hb || discriminate).
Qed.

Lemma qs_decode_encoded s e :
  well_formed s -> encodeURIComponent s = Some e -> qs_decode e = s.
Proof.
  intros Hwf He. unfold qs_decode.
  pose proof (encode_safe _ _ He) as Hsafe.
  assert (Hplus : List.map (fun c => if c =? 43 then 32 else c) e = e).
  { clear He. induction Hsafe as [|c u Hc _ IH]; [reflexivity|].
    cbn [List.map]. rewrite IH. destruct (N.eqb_spec c 43) as [->|]; [discriminate|].
    reflexivity. }
  rewrite Hplus, (decode_encode s e Hwf He). reflexivity.
Qed.

(** The two parameters of a proxy URL, read back by the handler that
    receives it. *)
Lemma proxy_url_parameters abs R u r :
  well_formed abs -> well_formed R ->
  encodeURIComponent abs = Some u -> encodeURIComponent R = Some r ->
  query_param (js "url") (js "/api/video-proxy?url=" ++ u ++ js "&referer=" ++ r)
  = Some abs
  /\ query_param (js "referer")
       (js "/api/video-proxy?url=" ++ u ++ js "&referer=" ++ r) = Some R.
Proof.
  intros Hwf HwfR Hu Hr.
  pose proof (encode_safe _ _ Hu) as Hsafe.
  pose proof (encode_safe _ _ Hr) as HsafeR.
  unfold query_param, raw_query_param.
  change (after_unit 63 (js "/api/video-proxy?url=" ++ u ++ js "&referer=" ++ r))
    with (Some (js "url=" ++ u ++ 38 :: js "referer=" ++ r)).
  cbn [mbind option_bind]. rewrite app_assoc.
  rewrite split_unit_app.
  2:{ rewrite not_elem_of_app. split.
      - by_computation.
      - apply safe_not_elem; [reflexivity|exact Hsafe]. }
  rewrite split_unit_single.
  2:{ rewrite not_elem_of_app. split.
      - by_computation.
      - apply safe_not_elem; [reflexivity|exact HsafeR]. }
  split.
  - cbn [first_some]. change (js "url" ++ [61]) with (js "url=").
    rewrite strip_prefix_app. cbn [fmap option_fmap option_map]. f_equal.
    apply qs_decode_encoded; assumption.
  - cbn [first_some]. change (js "referer" ++ [61]) with (js "referer=").
    change (strip_prefix (js "referer=") (js "url=" ++ u)) with (@None jsstring).
    rewrite strip_prefix_app. cbn [fmap option_fmap option_map]. f_equal.
    apply qs_decode_encoded; assumption.
Qed.

Section Chain.
Context (rt : runtime).

(** X10. Following a rewritten line brings the proxy back to the resolved
    segment with the referer of the request that fetched the playlist,
    or with the playlist URL when that request named none: the upstream
    [Referer] of the follow-up request is that value, and a playlist
    fetched by the follow-up request is rewritten with it again. *)
Theorem rewritten_line_hands_on_referer M referer line abs range :
  M <> [] ->
  blank_or_tag line = false ->
  resolve rt M (trim line) = Some abs ->
  well_formed abs -> well_formed (or_else referer M) ->
  is_Some (encodeURIComponent abs) ->
  is_Some (encodeURIComponent (or_else referer M)) ->
  let next := follow (rewrite_line rt M referer line) range in
  query_url next = Some abs
  /\ query_referer next = Some (or_else referer M)
  /\ forwardHeaders next !! js "Referer" = Some (or_else referer M)
  /\ or_else (query_referer next) abs = or_else referer M.
Proof.
  intros HM Htag Hres Hwf HwfR Hu Hr. cbv zeta.
  pose proof (or_else_nonempty referer M HM) as HR.
  assert (Hurl : query_param (js "url") (rewrite_line rt M referer line) = Some abs)
    by (apply url_parameter_of_rewritten; assumption).
  assert (Href : query_param (js "referer") (rewrite_line rt M referer line)
                 = Some (or_else referer M)).
  { destruct Hu as [u Hu], Hr as [r Hr].
    unfold rewrite_line. unfold blank_or_tag in Htag. rewrite Htag, Hres.
    cbn [mbind option_bind]. unfold proxied. rewrite Hu, Hr.
    cbn [mbind option_bind].
    pose proof (encode_safe _ _ Hu) as Hsafe.
    pose proof (encode_safe _ _ Hr) as HsafeR.
    unfold query_param, raw_query_param.
    change (after_unit 63 (js "/api/video-proxy?url=" ++ u ++ js "&referer=" ++ r))
      with (Some (js "url=" ++ u ++ 38 :: js "referer=" ++ r)).
    cbn [mbind option_bind]. rewrite app_assoc.
    rewrite split_unit_app.
    2:{ rewrite not_elem_of_app. split.
        - by_computation.
        - apply safe_not_elem; [reflexivity|exact Hsafe]. }
    rewrite split_unit_single.
    2:{ rewrite not_elem_of_app. split.
        - by_computation.
        - apply safe_not_elem; [reflexivity|exact HsafeR]. }
    cbn [first_some]. change (js "referer" ++ [61]) with (js "referer=").
    change (strip_prefix (js "referer=") (js "url=" ++ u)) with (@None jsstring).
    rewrite strip_prefix_app. cbn [fmap option_fmap option_map]. f_equal.
    apply qs_decode_encoded; assumption. }
  unfold follow. cbn [query_url query_referer header_range].
  rewrite Hurl, Href. split; [reflexivity|]. split; [reflexivity|]. split.
  - unfold forwardHeaders. cbn [query_referer header_range].
    assert (Hor : or_else (Some (or_else referer M)) (js "https://vidlink.pro/")
                  = or_else referer M).
    { destruct (or_else referer M) as [|c s]; [congruence|reflexivity]. }
    rewrite Hor.
    destruct (truthy range) as [rg|].
    + rewrite lookup_insert_ne by discriminate.
      unfold list_to_map. cbn [foldr fst snd].
      rewrite lookup_insert_ne by discriminate. apply lookup_insert_eq.
    + unfold list_to_map. cbn [foldr fst snd].
      rewrite lookup_insert_ne by discriminate. apply lookup_insert_eq.
  - destruct (or_else referer M) as [|c s]; [congruence|reflexivity].
Qed.

End Chain.

(** X10 at an example: a relative segment of a playlist that was fetched
    without a referer: the segment is requested with the playlist URL as
    [Referer]. *)
Lemma rewritten_line_hands_on_referer_witness :
  forwardHeaders
    (follow (rewrite_line sample_runtime (js "https://host/path/index.m3u8") None
               (js "seg1.ts")) None) !! js "Referer"
  = Some (js "https://host/path/index.m3u8").
Proof.
  destruct (rewritten_line_hands_on_referer sample_runtime
              (js "https://host/path/index.m3u8") None (js "seg1.ts")
              (js "https://host/path/seg1.ts") None) as (_ & _ & H & _).
  - discriminate.
  - reflexivity.
  - reflexivity.
  - repeat constructor.
  - repeat constructor.
  - eexists. vm_compute. reflexivity.
  - eexists. vm_compute. reflexivity.
  - exact H.
Defined.

(** X11. The proxy answers 400 exactly when [url] is missing or empty; any
    other response has status 500 or a status from 200 to 399. An upstream
    status outside 200-399 (a 404, a 416) is never relayed: it becomes a
    500 whose text quotes the status, as a network failure becomes a 500
    with the message of the failure. *)
Theorem video_proxy_turns_upstream_errors_into_500 rt up req :
  let r := video_proxy rt up req in
  (status r = 400 \/ status r = 500 \/ valid_status (status r) = true)
  /\ (status r = 400 <-> truthy (query_url req) = None)
  /\ (forall url code hs text stream,
        truthy (query_url req) = Some url ->
        up url (forwardHeaders req) = Reply code hs text stream ->
        valid_status code = false ->
        r = {| status := 500; res_headers := ∅;
               res_body := Text (js "Error proxying video: Request failed with status code "
                                 ++ decimal code) |})
  /\ (forall url message,
        truthy (query_url req) = Some url ->
        up url (forwardHeaders req) = NetworkError message ->
        r = {| status := 500; res_headers := ∅;
               res_body := Text (js "Error proxying video: " ++ message) |}).
Proof.
  cbv zeta. unfold video_proxy, axios_checked.
  destruct (truthy (query_url req)) as [url|] eqn:Eurl.
  - destruct (dispatch rt url);
      destruct (up url (forwardHeaders req)) as [m|code hs text stream] eqn:Eup;
      try destruct (valid_status code) eqn:Ecode; cbn [status];
      (split; [auto|]); (split; [split; [|discriminate]|]);
      try discriminate;
      try (intros E; rewrite E in Ecode; discriminate);
      (split; [intros url' code' hs' text' stream' Hu Hup Hc
              |intros url' m' Hu Hup]);
      injection Hu as <-; rewrite Eup in Hup; try discriminate;
      try (injection Hup as <- <- <- <-; congruence);
      try (injection Hup as <-; reflexivity).
    all: try (injection Hup as <- <- <- <-; unfold proxy_error, status_message;
              rewrite <- app_assoc; reflexivity).
  - cbn [status]. split; [auto|]. split; [split; reflexivity|].
    split; intros; discriminate.
Qed.

(** X12 at an example: a segment requested with a [Range], from an origin
    that honours it. *)
Lemma video_proxy_relays_status_and_range_witness :
  video_proxy sample_runtime ranging_origin
    {| query_url := Some (js "https://cdn.example/seg1.ts"); query_referer := None;
       header_range := Some (js "bytes=100-199") |}
  = {| status := 206;
       res_headers :=
         relay_headers
           (list_to_map [(js "content-type", js "video/mp2t");
                         (js "content-length", js "100");
                         (js "content-range", js "bytes 100-199/1000")]);
       res_body := Piped 0 |}.
Proof.
  apply (ProxyClaims.video_proxy_relays_status_and_range sample_runtime ranging_origin
           {| query_url := Some (js "https://cdn.example/seg1.ts");
              query_referer := None;
              header_range := Some (js "bytes=100-199") |}
           (js "https://cdn.example/seg1.ts") 206
           (list_to_map [(js "content-type", js "video/mp2t");
                         (js "content-length", js "100");
                         (js "content-range", js "bytes 100-199/1000")]) [] 0%nat);
    (reflexivity || discriminate).
Defined.

End ProxyFacts.

(** ** More on [/api/stream] *)

Module StreamFacts.
Import JsString Uri Runtime Effects Stream Samples JsStringFacts UriFacts
  VideoProxyFacts StreamClaims.

(** *** Finding the smuggled headers *)

Lemma startsWith_before s c r p :
  c ∉ p -> startsWith (s ++ c :: r) p = true -> startsWith s p = true.
Proof.
  revert s. induction p as [|a p IH]; intros s Hc H; [reflexivity|].
  apply not_elem_of_cons in Hc as [Hca Hcp].
  destruct s as [|d s]; cbn [app startsWith] in *.
  - apply andb_true_iff in H as [H _]. apply N.eqb_eq in H. congruence.
  - apply andb_true_iff in H as [H1 H2]. rewrite H1. exact (IH s Hcp H2).
Qed.

Lemma strip_prefix_none p s : startsWith s p = false -> strip_prefix p s = None.
Proof.
  revert s. induction p as [|a p IH]; intros s H; [discriminate|].
  destruct s as [|d s]; cbn [startsWith strip_prefix] in *; [reflexivity|].
  destruct (a =? d); [apply IH, H|reflexivity].
Qed.

Lemma headers_match_unfold url :
  headers_match url =
    match strip_prefix (js "headers=") url with
    | Some r => Some (before_unit 38 r)
    | None => match url with [] => None | _ :: url' => headers_match url' end
    end.
Proof. destruct url; reflexivity. Qed.

(** The match skips a text that does not hold [headers=] and ends in a
    character that is not one of its own. *)
Lemma headers_match_skip base c z :
  includes base (js "headers=") = false -> c ∉ js "headers=" ->
  headers_match (base ++ c :: z) = headers_match z.
Proof.
  intros Hbase Hc. induction base as [|d base IH].
  - cbn [app]. rewrite headers_match_unfold.
    rewrite strip_prefix_none; [reflexivity|].
    destruct (startsWith (c :: z) (js "headers=")) eqn:E; [|reflexivity].
    exfalso. apply Hc. cbn [js list_ascii_of_string List.map startsWith] in E.
    apply andb_true_iff in E as [E _]. apply N.eqb_eq in E. rewrite <- E.
    apply list_elem_of_here.
  - cbn [includes] in Hbase. apply orb_false_iff in Hbase as [H1 H2].
    cbn [app]. rewrite headers_match_unfold.
    rewrite strip_prefix_none; [apply IH, H2|].
    destruct (startsWith (d :: base ++ c :: z) (js "headers=")) eqn:E; [|reflexivity].
    apply (startsWith_before (d :: base) c z) in E; [congruence|exact Hc].
Qed.

Lemma before_unit_stop c e rest :
  c ∉ e -> (rest = [] \/ exists q, rest = c :: q) -> before_unit c (e ++ rest) = e.
Proof.
  intros He Hrest. induction e as [|d e IH]; cbn [app before_unit].
  - destruct Hrest as [->|[q ->]]; [reflexivity|].
    cbn [before_unit]. rewrite N.eqb_refl. reflexivity.
  - apply not_elem_of_cons in He as [Hd He].
    destruct (N.eqb_spec d c); [congruence|]. rewrite (IH He). reflexivity.
Qed.



(** X14. A [headers=] parameter that cannot be used never fails the request:
    when there is no match, or the match is empty, does not decode, does
    not parse, or parses to a value without own properties (a number, a
    boolean, [null]), or when the target is not a URL, the handler of
    part_000 requests the target with its four default headers. *)
Theorem unusable_headers_parameter_is_ignored rt up url range code rhs text stream :
  url <> [] ->
  (smuggled rt url = None
   \/ (exists j, smuggled rt url = Some j /\ own_properties j = [])
   \/ URL_href rt url None = None) ->
  up url default_headers = Reply code rhs text stream ->
  outbound_headers rt url = default_headers
  /\ handle_api_stream rt up {| query_url := Some url; header_range := range |}
     = (Ok tt, [Fetch 0 url default_headers; Send (range_response range rhs 0)]).
Proof.
  intros Hne Hcase Hup.
  assert (Hout : outbound_headers rt url = default_headers).
  { unfold outbound_headers. destruct (URL_href rt url None) as [href|]; [|reflexivity].
    destruct Hcase as [H|[(j & H & Hj)|H]]; [rewrite H; reflexivity| |discriminate].
    rewrite H. unfold assign. rewrite Hj. reflexivity. }
  split; [exact Hout|].
  rewrite <- Hout in Hup. rewrite (api_stream_run _ _ _ _ _ _ _ _ Hne Hup), Hout.
  reflexivity.
Qed.

(** X14 at an example: a target whose [headers=] parameter is not JSON. *)
Lemma unusable_headers_parameter_is_ignored_witness :
  handle_api_stream sample_runtime file_of_1000_bytes
    {| query_url := Some (js "https://cdn.example/v.mp4?headers=%7Bbroken");
       header_range := None |}
  = (Ok tt,
     [Fetch 0 (js "https://cdn.example/v.mp4?headers=%7Bbroken") default_headers;
      Send (range_response None
              (list_to_map [(js "content-type", js "video/mp4");
                            (js "content-length", js "1000")]) 0)]).
Proof.
  apply (unusable_headers_parameter_is_ignored sample_runtime file_of_1000_bytes
           (js "https://cdn.example/v.mp4?headers=%7Bbroken") None 200
           (list_to_map [(js "content-type", js "video/mp4");
                         (js "content-length", js "1000")]) [] 0%nat).
  - discriminate.
  - left. reflexivity.
  - reflexivity.
Defined.


(** *** Every path of the handler of part_000 *)

(** X16. The handler of part_000 answers every request exactly once and never
    throws. The status is 400 exactly when [url] is missing or empty, and
    then nothing is requested; it is 500 exactly when the one request to
    the target fails without an answer; otherwise it is 206 when the
    request had a [Range] header and 200 when it had none, whatever the
    status of the upstream answer. *)
Theorem part_000_stream_answers_exactly_once rt up req :
  fst (handle_api_stream rt up req) = Ok tt
  /\ (length (fetched (snd (handle_api_stream rt up req))) <= 1)%nat
  /\ exists r,
       responses (snd (handle_api_stream rt up req)) = [r]
       /\ (status r = 400 <-> truthy (query_url req) = None)
       /\ (status r = 400 -> snd (handle_api_stream rt up req) = [Send r])
       /\ (status r = 500 <->
             exists url message,
               truthy (query_url req) = Some url
               /\ up url (outbound_headers rt url) = NetworkError message)
       /\ (forall url code rhs text stream,
             truthy (query_url req) = Some url ->
             up url (outbound_headers rt url) = Reply code rhs text stream ->
             status r = match truthy (header_range req) with
                        | Some _ => 206
                        | None => 200
                        end).
Proof.
  unfold handle_api_stream, run, api_stream.
  destruct (truthy (query_url req)) as [url|] eqn:Eurl.
  - unfold fetch, send; unfold try_catch, bind, history, emit, ret, throw.
    destruct (up url (outbound_headers rt url)) as [m|code rhs text stream] eqn:Eup;
      cbv beta iota zeta; cbn [app fst snd fetched responses omap list_omap length].
    + split; [reflexivity|]. split; [lia|]. eexists. split; [reflexivity|].
      cbn [status]. split; [split; discriminate|]. split; [discriminate|].
      split; [split; [intros _; eauto|reflexivity]|].
      intros url' code rhs text stream [= <-] H. rewrite Eup in H. discriminate.
    + split; [reflexivity|]. split; [lia|]. eexists. split; [reflexivity|].
      unfold range_response.
      destruct (truthy (header_range req)) as [range|]; cbn [status];
        (split; [split; discriminate|]); (split; [discriminate|]);
        (split; [split; [discriminate|
                         intros (url' & m & [= <-] & H); rewrite Eup in H; discriminate]|]);
        intros; reflexivity.
  - unfold send, emit. cbn [app fst snd fetched responses omap list_omap length].
    split; [reflexivity|]. split; [lia|]. eexists. split; [reflexivity|].
    cbn [status]. split; [split; reflexivity|]. split; [reflexivity|].
    split; [split; [discriminate|intros (? & ? & ? & _); discriminate]|].
    intros; discriminate.
Qed.

(** *** Every path of the handler of src/server.js *)

(** X18. Whatever the browser and the upstream do, the handler of
    src/server.js answers exactly once, with a 400 or a 500, and then
    throws [ReferenceError] out of its [finally] block: the promise of the
    handler is rejected on every request. *)
Theorem server_js_stream_always_rejects rt pp up req :
  fst (handle_api_stream_server rt pp up req) = Throw (js "response is not defined")
  /\ exists r, responses (snd (handle_api_stream_server rt pp up req)) = [r]
       /\ (status r = 400 \/ status r = 500).
Proof.
  run_server. walk; cbn [app fst snd]; (split; [reflexivity|]);
    cbn [responses omap list_omap]; eexists; (split; [reflexivity|]);
    cbn [status]; auto.
Qed.

End StreamFacts.

(** ** The range arithmetic of [/api/stream] *)

Module RangeFacts.
Import JsString Uri Runtime Effects Extract Stream Range Samples JsStringFacts.

(** *** Decimal numerals *)

Lemma digit_cases c : is_digit c = true ->
  c = 48 \/ c = 49 \/ c = 50 \/ c = 51 \/ c = 52 \/ c = 53 \/ c = 54 \/ c = 55 \/
  c = 56 \/ c = 57.
Proof.
  unfold is_digit. rewrite andb_true_iff, !N.leb_le. lia.
Qed.

Lemma numeral_digits d :
  Forall (fun c => is_digit c = true) (js (NilEmpty.string_of_uint d)).
Proof. induction d; cbn; constructor; (reflexivity || assumption). Qed.

Lemma numeral_value_acc d : forall acc,
  digits_value (Zpos acc) (js (NilEmpty.string_of_uint d))
  = Zpos (Pos.of_uint_acc d acc).
Proof.
  induction d; intros acc; cbn [NilEmpty.string_of_uint Pos.of_uint_acc];
    [reflexivity|..];
    change (js (String ?a ?s)) with (N_of_ascii a :: js s);
    cbn [digits_value N_of_ascii N.leb N.compare Pos.compare Pos.compare_cont andb
         N.sub Pos.sub];
    match goal with
    | |- context [digits_value ?z _] =>
        match goal with
        | |- _ = Zpos (Pos.of_uint_acc _ ?q) =>
            replace z with (Zpos q) by (cbn; lia)
        end
    end; apply IHd.
Qed.

Lemma numeral_value d :
  digits_value 0 (js (NilEmpty.string_of_uint d)) = Z.of_N (Pos.of_uint d).
Proof.
  induction d; cbn [NilEmpty.string_of_uint Pos.of_uint]; [reflexivity|..];
    change (js (String ?a ?s)) with (N_of_ascii a :: js s);
    cbn [digits_value N_of_ascii N.leb N.compare Pos.compare Pos.compare_cont andb
         N.sub Pos.sub];
    first [exact IHd | apply (numeral_value_acc d)].
Qed.

Lemma decimal_numeral n : decimal n = js (NilEmpty.string_of_uint (N.to_uint n)).
Proof.
  unfold decimal, NilZero.string_of_uint.
  destruct (N.to_uint n) eqn:E; try reflexivity.
  destruct n as [|p]; [discriminate|].
  exfalso. exact (DecimalPos.Unsigned.to_uint_nonnil p E).
Qed.

Lemma decimal_digits n : Forall (fun c => is_digit c = true) (decimal n).
Proof. rewrite decimal_numeral. apply numeral_digits. Qed.

Lemma decimal_nonempty n : decimal n <> [].
Proof.
  rewrite decimal_numeral. destruct (N.to_uint n) eqn:E; try discriminate.
  destruct n as [|p]; [discriminate|].
  exfalso. exact (DecimalPos.Unsigned.to_uint_nonnil p E).
Qed.

Lemma decimal_value n : digits_value 0 (decimal n) = Z.of_N n.
Proof.
  rewrite decimal_numeral, numeral_value.
  change (Pos.of_uint (N.to_uint n)) with (N.of_uint (N.to_uint n)).
  rewrite DecimalN.Unsigned.of_to. reflexivity.
Qed.

(** [parseInt] reads back what a number prints as. *)
Lemma parseInt10_decimal n : parseInt10 (decimal n) = Int (Z.of_N n).
Proof.
  pose proof (decimal_value n) as Hv. pose proof (decimal_digits n) as Hd.
  pose proof (decimal_nonempty n) as Hne.
  destruct (decimal n) as [|c s]; [congruence|].
  inversion Hd as [|? ? Hc _]; subst.
  unfold parseInt10.
  apply digit_cases in Hc.
  repeat (destruct Hc as [->|Hc]); try subst c;
    cbn [trimStart is_js_space N.leb N.eqb N.compare Pos.compare Pos.compare_cont
         Pos.eqb andb orb starts_with_digit];
    rewrite Hv; reflexivity.
Qed.

Lemma num_text_nonneg z : (0 <= z)%Z -> num_text (Int z) = decimal (Z.to_N z).
Proof. intros H. unfold num_text. destruct (Z.ltb_spec z 0); [lia|reflexivity]. Qed.

(** *** Cutting the header *)

Lemma split_go_unit c s : forall cur,
  split_go [c] s 0 cur =
    match split_unit c s with
    | h :: t => (rev cur ++ h) :: t
    | [] => [rev cur]
    end.
Proof.
  induction s as [|d s IH]; intros cur; cbn [split_go split_unit].
  - rewrite app_nil_r. reflexivity.
  - cbn [startsWith length Nat.sub]. rewrite andb_true_r, N.eqb_sym.
    pose proof (split_unit_nonempty c s) as Hne.
    destruct (N.eqb_spec d c) as [->|Hd].
    + rewrite IH, app_nil_r. destruct (split_unit c s); [congruence|reflexivity].
    + rewrite IH. destruct (split_unit c s) as [|h t]; [congruence|].
      cbn [rev]. rewrite <- app_assoc. reflexivity.
Qed.

(** Splitting at a separator of one code unit. *)
Lemma split_one_unit s c : split s [c] = split_unit c s.
Proof.
  unfold split. rewrite split_go_unit.
  pose proof (split_unit_nonempty c s). destruct (split_unit c s); [congruence|reflexivity].
Qed.

Lemma digits_hold_no c s :
  is_digit c = false -> Forall (fun d => is_digit d = true) s -> c ∉ s.
Proof.
  intros Hc Hs Hin. rewrite Forall_forall in Hs. apply Hs in Hin. congruence.
Qed.

Lemma range_parts a b :
  split (drop_bytes_eq (js "bytes=" ++ decimal a ++ js "-" ++ b)) (js "-")
  = decimal a :: split_unit 45 b.
Proof.
  change (drop_bytes_eq (js "bytes=" ++ decimal a ++ js "-" ++ b))
    with (decimal a ++ js "-" ++ b).
  change (js "-") with [45]. rewrite split_one_unit.
  apply split_unit_app, digits_hold_no; [reflexivity|apply decimal_digits].
Qed.

(** X17. The range code of part_000 lines 1243-1259 and src/server.js lines
    556-572, for every numeral the arithmetic is exact on. A closed range
    [bytes=a-b] is answered with [Content-Range: bytes a-b/undefined]
    and a [Content-Length] of [b - a + 1], which is negative or zero when
    [b] is below [a]; an open range [bytes=a-] is answered with
    [Content-Range: bytes a-NaN/undefined] and [Content-Length: NaN]; the
    status is 206 in both cases, whatever the upstream sent. *)
Theorem range_reply_arithmetic rhs stream :
  (forall a b, safe_integer a -> safe_integer b ->
     let r := range_response
                (Some (js "bytes=" ++ decimal a ++ js "-" ++ decimal b)) rhs stream in
     status r = 206 /\ res_body r = Piped stream
     /\ res_headers r !! js "Content-Range"
        = Some (js "bytes " ++ decimal a ++ js "-" ++ decimal b ++ js "/undefined")
     /\ res_headers r !! js "Content-Length"
        = Some (num_text (Int (Z.of_N b - Z.of_N a + 1)))
     /\ (a <= b ->
         res_headers r !! js "Content-Length" = Some (decimal (b - a + 1))))
  /\ (forall a, safe_integer a ->
        let r := range_response (Some (js "bytes=" ++ decimal a ++ js "-")) rhs stream in
        status r = 206 /\ res_body r = Piped stream
        /\ res_headers r !! js "Content-Range"
           = Some (js "bytes " ++ decimal a ++ js "-NaN/undefined")
        /\ res_headers r !! js "Content-Length" = Some (js "NaN")).
Proof.
  split.
  - intros a b _ _. cbv zeta. unfold range_response.
    change (truthy (Some (js "bytes=" ++ decimal a ++ js "-" ++ decimal b)))
      with (Some (js "bytes=" ++ decimal a ++ js "-" ++ decimal b)).
    cbv beta iota zeta. rewrite range_parts.
    rewrite split_unit_single
      by (apply digits_hold_no; [reflexivity|apply decimal_digits]).
    cbn [lookup list_lookup default from_option id].
    assert (Hb : truthy (Some (decimal b)) = Some (decimal b)).
    { pose proof (decimal_nonempty b). destruct (decimal b); [congruence|reflexivity]. }
    rewrite Hb, !parseInt10_decimal. cbn [num_sub num_add status res_body res_headers].
    split; [reflexivity|]. split; [reflexivity|].
    rewrite (num_text_nonneg (Z.of_N a)), (num_text_nonneg (Z.of_N b)) by lia.
    rewrite !N2Z.id.
    split; [|split].
    + rewrite lookup_insert_ne by discriminate. rewrite lookup_insert_eq. reflexivity.
    + rewrite lookup_insert_eq. reflexivity.
    + intros Hab. rewrite lookup_insert_eq. rewrite num_text_nonneg by lia.
      do 2 f_equal. lia.
  - intros a _. cbv zeta. unfold range_response.
    change (truthy (Some (js "bytes=" ++ decimal a ++ js "-")))
      with (Some (js "bytes=" ++ decimal a ++ js "-")).
    cbv beta iota zeta.
    rewrite <- (app_nil_r (js "bytes=" ++ decimal a ++ js "-")), <- !app_assoc.
    rewrite range_parts. cbn [split_unit lookup list_lookup default from_option id truthy falsy].
    rewrite parseInt10_decimal. cbn [num_sub num_add status res_body res_headers].
    split; [reflexivity|]. split; [reflexivity|].
    rewrite num_text_nonneg by lia. rewrite N2Z.id.
    change (num_text NaN) with (js "NaN").
    split.
    + rewrite lookup_insert_ne by discriminate. rewrite lookup_insert_eq. reflexivity.
    + rewrite lookup_insert_eq. reflexivity.
Qed.

End RangeFacts.

(** ** Every request to the extraction handlers is answered once *)

Module AnswerFacts.
Import JsString Uri Runtime Effects Extract Answers Samples EffectsFacts HandlerFacts
  ResolverClaims.
Local Open Scope js_scope.

Section Rules.
Context {L : Type}.

Lemma silent_quiet {A} (m : M L A) :
  (forall l tr, snd (m l tr) = tr) -> silent m.
Proof.
  intros H l tr. exists []. rewrite app_nil_r. split; [apply H|reflexivity].
Qed.

Lemma silent_ret {A} (a : A) : silent (ret (L := L) a).
Proof. apply silent_quiet. reflexivity. Qed.

Lemma silent_throw {A} e : silent (throw (L := L) (A := A) e).
Proof. apply silent_quiet. reflexivity. Qed.

Lemma silent_get : silent (get (L := L)).
Proof. apply silent_quiet. reflexivity. Qed.

Lemma silent_history : silent (history (L := L)).
Proof. apply silent_quiet. reflexivity. Qed.

Lemma silent_modify f : silent (modify (L := L) f).
Proof. apply silent_quiet. reflexivity. Qed.

Lemma silent_emit e : responses [e] = [] -> silent (emit (L := L) e).
Proof. intros He l tr. exists [e]. split; [reflexivity|exact He]. Qed.

Lemma silent_bind {A B} (m : M L A) (k : A -> M L B) :
  silent m -> (forall x, silent (k x)) -> silent (bind m k).
Proof.
  intros Hm Hk l tr. unfold bind.
  destruct (Hm l tr) as (evs & E & Hs).
  destruct (m l tr) as [[[x|e] l'] tr']; cbn [snd] in E; subst tr'.
  - destruct (Hk x l' (tr ++ evs)) as (evs' & E' & Hs').
    exists (evs ++ evs'). rewrite E', app_assoc. split; [reflexivity|].
    rewrite responses_app, Hs, Hs'. reflexivity.
  - exists evs. split; [reflexivity|exact Hs].
Qed.

Lemma silent_try_catch {A} (body : M L A) (h : jsstring -> M L A) :
  silent body -> (forall e, silent (h e)) -> silent (try_catch body h).
Proof.
  intros Hm Hk l tr. unfold try_catch.
  destruct (Hm l tr) as (evs & E & Hs).
  destruct (body l tr) as [[[x|e] l'] tr']; cbn [snd] in E; subst tr'.
  - exists evs. split; [reflexivity|exact Hs].
  - destruct (Hk e l' (tr ++ evs)) as (evs' & E' & Hs').
    exists (evs ++ evs'). rewrite E', app_assoc. split; [reflexivity|].
    rewrite responses_app, Hs, Hs'. reflexivity.
Qed.

End Rules.

Lemma silent_close_page {L} again p : silent (close_page (L := L) again p).
Proof.
  unfold close_page. apply silent_bind; [apply silent_history|]. intros tr.
  destruct (existsb (closes_page p) tr); [destruct again|];
    first [apply silent_throw|apply silent_emit; reflexivity].
Qed.

Lemma silent_close_current again : silent (close_current again).
Proof.
  unfold close_current. apply silent_bind; [apply silent_get|]. intros l.
  destruct (Extract.page l); [apply silent_close_page|apply silent_ret].
Qed.

Section Loop.
Context (env : browser_env) (targetUrl : jsstring) (isMovie : bool).

Lemma silent_try_source s : silent (try_source env targetUrl isMovie s).
Proof.
  unfold try_source. apply silent_try_catch.
  2:{ intros _. apply silent_bind; [apply silent_close_current|].
      intros _. apply silent_ret. }
  destruct (source_url targetUrl isMovie s) as [sourceUrl|]; [|apply silent_ret].
  destruct (visit env sourceUrl) as [m|m|m|requests]; [apply silent_throw|..];
    (apply silent_bind; [apply silent_history|]; intros tr;
     apply silent_bind; [apply silent_emit; reflexivity|]; intros _;
     apply silent_bind; [apply silent_modify|]; intros _).
  - apply silent_throw.
  - apply silent_bind; [apply silent_emit; reflexivity|]. intros _. apply silent_throw.
  - apply silent_bind; [apply silent_emit; reflexivity|]. intros _.
    destruct (select_captured (on_requests requests).1).
    + apply silent_bind; [apply silent_modify|]. intros _. apply silent_ret.
    + apply silent_bind; [apply silent_close_current|]. intros _. apply silent_ret.
Qed.

(** The loop over the sources writes nothing to the response. *)
Lemma silent_for_sources sources : silent (for_sources env targetUrl isMovie sources).
Proof.
  induction sources as [|s sources IH]; [apply silent_ret|].
  cbn [for_sources]. apply silent_bind; [apply silent_try_source|].
  intros [|]; [apply silent_ret|exact IH].
Qed.

End Loop.

Lemma send_run {L} code j (l : L) tr :
  send code j l tr = (Ok tt, l, tr ++ [Send (reply code j)]).
Proof. reflexivity. Qed.

(** The body of the [try] block: it answers once and returns, or throws
    before it has answered. *)
Lemma extract_stream_body rt env query :
  exists o l tr,
    match truthy query with
    | None => send 400 (error_body "URL parameter is required")
    | Some targetUrl =>
        let isMovie := includes targetUrl (js "/movie/") in
        let isTV := includes targetUrl (js "/tv/") in
        if negb isMovie && negb isTV then
          send 400 (error_body "Invalid URL format. Must be movie or TV show URL.")
        else
          for_sources env targetUrl isMovie SOURCES;;
          l <- get;;
          match streamUrl l with
          | None => send 404 exhausted_body
          | Some found =>
              u <- absolutize rt targetUrl found;;
              send 200 (success_body targetUrl u isTV)
          end
    end {| Extract.page := None; streamUrl := None |} [] = (o, l, tr) /\
  match o with
  | Ok _ =>
      exists code j, responses tr = [reply code j]
        /\ (code = 200 \/ code = 400 \/ code = 404)
        /\ (code = 400 <-> rejected query)
  | Throw _ => responses tr = [] /\ ~ rejected query
  end.
Proof.
  unfold rejected. destruct (truthy query) as [targetUrl|].
  2:{ rewrite send_run. do 3 eexists. split; [reflexivity|].
      exists 400, (error_body "URL parameter is required").
      split; [reflexivity|]. split; [auto|]. tauto. }
  cbv zeta.
  destruct (negb (includes targetUrl (js "/movie/")) &&
            negb (includes targetUrl (js "/tv/"))) eqn:Ekind.
  { rewrite send_run. do 3 eexists. split; [reflexivity|].
    eexists 400, _. split; [reflexivity|]. split; [auto|].
    apply andb_true_iff in Ekind as [H1 H2].
    apply negb_true_iff in H1, H2. tauto. }
  assert (Hnot : ~ (includes targetUrl (js "/movie/") = false /\
                    includes targetUrl (js "/tv/") = false)).
  { intros [H1 H2]. rewrite H1, H2 in Ekind. discriminate. }
  unfold bind.
  destruct (silent_for_sources env targetUrl (includes targetUrl (js "/movie/"))
              SOURCES {| Extract.page := None; streamUrl := None |} [])
    as (evs & E & Hs).
  destruct (for_sources env targetUrl _ SOURCES _ []) as [[[[]|m] l1] tr1];
    cbn [snd app] in E; subst tr1;
    [|do 3 eexists; split; [reflexivity|]; split; assumption].
  unfold get. destruct (streamUrl l1) as [found|].
  2:{ rewrite send_run. do 3 eexists. split; [reflexivity|].
      rewrite responses_app, Hs. exists 404, exhausted_body.
      split; [reflexivity|]. split; [auto|]. split; [discriminate|tauto]. }
  unfold absolutize, attempt, bind, ret, throw.
  destruct (startsWith found (js "//")).
  { rewrite send_run. do 3 eexists. split; [reflexivity|].
    rewrite responses_app, Hs. eexists 200, _.
    split; [reflexivity|]. split; [auto|]. split; [discriminate|tauto]. }
  destruct (startsWith found (js "/")).
  2:{ rewrite send_run. do 3 eexists. split; [reflexivity|].
      rewrite responses_app, Hs. eexists 200, _.
      split; [reflexivity|]. split; [auto|]. split; [discriminate|tauto]. }
  destruct (URL_origin rt targetUrl);
    [|do 3 eexists; split; [reflexivity|]; split; assumption].
  rewrite send_run. do 3 eexists. split; [reflexivity|].
  rewrite responses_app, Hs. eexists 200, _.
  split; [reflexivity|]. split; [auto|]. split; [discriminate|tauto].
Qed.

(** A request that is not attempted is answered 400 and nothing else
    happens. *)
Lemma extract_stream_rejected rt env query :
  rejected query ->
  exists j, handle_extract_stream rt env query = (Ok tt, [Send (reply 400 j)]).
Proof.
  unfold rejected, handle_extract_stream, run, extract_stream.
  destruct (truthy query) as [targetUrl|].
  - intros [-> ->]. cbn [negb andb]. eexists. reflexivity.
  - intros _. eexists. reflexivity.
Qed.

(** X5. Whatever the browser does, the multi-source handler of part_000
    answers every request exactly once, with status 200, 400, 404 or 500,
    and never throws. The status is 400 exactly when [url] is missing or
    empty or holds neither [/movie/] nor [/tv/], and then the handler has
    done nothing else: no page was opened. *)
Theorem extract_stream_answers_exactly_once rt env query :
  fst (handle_extract_stream rt env query) = Ok tt
  /\ exists r,
       responses (snd (handle_extract_stream rt env query)) = [r]
       /\ (status r = 200 \/ status r = 400 \/ status r = 404 \/ status r = 500)
       /\ (status r = 400 <-> rejected query)
       /\ (status r = 400 -> snd (handle_extract_stream rt env query) = [Send r]).
Proof.
  assert (H : fst (handle_extract_stream rt env query) = Ok tt
    /\ exists r,
       responses (snd (handle_extract_stream rt env query)) = [r]
       /\ (status r = 200 \/ status r = 400 \/ status r = 404 \/ status r = 500)
       /\ (status r = 400 <-> rejected query)).
  { unfold handle_extract_stream, run, extract_stream.
    destruct (extract_stream_body rt env query) as (o & l1 & tr1 & E & Hbody).
    match goal with
    | |- context [try_finally (try_catch ?b _) _] =>
        change (b {| Extract.page := None; streamUrl := None |} [] = (o, l1, tr1)) in E
    end.
    unfold try_finally, try_catch. rewrite E.
    destruct o as [[]|m].
    - destruct Hbody as (code & j & Hr & Hcode & Hiff).
      destruct (close_current_quietly_run (reclose env) l1 tr1)
        as (closing & -> & Hc & _).
      cbn [fst snd]. split; [reflexivity|]. exists (reply code j).
      rewrite responses_app, Hr, Hc. split; [reflexivity|].
      cbn [reply status]. split; [tauto|exact Hiff].
    - destruct Hbody as (Hr & Hnot). rewrite send_run.
      destruct (close_current_quietly_run (reclose env) l1
                  (tr1 ++ [Send (reply 500
                     (JObj [(js "error", JStr (js "Failed to extract stream URL"));
                            (js "details", JStr m)]))]))
        as (closing & -> & Hc & _).
      cbn [fst snd]. split; [reflexivity|]. eexists.
      rewrite !responses_app, Hr, Hc. split; [reflexivity|].
      cbn [reply status]. split; [auto|]. split; [discriminate|tauto]. }
  destruct H as (Ho & r & Hr & Hs & Hiff).
  split; [exact Ho|]. exists r. repeat split; try assumption; try apply Hiff.
  intros H400. apply Hiff in H400.
  destruct (extract_stream_rejected rt env query H400) as (j & E).
  rewrite E in Hr |- *. cbn [snd] in *. cbn in Hr. congruence.
Qed.

Ltac step_match :=
  match goal with
  | |- context [match ?x with _ => _ end] =>
      match x with
      | context [match _ with _ => _ end] => fail 1
      | _ => destruct x eqn:?
      end
  end.

(** X7. Whatever the page does, the single-page handler of src/server.js
    answers every request exactly once, with status 200, 400, 404 or 500,
    and never throws; the status is 400 exactly when [url] is missing or
    empty, and then no page was opened. *)
Theorem extract_stream_single_answers_exactly_once rt world query :
  fst (handle_extract_stream_single rt world query) = Ok tt
  /\ exists r,
       responses (snd (handle_extract_stream_single rt world query)) = [r]
       /\ (status r = 200 \/ status r = 400 \/ status r = 404 \/ status r = 500)
       /\ (status r = 400 <-> truthy query = None)
       /\ (status r = 400 ->
           snd (handle_extract_stream_single rt world query) = [Send r]).
Proof.
  unfold handle_extract_stream_single, run, extract_stream_single.
  unfold close_current_quietly, close_current, close_page, absolutize, unless, lift,
    attempt, send, set_page.
  unfold try_finally, try_catch, bind, emit, history, get, modify, ret, throw.
  cbv beta iota zeta.
  repeat (step_match; cbv beta iota zeta; cbn [Extract.page streamUrl]);
    cbn [app fst snd]; (split; [reflexivity|]);
    cbn [responses omap list_omap]; eexists; (split; [reflexivity|]);
    cbn [status]; (split; [auto 6|]);
    (split; [split; (reflexivity || discriminate)|]);
    first [reflexivity | discriminate].
Qed.

Ltac run_single :=
  unfold handle_extract_stream_single, run, extract_stream_single;
  unfold close_current_quietly, close_current, close_page, absolutize, unless, lift,
    attempt, send, set_page;
  unfold try_finally, try_catch, bind, emit, history, get, modify, ret, throw;
  cbv beta iota zeta.

Lemma truthy_inv v u : truthy v = Some u -> v = Some u.
Proof. destruct v as [[|c s]|]; cbn; congruence. Qed.

Lemma truthy_nonempty u : u <> [] -> truthy (Some u) = Some u.
Proof. destruct u; [congruence|reflexivity]. Qed.

(** X9. The single-page handler of src/server.js decides in three tiers. A
    URL captured from the network is answered without the page being
    scanned: neither the result of the scan nor a failure of it matters.
    With nothing captured, the URL the scan selects is answered whatever
    the last-resort pattern finds, and a scan that throws is answered
    with a 500 even when that pattern would find a URL. In every case the
    page is opened, navigated, answered for and closed, in that order. *)
Theorem single_page_tiers rt world url r :
  url <> [] -> world url = Rendered r -> content_error r = None ->
  let c := fst (on_requests (seen r)) in
  (forall u, select_captured c = Some u -> u <> [] -> startsWith u (js "/") = false ->
     handle_extract_stream_single rt world (Some url)
     = (Ok tt, [NewPage 0; Goto 0 (Some url);
                Send (reply 200 (single_success_body url u c)); ClosePage 0]))
  /\ (forall cands u,
        select_captured c = None -> videoSources r = Ok cands ->
        pick_source rt url cands = Ok (Some u) ->
        u <> [] -> startsWith u (js "/") = false ->
        handle_extract_stream_single rt world (Some url)
        = (Ok tt, [NewPage 0; Goto 0 (Some url);
                   Send (reply 200 (single_success_body url u c)); ClosePage 0]))
  /\ (forall message,
        select_captured c = None -> videoSources r = Throw message ->
        handle_extract_stream_single rt world (Some url)
        = (Ok tt, [NewPage 0; Goto 0 (Some url);
                   Send (reply 500
                     (JObj [(js "error", JStr (js "Failed to extract stream URL"));
                            (js "details", JStr message)]));
                   ClosePage 0]))
  /\ (forall cands,
        select_captured c = None -> videoSources r = Ok cands ->
        pick_source rt url cands = Ok None -> truthy (html_fallback r) = None ->
        handle_extract_stream_single rt world (Some url)
        = (Ok tt, [NewPage 0; Goto 0 (Some url);
                   Send (reply 404 (not_found_body c)); ClosePage 0])).
Proof.
  intros Hurl Hworld Hcontent c.
  assert (Hq : truthy (Some url) = Some url) by (apply truthy_nonempty, Hurl).
  assert (Hslash : forall u, startsWith u (js "/") = false ->
                   startsWith u (js "//") = false).
  { intros u Hu. destruct (startsWith u (js "//")) eqn:E; [|reflexivity].
    apply JsStringFacts.startsWith_spec in E as [t ->]. discriminate Hu. }
  repeat split.
  - intros u Hsel Hu Hs. run_single. rewrite Hq, Hworld, Hcontent.
    fold c. rewrite Hsel, !(truthy_nonempty u Hu), (Hslash u Hs), Hs. reflexivity.
  - intros cands u Hsel Hscan Hpick Hu Hs. run_single. rewrite Hq, Hworld, Hcontent.
    fold c. rewrite Hsel, Hscan. cbn [truthy]. rewrite Hpick.
    rewrite !(truthy_nonempty u Hu), (Hslash u Hs), Hs. reflexivity.
  - intros message Hsel Hscan. run_single. rewrite Hq, Hworld, Hcontent.
    fold c. rewrite Hsel, Hscan. reflexivity.
  - intros cands Hsel Hscan Hpick Hhtml. run_single. rewrite Hq, Hworld, Hcontent.
    fold c. rewrite Hsel, Hscan. cbn [truthy]. rewrite Hpick. cbn [truthy].
    rewrite Hhtml. reflexivity.
Qed.

(** X9 at an example: a page that requests nothing and shows one [video]
    element: the scan decides. *)
Lemma single_page_tiers_witness :
  handle_extract_stream_single sample_runtime page_with_video
    (Some (js "https://vidlink.pro/movie/786892"))
  = (Ok tt, [NewPage 0; Goto 0 (Some (js "https://vidlink.pro/movie/786892"));
             Send (reply 200 (single_success_body (js "https://vidlink.pro/movie/786892")
                                (js "https://cdn.example/a.mp4") no_capture));
             ClosePage 0]).
Proof.
  apply (proj1 (proj2 (single_page_tiers sample_runtime page_with_video
                         (js "https://vidlink.pro/movie/786892")
                         {| seen := []; content_error := None;
                            videoSources := Ok [video "//cdn.example/a.mp4"];
                            html_fallback := None |}
                         ltac:(discriminate) eq_refl eq_refl))
           [video "//cdn.example/a.mp4"] (js "https://cdn.example/a.mp4"));
    (reflexivity || discriminate).
Defined.

(** X20. The handler of [/api/extract] in src/README.md answers every request
    exactly once and never throws, and the response is the last thing it
    does: a browser it launched is closed before the response is sent, on
    every path. A 200 carries the URL of the first response that looked
    like a stream, or, when there was none, the first [src] of the page
    that does; the status is 400 exactly when [url] is missing or
    empty. *)
Theorem readme_extract_answers_after_closing w query :
  fst (Readme.handle_extract w query) = Ok tt
  /\ exists before r,
       snd (Readme.handle_extract w query) = before ++ [Send r]
       /\ responses before = []
       /\ (forall b, b ∈ launched before -> b ∈ closed_browsers before)
       /\ (status r = 200 \/ status r = 400 \/ status r = 404 \/ status r = 500)
       /\ (status r = 400 <-> truthy query = None)
       /\ (status r = 200 ->
           exists u, res_body r = Json (JObj [(js "stream", JStr u)])
             /\ (truthy (Readme.first_stream (Readme.responses_seen w)) = Some u
                 \/ (truthy (Readme.first_stream (Readme.responses_seen w)) = None
                     /\ exists srcs, Readme.element_sources w = Ok srcs
                          /\ head (Readme.stream_sources srcs) = Some u))).
Proof.
  unfold Readme.handle_extract, run, Readme.extract.
  unfold Readme.close_browser, Readme.keep_browser, unless, lift, send.
  unfold try_catch, bind, emit, history, get, modify, ret, throw.
  cbv beta iota zeta.
  repeat (step_match; cbv beta iota zeta);
    cbn [app fst snd]; (split; [reflexivity|]);
    match goal with
    | |- context [@eq (list event) ?tr] => exists (removelast tr)
    end;
    cbn [removelast]; eexists;
    (split; [reflexivity|]); (split; [reflexivity|]);
    (split; [intros b' Hb;
             cbn [launched closed_browsers omap list_omap] in *;
             first [exact Hb | inversion Hb]|]);
    cbn [status res_body]; (split; [auto 6|]);
    (split; [split; (reflexivity || discriminate)|]);
    try discriminate;
    intros _; eexists; (split; [reflexivity|]);
    repeat match goal with
           | H : truthy _ = Some _ |- _ => apply truthy_inv in H
           end;
    try match goal with
        | H : Some _ = Some _ |- _ => injection H as ->
        end;
    eauto 10.
Qed.

End AnswerFacts.

(** ** How a target is parsed and re-issued to the sources *)

Module TargetFacts.
Import JsString Uri Runtime Effects Extract Range Samples JsStringFacts
  VideoProxyFacts RangeFacts.

(** *** [split] at a separator of several code units *)

Lemma startsWith_take p : forall s n,
  (length p <= n)%nat -> startsWith s p = true -> startsWith (take n s) p = true.
Proof.
  induction p as [|a p IH]; intros s n Hn H; [reflexivity|].
  destruct s as [|d s]; [discriminate|]. cbn [length] in Hn.
  destruct n as [|n]; [lia|]. cbn [take startsWith] in *.
  apply andb_true_iff in H as [H1 H2]. rewrite H1. apply IH; [lia|exact H2].
Qed.

(** No match starts in [x] when [x], followed by as much of [z] as a
    match that starts in [x] can reach, does not hold the separator. *)
Lemma no_match_inside sep c x z :
  includes ((c :: x) ++ take (length sep - 1) z) sep = false ->
  startsWith ((c :: x) ++ z) sep = false.
Proof.
  intros H. destruct (startsWith ((c :: x) ++ z) sep) eqn:E; [|reflexivity].
  apply (startsWith_take sep _ (length (c :: x) + (length sep - 1))) in E.
  - rewrite take_app_add in E. cbn [app includes] in H.
    apply orb_false_iff in H as [H _]. cbn [app] in E. congruence.
  - cbn [length]. lia.
Qed.

Lemma split_go_scan sep x : forall z cur,
  includes (x ++ take (length sep - 1) z) sep = false ->
  split_go sep (x ++ z) 0 cur = split_go sep z 0 (rev x ++ cur).
Proof.
  induction x as [|c x IH]; intros z cur H; [reflexivity|].
  pose proof (no_match_inside sep c x z H) as Hno.
  cbn [app] in *. cbn [split_go]. rewrite Hno.
  cbn [includes] in H. apply orb_false_iff in H as [_ H].
  rewrite (IH z (c :: cur) H). cbn [rev]. rewrite <- app_assoc. reflexivity.
Qed.

Lemma split_go_skipn sep w : forall y cur,
  split_go sep (w ++ y) (length w) cur = split_go sep y 0 cur.
Proof. induction w as [|c w IH]; intros y cur; [destruct y; reflexivity|apply IH]. Qed.

Lemma split_go_match sep y cur :
  sep <> [] -> split_go sep (sep ++ y) 0 cur = rev cur :: split_go sep y 0 [].
Proof.
  destruct sep as [|c sep]; [congruence|]. intros _.
  cbn [app split_go]. change (c :: sep ++ y) with ((c :: sep) ++ y).
  rewrite startsWith_app. cbn [length Nat.sub]. rewrite Nat.sub_0_r.
  rewrite split_go_skipn. reflexivity.
Qed.

(** The first piece of a split ends where the separator first occurs. *)
Lemma split_first sep pre y :
  sep <> [] ->
  includes (pre ++ take (length sep - 1) (sep ++ y)) sep = false ->
  split (pre ++ sep ++ y) sep = pre :: split y sep.
Proof.
  intros Hsep H. unfold split.
  rewrite split_go_scan by exact H. rewrite split_go_match by exact Hsep.
  rewrite app_nil_r, rev_involutive. reflexivity.
Qed.

Lemma split_go_head sep s : forall cur,
  exists p tl, split_go sep s 0 cur = (rev cur ++ p) :: tl.
Proof.
  induction s as [|c s IH]; intros cur; cbn [split_go].
  - exists [], []. rewrite app_nil_r. reflexivity.
  - destruct (startsWith (c :: s) sep).
    + exists [], (split_go sep s (length sep - 1) []). rewrite app_nil_r. reflexivity.
    + destruct (IH (c :: cur)) as (p & tl & ->). exists (c :: p), tl.
      cbn [rev]. rewrite <- app_assoc. reflexivity.
Qed.

(** Code units other than the first of the separator are passed over. *)
Lemma split_go_avoid a sep x : forall z cur,
  a ∉ x -> split_go (a :: sep) (x ++ z) 0 cur = split_go (a :: sep) z 0 (rev x ++ cur).
Proof.
  induction x as [|c x IH]; intros z cur Hx; [reflexivity|].
  apply not_elem_of_cons in Hx as [Hc Hx].
  cbn [app split_go startsWith].
  destruct (N.eqb_spec a c) as [->|_]; [congruence|]. cbn [andb].
  rewrite (IH z (c :: cur) Hx). cbn [rev]. rewrite <- app_assoc. reflexivity.
Qed.

Lemma includes_app p : forall a b, includes (a ++ p ++ b) p = true.
Proof.
  induction a as [|c a IH]; intros b; cbn [app].
  - destruct (p ++ b) eqn:E; cbn [includes]; rewrite <- ?E, startsWith_app; reflexivity.
  - cbn [includes]. rewrite IH. apply orb_true_r.
Qed.

(** *** Movies *)

(** X3. The text between the first [/movie/] of the target and the next
    ['?'] is taken as the identifier, and each source is asked for the
    movie of that identifier: the query string of the target is dropped,
    and the first source gets [?nextbutton=true] whatever the target
    had. *)
Theorem movie_target_is_reissued_to_each_source pre id rest :
  includes (pre ++ js "/movie") (js "/movie/") = false ->
  id <> [] -> 47 ∉ id -> 63 ∉ id ->
  (rest = [] \/ exists q, rest = 63 :: q) ->
  let targetUrl := pre ++ js "/movie/" ++ id ++ rest in
  includes targetUrl (js "/movie/") = true
  /\ movie_id targetUrl = Some id
  /\ planned targetUrl (includes targetUrl (js "/movie/")) SOURCES
     = [js "https://vidlink.pro/movie/" ++ id ++ js "?nextbutton=true";
        js "https://moviesapi.to/movie/" ++ id].
Proof.
  intros Hpre Hid Hslash Hquery Hrest. cbv zeta.
  assert (Hinc : includes (pre ++ js "/movie/" ++ id ++ rest) (js "/movie/") = true)
    by apply includes_app.
  assert (Hmid : movie_id (pre ++ js "/movie/" ++ id ++ rest) = Some id).
  { unfold movie_id. rewrite split_first; [|discriminate|exact Hpre].
    assert (Hpart : exists p tl,
              split (id ++ rest) (js "/movie/") = (id ++ p) :: tl
              /\ (p = [] \/ exists q, p = 63 :: q)).
    { unfold split. change (js "/movie/") with (47 :: js "movie/").
      destruct Hrest as [->|[q ->]].
      - rewrite (split_go_avoid 47 (js "movie/") id [] [] Hslash).
        exists [], []. cbn [split_go]. rewrite !app_nil_r, rev_involutive. auto.
      - change (id ++ 63 :: q) with (id ++ [63] ++ q). rewrite app_assoc.
        rewrite (split_go_avoid 47 (js "movie/") (id ++ [63]) q []).
        2:{ rewrite not_elem_of_app. split; [exact Hslash|].
            apply not_elem_of_cons. split; [discriminate|apply not_elem_of_nil]. }
        destruct (split_go_head (47 :: js "movie/") q (rev (id ++ [63]) ++ []))
          as (p & tl & ->).
        exists (63 :: p), tl. rewrite app_nil_r, rev_involutive, <- app_assoc. eauto. }
    destruct Hpart as (p & tl & -> & Hp).
    change (js "?") with [63]. rewrite split_one_unit.
    destruct Hp as [->|[q ->]].
    - rewrite app_nil_r, split_unit_single by exact Hquery. reflexivity.
    - rewrite split_unit_app by exact Hquery. reflexivity. }
  split; [exact Hinc|]. split; [exact Hmid|].
  rewrite Hinc. unfold planned, SOURCES, source_url. rewrite Hmid.
  destruct id as [|c id']; [congruence|]. reflexivity.
Qed.

(** X3 at an example: a movie page of the first source, with a query string. *)
Lemma movie_target_is_reissued_to_each_source_witness :
  planned (js "https://vidlink.pro/movie/786892?autoplay=1")
    (includes (js "https://vidlink.pro/movie/786892?autoplay=1") (js "/movie/"))
    SOURCES
  = [js "https://vidlink.pro/movie/786892?nextbutton=true";
     js "https://moviesapi.to/movie/786892"].
Proof.
  destruct (movie_target_is_reissued_to_each_source
              (js "https://vidlink.pro") (js "786892") (js "?autoplay=1"))
    as (_ & _ & H).
  - reflexivity.
  - discriminate.
  - by_computation.
  - by_computation.
  - right. eexists. reflexivity.
  - exact H.
Defined.

(** *** Series *)

Lemma tv_match_unfold s :
  tv_match s =
    match tv_match_here s with
    | Some m => Some m
    | None => match s with [] => None | _ :: s' => tv_match s' end
    end.
Proof. destruct s; reflexivity. Qed.

Lemma tv_match_scan z pre :
  includes (pre ++ take 3 z) (js "/tv/") = false ->
  tv_match (pre ++ z) = tv_match z.
Proof.
  induction pre as [|c pre IH]; intros H; [reflexivity|].
  pose proof (no_match_inside (js "/tv/") c pre z H) as Hno.
  rewrite tv_match_unfold. unfold tv_match_here.
  rewrite (StreamFacts.strip_prefix_none _ _ Hno). cbn [mbind option_bind app].
  cbn [app includes] in H. apply orb_false_iff in H as [_ H]. apply IH, H.
Qed.

Lemma span_digits_app d : forall r,
  Forall (fun c => is_digit c = true) d ->
  (r = [] \/ exists c q, r = c :: q /\ is_digit c = false) ->
  span_digits (d ++ r) = (d, r).
Proof.
  induction d as [|c d IH]; intros r Hd Hr.
  - destruct Hr as [->|(c & q & -> & Hc)]; [reflexivity|].
    cbn [app span_digits]. rewrite Hc. reflexivity.
  - inversion Hd as [|? ? Hc Hd']; subst. cbn [app span_digits].
    rewrite Hc, (IH r Hd' Hr). reflexivity.
Qed.

Lemma digits_then_app next d r :
  numeral d ->
  (next ++ r = [] \/ exists c q, next ++ r = c :: q /\ is_digit c = false) ->
  digits_then next (d ++ next ++ r) = Some (d, r).
Proof.
  intros [Hne Hd] Hr. unfold digits_then.
  rewrite (span_digits_app d (next ++ r) Hd Hr).
  destruct d as [|c d]; [congruence|]. cbn [falsy].
  rewrite strip_prefix_app. reflexivity.
Qed.

(** X4. The first [/tv/] of the target that is followed by three numerals
    separated by ['/'] gives the show, the season and the episode, and
    each source is asked for that episode in its own URL shape; whatever
    follows the episode number in the target is dropped. *)
Theorem tv_target_is_reissued_to_each_source pre tvId season episode rest :
  includes (pre ++ js "/tv") (js "/tv/") = false ->
  numeral tvId -> numeral season -> numeral episode ->
  (rest = [] \/ exists c q, rest = c :: q /\ is_digit c = false) ->
  let targetUrl :=
    pre ++ js "/tv/" ++ tvId ++ js "/" ++ season ++ js "/" ++ episode ++ rest in
  tv_match targetUrl = Some (tvId, season, episode)
  /\ (includes targetUrl (js "/movie/") = false ->
      planned targetUrl (includes targetUrl (js "/movie/")) SOURCES
      = [js "https://vidlink.pro/tv/" ++ tvId ++ js "/" ++ season ++ js "/"
           ++ episode ++ js "?nextbutton=true";
         js "https://moviesapi.to/tv/" ++ tvId ++ js "-" ++ season ++ js "-"
           ++ episode]).
Proof.
  intros Hpre HtvId Hseason Hepisode Hrest. cbv zeta.
  assert (Hm : tv_match (pre ++ js "/tv/" ++ tvId ++ js "/" ++ season ++ js "/"
                           ++ episode ++ rest) = Some (tvId, season, episode)).
  { rewrite tv_match_scan by exact Hpre.
    rewrite tv_match_unfold. unfold tv_match_here.
    rewrite strip_prefix_app. cbn [mbind option_bind].
    rewrite (digits_then_app (js "/") tvId _ HtvId)
      by (right; do 2 eexists; split; reflexivity).
    cbn [mbind option_bind].
    rewrite (digits_then_app (js "/") season _ Hseason)
      by (right; do 2 eexists; split; reflexivity).
    cbn [mbind option_bind].
    pose proof (digits_then_app [] episode rest Hepisode Hrest) as He.
    cbn [app] in He. rewrite He. reflexivity. }
  split; [exact Hm|]. intros Hmovie.
  rewrite Hmovie. unfold planned, SOURCES, source_url. rewrite Hm. reflexivity.
Qed.

(** X4 at an example: an episode page of the first source. *)
Lemma tv_target_is_reissued_to_each_source_witness :
  tv_match (js "https://vidlink.pro/tv/1399/1/2?autoplay=1")
  = Some (js "1399", js "1", js "2").
Proof.
  destruct (tv_target_is_reissued_to_each_source
              (js "https://vidlink.pro") (js "1399") (js "1") (js "2")
              (js "?autoplay=1")) as (H & _).
  - reflexivity.
  - split; [discriminate|repeat constructor].
  - split; [discriminate|repeat constructor].
  - split; [discriminate|repeat constructor].
  - right. do 2 eexists. split; reflexivity.
  - exact H.
Defined.

End TargetFacts.

(** ** The simple [/api/video-proxy] of part_000 *)

Module SimpleProxyFacts.
Import JsString Uri Runtime VideoProxy SimpleProxy MoreSamples.

Lemma forwarded_has_no_content_range rhs :
  forwarded rhs !! js "Content-Range" = None.
Proof.
  unfold forwarded, copy_header.
  destruct (truthy (rhs !! js "accept-ranges")),
           (truthy (rhs !! js "content-length")),
           (truthy (rhs !! js "content-type"));
    repeat rewrite lookup_insert_ne by discriminate; reflexivity.
Qed.

(** X19. The simple proxy never forwards [Range]: the upstream request is the
    same whatever the client asks for. Once the upstream has answered,
    its body is piped as it is and its status is relayed, error statuses
    included, with one exception: a 200 to a request that had a [Range]
    header is relabelled 206 and given a [Content-Range], the upstream's
    if it sent one and otherwise the requested range over an unknown
    total. On every other path the response has no [Content-Range], even
    when the upstream sent one. *)
Theorem simple_proxy_relabels_ranged_requests up req url code rhs text stream :
  truthy (query_url req) = Some url ->
  up url upstream_headers = Reply code rhs text stream ->
  let r := simple_video_proxy up req in
  upstream_headers !! js "Range" = None
  /\ res_body r = Piped stream
  /\ (truthy (header_range req) = None -> status r = code)
  /\ (code <> 200 -> status r = code)
  /\ (forall range, truthy (header_range req) = Some range -> code = 200 ->
        status r = 206
        /\ res_headers r !! js "Content-Range"
           = Some (or_else (rhs !! js "content-range")
                     (js "bytes " ++ Stream.drop_bytes_eq range ++ js "/*")))
  /\ (truthy (header_range req) = None \/ code <> 200 ->
        res_headers r !! js "Content-Range" = None).
Proof.
  intros Hurl Hup. cbv zeta. unfold simple_video_proxy. rewrite Hurl, Hup.
  split; [reflexivity|].
  destruct (truthy (header_range req)) as [range|] eqn:Erange.
  - destruct (N.eqb_spec code 200) as [->|Hcode]; cbn [status res_body res_headers].
    + split; [reflexivity|]. split; [discriminate|]. split; [congruence|].
      split.
      * intros range' [= <-] _. split; [reflexivity|]. apply lookup_insert_eq.
      * intros [H|H]; congruence.
    + split; [reflexivity|]. split; [discriminate|]. split; [reflexivity|].
      split; [congruence|]. intros _. apply forwarded_has_no_content_range.
  - cbn [status res_body res_headers].
    split; [reflexivity|]. split; [reflexivity|]. split; [reflexivity|].
    split; [discriminate|]. intros _. apply forwarded_has_no_content_range.
Qed.

(** X19 at an example: a request for the second hundred bytes of a file
    whose origin ignores [Range]: the whole file is piped, labelled
    206. *)
Lemma simple_proxy_relabels_ranged_requests_witness :
  status (simple_video_proxy whole_file_origin
            {| query_url := Some (js "https://cdn.example/v.mp4");
               query_referer := None;
               header_range := Some (js "bytes=100-199") |}) = 206
  /\ res_headers (simple_video_proxy whole_file_origin
            {| query_url := Some (js "https://cdn.example/v.mp4");
               query_referer := None;
               header_range := Some (js "bytes=100-199") |}) !! js "Content-Range"
     = Some (js "bytes 100-199/*").
Proof.
  destruct (simple_proxy_relabels_ranged_requests whole_file_origin
              {| query_url := Some (js "https://cdn.example/v.mp4");
                 query_referer := None;
                 header_range := Some (js "bytes=100-199") |}
              (js "https://cdn.example/v.mp4") 200
              (list_to_map [(js "content-type", js "video/mp4");
                            (js "content-length", js "1000")]) [] 0%nat
              eq_refl eq_refl) as (_ & _ & _ & _ & H & _).
  exact (H (js "bytes=100-199") eq_refl eq_refl).
Defined.

End SimpleProxyFacts.

(** ** [/api/video-proxy] of src/README.md *)

Module ReadmeProxyFacts.
Import JsString Uri Runtime ReadmeProxy MoreSamples Samples JsStringFacts UriFacts
  VideoProxyFacts.

Section Rewrite.
Context (rt : runtime).

Lemma readme_line_no_LF target referer line out :
  LF ∉ line -> rewrite_line rt target referer line = Some out -> LF ∉ out.
Proof.
  intros Hline. assert (Htrim : LF ∉ trim line).
  { intros H. apply Hline, trim_elem, H. }
  unfold rewrite_line.
  destruct (falsy (trim line) || startsWith (trim line) (js "#"));
    [intros H; apply (inj Some) in H; subst out; exact Htrim|].
  destruct (URL_href rt (trim line) (Some target)) as [abs|]; [|discriminate].
  cbn [mbind option_bind].
  destruct (encodeURIComponent abs) as [u|] eqn:Hu; [|discriminate].
  cbn [mbind option_bind].
  destruct (encodeURIComponent (or_else (Some referer) target)) as [r|] eqn:Hr;
    [|discriminate].
  cbn [mbind option_bind]. intros H. apply (inj Some) in H. subst out.
  apply encode_safe in Hu, Hr.
  rewrite !not_elem_of_app. repeat split.
  - by_computation.
  - apply safe_not_elem; [reflexivity|exact Hu].
  - by_computation.
  - apply safe_not_elem; [reflexivity|exact Hr].
Qed.

Lemma mapM_no_LF target referer ls : forall outs,
  Forall (fun l => LF ∉ l) ls ->
  mapM (rewrite_line rt target referer) ls = Some outs ->
  Forall (fun l => LF ∉ l) outs.
Proof.
  intros outs Hls Hm. apply mapM_Some in Hm.
  induction Hm as [|l o ls outs Ho _ IH]; [constructor|].
  inversion Hls; subst. constructor; [|apply IH; assumption].
  eapply readme_line_no_LF; eassumption.
Qed.

(** X21. The rewrite of the README deployment is all or nothing. A line that
    is neither empty nor a tag and does not resolve against the target,
    or whose resolution cannot be encoded, makes the whole request fail
    with 502 and nothing of the playlist is sent; when every line
    rewrites, the response is a 200 with as many lines as the playlist
    had, in the same order, each rewritten on its own. *)
Theorem readme_rewrite_is_all_or_nothing up req t code hs playlist stream :
  truthy (target req) = Some t ->
  is_playlist rt t = true ->
  up t (request_headers req) = Reply code hs playlist stream ->
  (200 <=? code) && (code <? 300) = true ->
  (forall line,
     line ∈ split_unit LF playlist ->
     rewrite_line rt t (referer req) line = None ->
     video_proxy rt up req
     = {| status := 502; res_headers := ∅; res_body := Text (js "Proxy error") |})
  /\ (forall line,
        VideoProxy.blank_or_tag line = false ->
        URL_href rt (trim line) (Some t) = None ->
        rewrite_line rt t (referer req) line = None)
  /\ (forall outs,
        mapM (rewrite_line rt t (referer req)) (split_unit LF playlist) = Some outs ->
        video_proxy rt up req
        = {| status := 200;
             res_headers :=
               <[js "Access-Control-Allow-Origin" := netlify]>
                 {[js "Content-Type" := js "application/vnd.apple.mpegurl"]};
             res_body := Text (join [LF] outs) |}
        /\ split_unit LF (join [LF] outs) = outs
        /\ Forall2 (fun line out => rewrite_line rt t (referer req) line = Some out)
             (split_unit LF playlist) outs).
Proof.
  intros Ht Hp Hup Hcode. unfold video_proxy, axios_2xx, rewrite_playlist.
  rewrite Ht, Hp, Hup, Hcode. repeat split.
  - intros line Hin Hline.
    assert (Hm : mapM (rewrite_line rt t (referer req)) (split_unit LF playlist) = None).
    { apply mapM_None. apply Exists_exists. exists line. split; assumption. }
    rewrite Hm. reflexivity.
  - intros line Htag Hres. unfold rewrite_line. unfold VideoProxy.blank_or_tag in Htag.
    rewrite Htag, Hres. reflexivity.
  - rewrite H. reflexivity.
  - apply split_unit_join.
    + pose proof (proj1 (mapM_Some _ _ _) H) as HF. apply Forall2_length in HF.
      pose proof (split_unit_nonempty LF playlist).
      destruct outs; [|discriminate]. destruct (split_unit LF playlist); [congruence|].
      discriminate.
    + eapply mapM_no_LF; [apply split_unit_pieces|exact H].
  - apply mapM_Some in H. exact H.
Qed.

End Rewrite.

(** X21 at an example: a playlist whose second line is a relative path,
    requested through a target that the stand-in platform cannot take
    as a base. *)
Lemma readme_rewrite_is_all_or_nothing_witness :
  video_proxy sample_runtime playlist_origin
    {| target := Some (js "ftp://host/index.m3u8"); referer_param := None;
       user_agent := None; range := None |}
  = {| status := 502; res_headers := ∅; res_body := Text (js "Proxy error") |}.
Proof.
  apply (proj1 (readme_rewrite_is_all_or_nothing sample_runtime playlist_origin
                  {| target := Some (js "ftp://host/index.m3u8");
                     referer_param := None; user_agent := None; range := None |}
                  (js "ftp://host/index.m3u8") 200 ∅
                  (js "#EXTM3U" ++ [LF] ++ js "seg1.ts") 0%nat
                  eq_refl eq_refl eq_refl eq_refl) (js "seg1.ts")).
  - by_computation.
  - reflexivity.
Defined.

(** X22. In the README deployment too, following a rewritten line brings the
    proxy back to the line resolved against the target, with the referer
    of the request that fetched the playlist, or with the target itself
    when that request named none; the upstream [Referer] of the follow-up
    request is that value. *)
Theorem readme_rewritten_line_leads_back rt req t line abs out ua rg :
  truthy (target req) = Some t ->
  VideoProxy.blank_or_tag line = false ->
  URL_href rt (trim line) (Some t) = Some abs ->
  rewrite_line rt t (referer req) line = Some out ->
  well_formed abs -> well_formed (or_else (Some (referer req)) t) ->
  let next := follow out ua rg in
  target next = Some abs
  /\ referer_param next = Some (or_else (Some (referer req)) t)
  /\ request_headers next !! js "Referer" = Some (or_else (Some (referer req)) t).
Proof.
  intros Ht Htag Hres Hout Hwf HwfR. cbv zeta.
  assert (Hne : or_else (Some (referer req)) t <> []).
  { apply ProxyFacts.or_else_nonempty.
    destruct (target req) as [[|c s]|]; cbn in Ht; congruence. }
  unfold rewrite_line in Hout. unfold VideoProxy.blank_or_tag in Htag.
  rewrite Htag, Hres in Hout. cbn [mbind option_bind] in Hout.
  destruct (encodeURIComponent abs) as [u|] eqn:Hu; [|discriminate].
  cbn [mbind option_bind] in Hout.
  destruct (encodeURIComponent (or_else (Some (referer req)) t)) as [r|] eqn:Hr;
    [|discriminate].
  cbn [mbind option_bind] in Hout. apply (inj Some) in Hout. subst out.
  destruct (ProxyFacts.proxy_url_parameters _ _ _ _ Hwf HwfR Hu Hr) as [H1 H2].
  unfold follow. cbn [target referer_param]. rewrite H1, H2.
  split; [reflexivity|]. split; [reflexivity|].
  unfold request_headers, referer. cbn [referer_param user_agent range].
  assert (Hor : or_else (Some (or_else (Some (or_else (referer_param req) [])) t)) []
                = or_else (Some (or_else (referer_param req) [])) t).
  { unfold referer in Hne.
    destruct (or_else (Some (or_else (referer_param req) [])) t); [congruence|reflexivity]. }
  rewrite Hor.
  destruct (truthy rg).
  - rewrite lookup_insert_ne by discriminate.
    unfold list_to_map. cbn [foldr fst snd].
    rewrite lookup_insert_ne by discriminate. apply lookup_insert_eq.
  - unfold list_to_map. cbn [foldr fst snd].
    rewrite lookup_insert_ne by discriminate. apply lookup_insert_eq.
Qed.

(** X22 at an example: a relative segment of a playlist fetched without
    a referer. *)
Lemma readme_rewritten_line_leads_back_witness :
  target (follow (js "/api/video-proxy?url=https%3A%2F%2Fhost%2Fpath%2Fseg1.ts&referer=https%3A%2F%2Fhost%2Fpath%2Findex.m3u8")
            None None)
  = Some (js "https://host/path/seg1.ts").
Proof.
  apply (readme_rewritten_line_leads_back sample_runtime
           {| target := Some (js "https://host/path/index.m3u8");
              referer_param := None; user_agent := None; range := None |}
           (js "https://host/path/index.m3u8") (js "seg1.ts")
           (js "https://host/path/seg1.ts")
           (js "/api/video-proxy?url=https%3A%2F%2Fhost%2Fpath%2Fseg1.ts&referer=https%3A%2F%2Fhost%2Fpath%2Findex.m3u8")
           None None).
  - reflexivity.
  - reflexivity.
  - reflexivity.
  - vm_compute. reflexivity.
  - repeat constructor.
  - repeat constructor.
Defined.

Lemma includes_spec s p :
  includes s p = true <-> exists a b, s = a ++ p ++ b.
Proof.
  split.
  - induction s as [|c s IH]; cbn [includes].
    + rewrite orb_false_r. intros H. apply startsWith_spec in H as [r ->].
      exists [], r. reflexivity.
    + intros H. apply orb_true_iff in H as [H|H].
      * apply startsWith_spec in H as [r ->]. exists [], r. reflexivity.
      * destruct (IH H) as (a & b & ->). exists (c :: a), b. reflexivity.
  - intros (a & b & ->). apply TargetFacts.includes_app.
Qed.

Lemma map_app_inv {A B} (f : A -> B) l : forall k1 k2,
  List.map f l = k1 ++ k2 ->
  exists l1 l2, l = l1 ++ l2 /\ List.map f l1 = k1 /\ List.map f l2 = k2.
Proof.
  intros k1 k2 H. exists (take (length k1) l), (drop (length k1) l).
  split; [symmetry; apply take_drop|].
  pose proof (f_equal length H) as Hlen. rewrite length_map, length_app in Hlen.
  rewrite <- (take_drop (length k1) l), map_app in H.
  apply app_inj_1 in H; [exact H|].
  rewrite length_map, length_take. lia.
Qed.

(** X23. For an ASCII target the README deployment rewrites the response as a
    playlist exactly when the target holds [.m3u8] anywhere, in any
    letter case: a target with a query string after [.m3u8] is a
    playlist, and so is one that only names [.m3u8] in its query
    string. Every response has status 200, 400 or 502; an upstream
    answer with a 2xx status is sent on as a 200 whose only header set by
    the handler is [Access-Control-Allow-Origin], so a 206 loses its
    status and its [Content-Range]. *)
Theorem readme_proxy_takes_any_mention_of_m3u8 rt up req :
  lowercases_ascii rt ->
  (forall t, is_ascii t ->
     (is_playlist rt t = true <->
        exists a m b, t = a ++ m ++ b /\ List.map ascii_lower m = js ".m3u8"))
  /\ (status (video_proxy rt up req) = 200 \/ status (video_proxy rt up req) = 400
      \/ status (video_proxy rt up req) = 502)
  /\ (forall t code hs text stream,
        truthy (target req) = Some t -> is_playlist rt t = false ->
        up t (request_headers req) = Reply code hs text stream ->
        (200 <=? code) && (code <? 300) = true ->
        video_proxy rt up req
        = {| status := 200;
             res_headers := {[js "Access-Control-Allow-Origin" := netlify]};
             res_body := Piped stream |}).
Proof.
  intros Hrt. split; [|split].
  - intros t Ht. unfold is_playlist. rewrite (Hrt t Ht), includes_spec. split.
    + intros (a' & b' & H).
      apply map_app_inv in H as (a & mb & -> & _ & H).
      apply map_app_inv in H as (m & b & -> & Hm & _).
      exists a, m, b. split; [reflexivity|exact Hm].
    + intros (a & m & b & -> & Hm).
      exists (List.map ascii_lower a), (List.map ascii_lower b).
      rewrite !map_app, Hm. reflexivity.
  - unfold video_proxy, axios_2xx.
    destruct (truthy (target req)) as [t|]; [|cbn; auto].
    destruct (is_playlist rt t);
      destruct (up t (request_headers req)) as [m|code hs text stream];
      try (cbn; auto; fail);
      destruct ((200 <=? code) && (code <? 300)); try (cbn; auto; fail).
    destruct (rewrite_playlist rt t (referer req) text); cbn; auto.
  - intros t code hs text stream Ht Hp Hup Hcode.
    unfold video_proxy, axios_2xx. rewrite Ht, Hp, Hup, Hcode. reflexivity.
Qed.

(** X23 at an example: a playlist target with a token after its name. *)
Lemma readme_proxy_takes_any_mention_of_m3u8_witness :
  is_playlist sample_runtime (js "https://host/path/index.m3u8?token=1") = true.
Proof.
  apply (proj1 (readme_proxy_takes_any_mention_of_m3u8 sample_runtime playlist_origin
                  {| target := None; referer_param := None;
                     user_agent := None; range := None |}
                  (fun s _ => eq_refl))
           (js "https://host/path/index.m3u8?token=1") ltac:(repeat constructor)).
  exists (js "https://host/path/index"), (js ".m3u8"), (js "?token=1").
  split; reflexivity.
Defined.

End ReadmeProxyFacts.

(** ** The TMDB endpoints *)

Module TmdbFacts.
Import JsString Uri Runtime Tmdb MoreSamples.

Section WithEnv.
Context (env : tmdb_env).

Lemma tmdbRequest_shape endpoint params :
  match tmdbRequest env endpoint params with
  | ([], inl _) => True
  | ([url], r) =>
      exists key,
        truthy (TMDB_API_KEY env) = Some key
        /\ URL_with_params env (TMDB_BASE_URL ++ endpoint)
             ((js "api_key", key) :: (js "language", js "en-US") :: params) = Some url
        /\ r = match axios_get env url with
               | Resolved data => inr data
               | Rejected message data =>
                   inl {| error_message := message; error_data := data |}
               end
  | _ => False
  end.
Proof.
  unfold tmdbRequest. destruct (truthy (TMDB_API_KEY env)) as [key|]; [|exact I].
  destruct (URL_with_params env _ _) as [url|] eqn:E; [|exact I].
  exists key. auto.
Qed.

Lemma handle_guards r :
  handle env r =
    match truthy (TMDB_API_KEY env) with
    | None => ([], not_configured)
    | Some _ =>
        if invalid r then
          ([], {| code := 400; payload := payload (snd (handle env r)) |})
        else handle env r
    end.
Proof.
  destruct r; cbn [handle invalid];
    unfold search_movies, search_tv, discover, movie_details, movie_recommendations,
      tv_details, tv_recommendations, season_details, configured;
    destruct (truthy (TMDB_API_KEY env)); try reflexivity.
  - destruct (truthy query); reflexivity.
  - destruct (truthy query); reflexivity.
  - cbn [existsb]. rewrite orb_false_r, negb_orb.
    destruct (negb (bool_decide (js "movie" = type)) &&
              negb (bool_decide (js "tv" = type))) eqn:E.
    + replace (negb (bool_decide (type = js "movie")) &&
               negb (bool_decide (type = js "tv"))) with true; [reflexivity|].
      rewrite <- E. f_equal; f_equal; apply bool_decide_ext; split; congruence.
    + replace (negb (bool_decide (type = js "movie")) &&
               negb (bool_decide (type = js "tv"))) with false; [reflexivity|].
      rewrite <- E. f_equal; f_equal; apply bool_decide_ext; split; congruence.
Qed.

Lemma handle_valid r :
  is_Some (truthy (TMDB_API_KEY env)) -> invalid r = false ->
  exists what,
    handle env r
    = if sends_results r then relay_results env what (upstream_call env r)
      else relay_data what (upstream_call env r).
Proof.
  intros [key Hkey] Hvalid.
  destruct r; cbn [handle invalid sends_results] in *;
    unfold search_movies, search_tv, discover, movie_details, movie_recommendations,
      tv_details, tv_recommendations, season_details, configured, upstream_call;
    rewrite Hkey; cbn [endpoint].
  - destruct (truthy query) as [q|] eqn:Eq; [|discriminate].
    apply AnswerFacts.truthy_inv in Eq. subst query. eexists. reflexivity.
  - eexists. reflexivity.
  - eexists. reflexivity.
  - destruct (truthy query) as [q|] eqn:Eq; [|discriminate].
    apply AnswerFacts.truthy_inv in Eq. subst query. eexists. reflexivity.
  - eexists. reflexivity.
  - eexists. reflexivity.
  - eexists. reflexivity.
  - cbn [existsb]. rewrite orb_false_r, negb_orb.
    replace (negb (bool_decide (js "movie" = type)) &&
             negb (bool_decide (js "tv" = type))) with false; [eexists; reflexivity|].
    rewrite <- Hvalid. f_equal; f_equal; apply bool_decide_ext; split; congruence.
Qed.

(** X24. Every TMDB endpoint checks the key first and its own parameters
    next, and only then calls TMDB, at most once. Without a key the
    answer is the 500 of the guard, also for a request that is invalid;
    with a key, a search without [query] and a discovery of a type other
    than [movie] and [tv] are answered 400; in both cases nothing is
    requested from TMDB. A request that passes the guards asks TMDB for
    one URL, and for no other: the one [new URL] gives for the base and
    the endpoint of the route, its segments interpolated as received,
    after [api_key], [language=en-US] and the parameters of the route
    have been appended to its query in this order. *)
Theorem tmdb_guards_come_before_the_call r :
  (truthy (TMDB_API_KEY env) = None -> handle env r = ([], not_configured))
  /\ (is_Some (truthy (TMDB_API_KEY env)) -> invalid r = true ->
      fst (handle env r) = [] /\ code (snd (handle env r)) = 400)
  /\ (length (fst (handle env r)) <= 1)%nat
  /\ (forall url, fst (handle env r) = [url] ->
        invalid r = false /\
        exists key,
          truthy (TMDB_API_KEY env) = Some key
          /\ URL_with_params env (TMDB_BASE_URL ++ endpoint r)
               ((js "api_key", key) :: (js "language", js "en-US") :: parameters r)
             = Some url)
  /\ (forall key url,
        truthy (TMDB_API_KEY env) = Some key -> invalid r = false ->
        URL_with_params env (TMDB_BASE_URL ++ endpoint r)
          ((js "api_key", key) :: (js "language", js "en-US") :: parameters r)
        = Some url ->
        fst (handle env r) = [url]).
Proof.
  assert (Hcall : forall what,
    fst (if sends_results r then relay_results env what (upstream_call env r)
         else relay_data what (upstream_call env r)) = fst (upstream_call env r)).
  { intros what. destruct (sends_results r); reflexivity. }
  pose proof (handle_guards r) as Hg.
  destruct (truthy (TMDB_API_KEY env)) as [key|] eqn:Ekey.
  2:{ rewrite Hg. cbn [fst snd length]. split; [reflexivity|].
      split; [intros [? ?]; discriminate|]. split; [lia|].
      split; discriminate. }
  destruct (invalid r) eqn:Einv.
  { rewrite Hg. cbn [fst snd code length]. split; [discriminate|].
    split; [split; reflexivity|]. split; [lia|]. split; discriminate. }
  clear Hg. destruct (handle_valid r) as (what & ->); [rewrite Ekey; eauto|exact Einv|].
  rewrite Hcall. unfold upstream_call.
  pose proof (tmdbRequest_shape (endpoint r) (parameters r)) as Hs.
  assert (Hsent : forall key' url,
            Some key = Some key' ->
            URL_with_params env (TMDB_BASE_URL ++ endpoint r)
              ((js "api_key", key') :: (js "language", js "en-US") :: parameters r)
            = Some url ->
            fst (tmdbRequest env (endpoint r) (parameters r)) = [url]).
  { intros key' url [= <-] Hu. unfold tmdbRequest. rewrite Ekey, Hu. reflexivity. }
  destruct (tmdbRequest env (endpoint r) (parameters r)) as [[|u [|u' us]] res].
  - cbn [fst length] in *. split; [discriminate|]. split; [intros _ ?; discriminate|].
    split; [lia|]. split; [discriminate|].
    intros key' url Hk _ Hu. exact (Hsent key' url Hk Hu).
  - destruct Hs as (key' & Hk & Hu & _). cbn [fst length] in *.
    split; [discriminate|]. split; [intros _ ?; discriminate|]. split; [lia|].
    split.
    + intros url [= <-]. split; [reflexivity|].
      rewrite Ekey in Hk. injection Hk as <-. exists key. split; [reflexivity|exact Hu].
    + intros key'' url Hk' _ Hu'. exact (Hsent key'' url Hk' Hu').
  - destruct Hs.
Qed.

(** A handler that called TMDB relays what the call gave. *)
Lemma handle_called r url :
  fst (handle env r) = [url] ->
  exists what,
    handle env r
    = (if sends_results r then relay_results env what else relay_data what)
        ([url],
         match axios_get env url with
         | Resolved data => inr data
         | Rejected message data =>
             inl {| error_message := message; error_data := data |}
         end).
Proof.
  intros Hreq. pose proof (handle_guards r) as Hg.
  destruct (truthy (TMDB_API_KEY env)) as [key|] eqn:Ekey;
    [|rewrite Hg in Hreq; discriminate].
  destruct (invalid r) eqn:Einv; [rewrite Hg in Hreq; discriminate|]. clear Hg.
  destruct (handle_valid r) as (what & Hh); [rewrite Ekey; eauto|exact Einv|].
  exists what. rewrite Hh in Hreq |- *. unfold upstream_call in *.
  match goal with
  | |- context [tmdbRequest env ?e ?p] =>
      pose proof (tmdbRequest_shape e p) as Hs;
      destruct (tmdbRequest env e p) as [[|u [|u' us]] res]
  end.
  - destruct (sends_results r); discriminate.
  - destruct Hs as (key' & _ & _ & ->).
    assert (u = url) as -> by (destruct (sends_results r); cbn in Hreq; congruence).
    destruct (sends_results r); reflexivity.
  - destruct Hs.
Qed.

(** X25. A failure of the call is never relayed with its own status: whatever
    TMDB answered (a 401, a 404) or however the request failed, the
    endpoint answers 500. The [details] of the answer are the
    [status_message] of TMDB's body when it has a truthy one, and the
    message of the error otherwise. *)
Theorem tmdb_failure_is_answered_500 r url message data :
  fst (handle env r) = [url] ->
  axios_get env url = Rejected message data ->
  let f := {| error_message := message; error_data := data |} in
  code (snd (handle env r)) = 500
  /\ (exists what,
        payload (snd (handle env r))
        = Some (JObj [(js "error", JStr what); (js "details", details f)]))
  /\ (forall v, data ≫= property (js "status_message") = Some v ->
        json_truthy v = true -> details f = v)
  /\ (forall v, data ≫= property (js "status_message") = Some v ->
        json_truthy v = false -> details f = JStr message)
  /\ (data ≫= property (js "status_message") = None -> details f = JStr message).
Proof.
  intros Hreq Hget. cbv zeta.
  destruct (handle_called r url Hreq) as (what & ->). rewrite Hget.
  split; [destruct (sends_results r); reflexivity|].
  split; [destruct (sends_results r); eexists; reflexivity|].
  unfold details. cbn [error_data error_message].
  repeat split.
  - intros v -> ->. reflexivity.
  - intros v -> ->. reflexivity.
  - intros ->. reflexivity.
Qed.

(** X26. When the call succeeds the endpoint answers 200. The routes for
    details and seasons send the body of TMDB as it is; the searches, the
    recommendations and the discovery send its [results] property alone,
    so the page counts of TMDB are dropped, a body without [results] is
    answered with an empty 200, and a body that is [null] is answered
    500. *)
Theorem tmdb_success_is_relayed r url data :
  fst (handle env r) = [url] ->
  axios_get env url = Resolved data ->
  (sends_results r = false ->
     snd (handle env r) = {| code := 200; payload := Some data |})
  /\ (sends_results r = true -> data <> JNull ->
      snd (handle env r) = {| code := 200; payload := property (js "results") data |})
  /\ (sends_results r = true -> data = JNull -> code (snd (handle env r)) = 500).
Proof.
  intros Hreq Hget.
  destruct (handle_called r url Hreq) as (what & ->). rewrite Hget.
  repeat split.
  - intros ->. reflexivity.
  - intros -> Hdata. unfold relay_results, results. cbn [fst snd].
    destruct data; congruence.
  - intros -> ->. reflexivity.
Qed.

End WithEnv.

(** X25 at an example: a movie that TMDB does not have: its 404 is answered 500. *)
Lemma tmdb_failure_is_answered_500_witness :
  code (snd (handle tmdb_sample (MovieDetails (js "0")))) = 500.
Proof.
  exact (proj1 (tmdb_failure_is_answered_500 tmdb_sample (MovieDetails (js "0"))
                  (js "https://api.themoviedb.org/3/movie/0?api_key=k&language=en-US")
                  (js "Request failed with status code 404")
                  (Some (JObj [(js "status_code", JNum (QArith_base.Qmake 34 1));
                               (js "status_message",
                                JStr (js "The resource you requested could not be found."))]))
                  eq_refl eq_refl)).
Defined.

(** X26 at an example: a search that TMDB answers with one page of results. *)
Lemma tmdb_success_is_relayed_witness :
  snd (handle tmdb_sample (SearchMovies (Some (js "fight")) None))
  = {| code := 200;
       payload := Some (JArr [JObj [(js "id", JNum (QArith_base.Qmake 550 1));
                                    (js "title", JStr (js "Fight Club"))]]) |}.
Proof.
  apply (proj1 (proj2 (tmdb_success_is_relayed tmdb_sample
           (SearchMovies (Some (js "fight")) None)
           (js "https://api.themoviedb.org/3/search/movie?api_key=k&language=en-US&query=fight&page=1")
           (JObj [(js "page", JNum (QArith_base.Qmake 1 1));
                  (js "results",
                   JArr [JObj [(js "id", JNum (QArith_base.Qmake 550 1));
                               (js "title", JStr (js "Fight Club"))]]);
                  (js "total_pages", JNum (QArith_base.Qmake 1 1))])
           eq_refl eq_refl))); [reflexivity|discriminate].
Defined.

End TmdbFacts.
